(** * fmcsa-extractor: a shallow embedding of [src/extractor.js]

    The script resolves a list of MC numbers against the SAFER web site:
    a snapshot (lookup) page, an SMS page and a carrier-registration page.

    Conventions of the embedding.
    - A JavaScript string is a [string] of 8-bit code units (the Latin-1
      range of UTF-16); [toLowerCase], [\s] and the [/i] flag are modelled
      on that range.
    - JavaScript numbers that count things (attempts, indices, sizes) are
      [nat]; durations in milliseconds and parsed figures are [N].
    - The network, the platform URL parser and the wall clock are oracles
      collected in a [world]; every pipeline (one call of [handleMC]) reads
      its own sequence of network replies, so that nothing depends on how
      the promises of one wave interleave.
    - Time is virtual: a wait takes the delay that the timers of Node give
      to its argument ([timer_ms]: the argument itself between 1 and
      [2^31 - 1] ms, and 1 ms otherwise), a request takes the time the
      network gives it. The timer that [extractOne] arms throws
      from its callback, outside of any [try]; when its deadline is reached
      the process ends, which the embedding records as [Fatal].
    - [console.log] and the creation of the output directory are not
      modelled. The text of the list file is the input of [run]; every
      call of [fs.writeFileSync] is taken to succeed. *)

From Stdlib Require Import String Ascii List Arith NArith Bool Lia.
Import ListNotations.
Local Open Scope string_scope.
Local Open Scope list_scope.
Local Open Scope nat_scope.

(** String concatenation, the [+] of JavaScript on strings. *)
Infix "+++" := String.append (right associativity, at level 60).

(** ** JavaScript strings *)

Module JsString.

Definition code (c : ascii) : nat := nat_of_ascii c.

Definition in_range (lo hi : nat) (c : ascii) : bool :=
  (lo <=? code c) && (code c <=? hi).

(** [\d] *)
Definition is_digit (c : ascii) : bool := in_range 48 57 c.

(** [\s]: TAB, LF, VT, FF, CR, space and NBSP. *)
Definition is_space (c : ascii) : bool :=
  in_range 9 13 c || (code c =? 32) || (code c =? 160).

(** [String.prototype.toLowerCase] on one code unit: A-Z and the Latin-1
    capitals (all of 0xC0-0xDE except the multiplication sign) move by 32. *)
Definition lower_char (c : ascii) : ascii :=
  if in_range 65 90 c || in_range 192 214 c || in_range 216 222 c
  then ascii_of_nat (code c + 32) else c.

Fixpoint toLowerCase (s : string) : string :=
  match s with
  | EmptyString => EmptyString
  | String c s' => String (lower_char c) (toLowerCase s')
  end.

(** [sub] is a prefix of [s]. *)
Fixpoint startsWith (sub s : string) : bool :=
  match sub, s with
  | EmptyString, _ => true
  | String a sub', String b s' => Ascii.eqb a b && startsWith sub' s'
  | String _ _, EmptyString => false
  end.

(** [String.prototype.includes] *)
Fixpoint includes (s sub : string) : bool :=
  startsWith sub s ||
  match s with
  | EmptyString => false
  | String _ s' => includes s' sub
  end.

Fixpoint rev_string (acc s : string) : string :=
  match s with
  | EmptyString => acc
  | String c s' => rev_string (String c acc) s'
  end.

Fixpoint trimStart (s : string) : string :=
  match s with
  | String c s' => if is_space c then trimStart s' else s
  | EmptyString => EmptyString
  end.

(** [String.prototype.trim] *)
Definition trim (s : string) : string :=
  rev_string "" (trimStart (rev_string "" (trimStart s))).

(** [Array.prototype.join] on strings *)
Fixpoint join (sep : string) (l : list string) : string :=
  match l with
  | [] => ""
  | [x] => x
  | x :: l' => x +++ sep +++ join sep l'
  end.

(** Truthiness of a string: non-empty. *)
Definition truthy (s : string) : bool :=
  match s with EmptyString => false | _ => true end.

(** [a || b] on strings *)
Definition or_else (a b : string) : string := if truthy a then a else b.

End JsString.
Import JsString.

(** ** Regular expressions

    A backtracking matcher in continuation-passing style that follows the
    matcher of the language standard: alternatives left to right, greedy
    and lazy quantifiers, an iteration of a quantifier that consumes
    nothing is rejected. The patterns of the program have no capture group
    under a quantifier, so captures are never reset. *)

Module Regex.

Inductive regex : Type :=
| Eps
| Cls (p : ascii -> bool)
| Cat (r1 r2 : regex)
| Alt (r1 r2 : regex)
| Rep (greedy : bool) (lo : nat) (hi : option nat) (r : regex)
| Grp (n : nat) (r : regex).

Definition caps := list (nat * string).
Definition answer := option (string * caps).
Definition cont := string -> caps -> answer.

(** The text between two positions, given as the suffixes starting there. *)
Definition consumed (s s' : string) : string :=
  substring 0 (String.length s - String.length s') s.

(** The matcher of a quantifier over the matcher [m1] of its body:
    [lo] rounds are still due, [hi] bounds the rounds left. A round that
    was not due and consumed nothing is rejected. Every round that is not
    due consumes a character, so [lo + length s + 1] units of fuel are
    never used up. *)
Fixpoint rep_loop (m1 : string -> caps -> cont -> answer) (g : bool) (k : cont)
    (fuel lo : nat) (hi : option nat) (s : string) (c : caps) {struct fuel}
  : answer :=
  match fuel with
  | 0 => None
  | S fuel' =>
      match hi with
      | Some 0 => k s c
      | _ =>
          let again :=
            m1 s c (fun s' c' =>
              if (lo =? 0) && (String.length s' =? String.length s) then None
              else rep_loop m1 g k fuel' (pred lo) (option_map pred hi) s' c') in
          if 0 <? lo then again
          else if g then
            match again with Some x => Some x | None => k s c end
          else
            match k s c with Some x => Some x | None => again end
      end
  end.

Fixpoint rmatch (r : regex) : string -> caps -> cont -> answer :=
  match r with
  | Eps => fun s c k => k s c
  | Cls p => fun s c k =>
      match s with
      | String a s' => if p a then k s' c else None
      | EmptyString => None
      end
  | Cat r1 r2 => fun s c k => rmatch r1 s c (fun s' c' => rmatch r2 s' c' k)
  | Alt r1 r2 => fun s c k =>
      match rmatch r1 s c k with
      | Some x => Some x
      | None => rmatch r2 s c k
      end
  | Grp n r1 => fun s c k =>
      rmatch r1 s c (fun s' c' => k s' ((n, consumed s s') :: c'))
  | Rep g lo hi r1 => fun s c k =>
      rep_loop (rmatch r1) g k (lo + String.length s + 1) lo hi s c
  end.

(** The result of [RegExp.prototype.exec]: index, [m[0]], the groups and
    the text after the match. *)
Record rmatch_result : Type := {
  m_index : nat;
  m_text : string;
  m_caps : caps;
  m_rest : string
}.

Fixpoint group_in (n : nat) (c : caps) : option string :=
  match c with
  | [] => None
  | (i, v) :: c' => if i =? n then Some v else group_in n c'
  end.

(** [m[n]], [None] for [undefined]. *)
Definition group (n : nat) (m : rmatch_result) : option string :=
  group_in n (m_caps m).

(** [m[n]] where the program uses it as a string under a truthiness test. *)
Definition group_str (n : nat) (m : rmatch_result) : string :=
  match group n m with Some v => v | None => "" end.

(** Leftmost match at or after the current position; [idx] is the index
    of the first character of [s] in the whole subject. *)
Fixpoint exec_at (r : regex) (s : string) (idx : nat) : option rmatch_result :=
  match rmatch r s [] (fun s' c => Some (s', c)) with
  | Some (s', c) =>
      Some {| m_index := idx; m_text := consumed s s'; m_caps := c; m_rest := s' |}
  | None =>
      match s with
      | EmptyString => None
      | String _ s' => exec_at r s' (S idx)
      end
  end.

(** [s.match(r)] and [r.exec(s)] from index 0. *)
Definition exec (r : regex) (s : string) : option rmatch_result := exec_at r s 0.

(** [r.test(s)] *)
Definition test (r : regex) (s : string) : bool :=
  match exec r s with Some _ => true | None => false end.

(** [s.replace(r, by)] with the [g] flag. After an empty match the
    scan moves on by one character. *)
Fixpoint replace_loop (fuel : nat) (r : regex) (by_ s : string) : string :=
  match fuel with
  | 0 => s
  | S fuel' =>
      match exec r s with
      | None => s
      | Some m =>
          let before := substring 0 (m_index m) s in
          match m_text m, m_rest m with
          | EmptyString, String c rest' =>
              before +++ by_ +++ String c (replace_loop fuel' r by_ rest')
          | EmptyString, EmptyString => before +++ by_
          | _, rest => before +++ by_ +++ replace_loop fuel' r by_ rest
          end
      end
  end.

Definition replace_all (r : regex) (by_ s : string) : string :=
  replace_loop (S (String.length s)) r by_ s.

(** *** Pattern syntax *)

Definition chr (a : ascii) : regex := Cls (Ascii.eqb a).

(** Case folding of the [i] flag on an ASCII letter. *)
Definition fold_char (c : ascii) : ascii :=
  if in_range 65 90 c then ascii_of_nat (code c + 32) else c.

Definition chri (a : ascii) : regex :=
  Cls (fun c => Ascii.eqb (fold_char c) (fold_char a)).

Fixpoint lit (s : string) : regex :=
  match s with
  | EmptyString => Eps
  | String a EmptyString => chr a
  | String a s' => Cat (chr a) (lit s')
  end.

Fixpoint liti (s : string) : regex :=
  match s with
  | EmptyString => Eps
  | String a EmptyString => chri a
  | String a s' => Cat (chri a) (liti s')
  end.

Fixpoint seq (l : list regex) : regex :=
  match l with
  | [] => Eps
  | [r] => r
  | r :: l' => Cat r (seq l')
  end.

Definition star (r : regex) : regex := Rep true 0 None r.
Definition plus (r : regex) : regex := Rep true 1 None r.
Definition opt (r : regex) : regex := Rep true 0 (Some 1) r.
Definition lazy_star (r : regex) : regex := Rep false 0 None r.
Definition times (lo hi : nat) (r : regex) : regex := Rep true lo (Some hi) r.
Definition at_least (lo : nat) (r : regex) : regex := Rep true lo None r.

Definition one_of (s : string) (c : ascii) : bool :=
  existsb (Ascii.eqb c) (list_ascii_of_string s).
Definition none_of (s : string) (c : ascii) : bool := negb (one_of s c).

Definition digit : regex := Cls is_digit.
Definition space : regex := Cls is_space.
Definition any : regex := Cls (fun _ => true).

End Regex.
Import Regex.

(** Successive matches of a pattern with the [g] flag, as a
    [while ((m = re.exec(s)) !== null)] loop sees them. Every pattern the
    program runs this way starts with a literal, so each match consumes
    input and [S (length s)] rounds exhaust the subject. *)
Fixpoint exec_all_from (fuel : nat) (r : regex) (s : string) (idx : nat)
  : list rmatch_result :=
  match fuel with
  | 0 => []
  | S fuel' =>
      match exec_at r s idx with
      | None => []
      | Some m =>
          m :: exec_all_from fuel' r (m_rest m)
                 (m_index m + String.length (m_text m))
      end
  end.

Definition exec_all (r : regex) (s : string) : list rmatch_result :=
  exec_all_from (S (String.length s)) r s 0.

(** ** Configuration and constants (lines 11-20) *)

(** [MODE]: ['urls'], or anything else, which behaves as the default
    ['both']. *)
Inductive mode : Type := Both | Urls.

Record config : Type := {
  CONCURRENCY : nat;
  DELAY : N;
  BATCH_SIZE : nat;
  WAIT_SECONDS : N;
  MODE : mode
}.

Definition default_config : config :=
  {| CONCURRENCY := 6; DELAY := 300; BATCH_SIZE := 500; WAIT_SECONDS := 0;
     MODE := Both |}.

Definition EXTRACT_TIMEOUT_MS : N := 20000.
Definition FETCH_TIMEOUT_MS : N := 20000.
Definition MAX_RETRIES : nat := 3.
Definition BACKOFF_BASE_MS : N := 2000.

(** ** Pure page functions *)

Definition dquote : ascii := ascii_of_nat 34.
Definition quotes : string := String dquote (String "'" EmptyString).

(** *** [mcToSnapshotUrl] (lines 29-32) *)

Definition hex_digit (n : nat) : ascii :=
  match get n "0123456789ABCDEF" with Some c => c | None => "0"%char end.

Definition pct (b : nat) : string :=
  String "%" (String (hex_digit (b / 16)) (String (hex_digit (b mod 16)) "")).

Definition uri_unreserved (c : ascii) : bool :=
  in_range 65 90 c || in_range 97 122 c || is_digit c || one_of "-_.!~*'()" c.

(** [encodeURIComponent] on 8-bit code units: an unreserved character
    stays, any other one is written as the escaped bytes of its UTF-8
    form (one byte below 128, two bytes from 128 to 255). *)
Fixpoint encodeURIComponent (s : string) : string :=
  match s with
  | EmptyString => ""
  | String c s' =>
      (if uri_unreserved c then String c ""
       else if code c <? 128 then pct (code c)
       else pct (192 + code c / 64) +++ pct (128 + code c mod 64))
      +++ encodeURIComponent s'
  end.

Definition SNAPSHOT_PREFIX : string :=
  "https://safer.fmcsa.dot.gov/query.asp?searchtype=ANY&query_type=queryCarrierSnapshot&query_param=MC_MX&query_string=".

Definition mcToSnapshotUrl (mc : string) : string :=
  let m := replace_all (plus space) "" mc in
  SNAPSHOT_PREFIX +++ encodeURIComponent m.

(** *** The validity check of [handleMC] (lines 143-151) *)

(** [Number(s)] for the strings the program converts: a run of decimal
    digits, the empty string being 0. The program only converts text taken
    from the class [[0-9,]] with the commas removed; other spellings of a
    number are answered [NaN] here. The value is kept exact: rounding to a
    double never turns a positive integer into 0. *)
Inductive jsnum : Type := NaN | Num (n : N).

Fixpoint digits_value (acc : N) (s : string) : option N :=
  match s with
  | EmptyString => Some acc
  | String c s' =>
      if is_digit c
      then digits_value (10 * acc + N.of_nat (code c - 48))%N s'
      else None
  end.

Definition Number_ (s : string) : jsnum :=
  match digits_value 0 s with Some n => Num n | None => NaN end.

Definition isNaN (n : jsnum) : bool :=
  match n with NaN => true | Num _ => false end.

(** [n === 0] *)
Definition is_zero (n : jsnum) : bool :=
  match n with Num 0%N => true | _ => false end.

(** [/Power\s*Units[^0-9]*([0-9,]+)/i] *)
Definition powerUnitsRe : regex :=
  seq [ liti "Power"; star space; liti "Units";
        star (Cls (fun c => negb (is_digit c)));
        Grp 1 (plus (Cls (fun c => is_digit c || Ascii.eqb c ","))) ].

(** The three ways out of lines 143-151. *)
Inductive verdict : Type :=
| Valid
| InvalidMarker     (* "INVALID (not found/inactive)" *)
| InvalidPU.        (* "INVALID (PU=0)" *)

Definition has_marker (html : string) : bool :=
  let low := toLowerCase html in
  includes low "record not found" || includes low "record inactive".

Definition puZero (html : string) : bool :=
  match exec powerUnitsRe html with
  | Some puMatch =>
      let n := Number_ (replace_all (chr ",") "" (group_str 1 puMatch)) in
      negb (isNaN n) && is_zero n
  | None => false
  end.

Definition validity (html : string) : verdict :=
  if has_marker html then InvalidMarker
  else if puZero html then InvalidPU
  else Valid.

(** *** Field extraction of [extractOne] (lines 64-78, 86-106, 113-130) *)

Definition dash_or_space : regex :=
  Cls (fun c => Ascii.eqb c "-" || is_space c).

(** [/MC[-\s]?(\d{3,7})/i] *)
Definition mcRe : regex :=
  seq [ liti "MC"; opt dash_or_space; Grp 1 (times 3 7 digit) ].

(** The list [pats] of line 87. *)
Definition pats : list regex :=
  [ mcRe;
    seq [ liti "MC/MX/FF Number(s):"; star space; liti "MC"; opt dash_or_space;
          Grp 1 (times 3 7 digit) ];
    seq [ liti "MC/MX Number:"; star space; liti "MC"; opt dash_or_space;
          Grp 1 (times 3 7 digit) ];
    seq [ liti "MC/MX Number:"; star space; Grp 1 (times 3 7 digit) ] ].

(** The loop of line 93: the first pattern with a non-empty group 1. *)
Fixpoint first_pat (ps : list regex) (html : string) : string :=
  match ps with
  | [] => ""
  | p :: ps' =>
      match exec p html with
      | Some m =>
          if truthy (group_str 1 m) then "MC-" +++ group_str 1 m
          else first_pat ps' html
      | None => first_pat ps' html
      end
  end.

Definition extractMcNumber (html : string) : string :=
  let mcNumber := first_pat pats html in
  if truthy mcNumber then mcNumber
  else
    match exec mcRe html with
    | Some any_ =>
        if truthy (group_str 1 any_) then "MC-" +++ group_str 1 any_ else ""
    | None => ""
    end.

(** [/\(?\d{3}\)?[\s\-.]*\d{3}[\s\-.]*\d{4}/] *)
Definition phoneRe : regex :=
  let sep := star (Cls (fun c => is_space c || one_of "-." c)) in
  seq [ opt (chr "("); times 3 3 digit; opt (chr ")"); sep;
        times 3 3 digit; sep; times 4 4 digit ].

(** [/\(?\d{3}\)?[\s\-]*\d{3}[\s\-]*\d{4}/] *)
Definition phoneRe2 : regex :=
  let sep := star dash_or_space in
  seq [ opt (chr "("); times 3 3 digit; opt (chr ")"); sep;
        times 3 3 digit; sep; times 4 4 digit ].

Definition extractPhoneAnywhere (html : string) : string :=
  match exec phoneRe html with Some m => m_text m | None => "" end.

Definition not_quote : regex := Cls (none_of quotes).
Definition a_quote : regex := Cls (one_of quotes).

(** The pattern [hrefRe] of line 101. *)
Definition hrefRe : regex :=
  seq [ liti "href="; a_quote;
        Grp 1 (seq [ star not_quote;
                     Grp 2 (Alt (liti "safer_xfr.aspx")
                             (Alt (liti "/SMS/safer_xfr.aspx")
                                  (liti "/SMS/Carrier/")));
                     star not_quote ]);
        a_quote ].

(** The pattern [regRe] of line 114. *)
Definition regRe : regex :=
  seq [ liti "href="; a_quote;
        Grp 1 (seq [ star not_quote;
                     Grp 2 (Alt (liti "CarrierRegistration.aspx")
                              (seq [ liti "/Carrier/"; plus digit;
                                     liti "/CarrierRegistration.aspx" ]));
                     star not_quote ]);
        a_quote ].

(** The pattern [spanRe] of line 119. *)
Definition spanRe : regex :=
  seq [ liti "<span"; star (Cls (none_of ">")); liti "class="; a_quote;
        liti "dat"; a_quote; star (Cls (none_of ">")); chr ">";
        Grp 1 (lazy_star any); liti "</span>" ].

(** [/([a-zA-Z0-9._%+-]+@[a-zA-Z0-9.-]+\.[a-zA-Z]{2,})/] *)
Definition emailRe : regex :=
  let alpha := fun c => in_range 65 90 c || in_range 97 122 c in
  Grp 1 (seq [ plus (Cls (fun c => alpha c || is_digit c || one_of "._%+-" c));
               chr "@";
               plus (Cls (fun c => alpha c || is_digit c || one_of ".-" c));
               chr "."; at_least 2 (Cls alpha) ]).

Definition htmlToText (s : string) : string :=
  if negb (truthy s) then ""
  else
    trim
      (replace_all (plus space) " "
        (replace_all (lit "&gt;") ">"
          (replace_all (lit "&lt;") "<"
            (replace_all (lit "&amp;") "&"
              (replace_all (lit "&nbsp;") " "
                (replace_all (seq [ chr "<"; star (Cls (none_of ">")); chr ">" ])
                   " " s)))))).

Section Links.

(** [new URL(href, base).href], [None] when the constructor throws. *)
Variable URL_href : string -> string -> option string.

(** [absoluteUrl] (lines 34-36) *)
Definition absoluteUrl (base href : string) : string :=
  match URL_href href base with Some u => u | None => href end.

(** The loop of lines 103-106 over the matches of [hrefRe]. *)
Fixpoint smsLink_loop (url : string) (ms : list rmatch_result) : string :=
  match ms with
  | [] => ""
  | m :: ms' =>
      let href := group_str 1 m in
      if truthy href &&
         (test (liti "safer_xfr.aspx") href || test (liti "/SMS/") href)
      then absoluteUrl url href
      else smsLink_loop url ms'
  end.

Definition find_smsLink (url html : string) : string :=
  smsLink_loop url (exec_all hrefRe html).

(** The loop of line 115 over the matches of [regRe]: [regLink] is assigned
    at every round and the loop leaves at the first non-empty value. *)
Fixpoint regLink_loop (smsLink : string) (ms : list rmatch_result) : string :=
  match ms with
  | [] => ""
  | m :: ms' =>
      let regLink := absoluteUrl smsLink (group_str 1 m) in
      if truthy regLink then regLink else regLink_loop smsLink ms'
  end.

Definition find_regLink (smsLink smsHtml : string) : string :=
  regLink_loop smsLink (exec_all regRe smsHtml).

End Links.

(** The loop of lines 122-126 over the [dat] spans, then the fallbacks of
    lines 127-128; the result is the pair [(foundEmail, foundPhone)]. *)
Fixpoint span_loop (ms : list rmatch_result) (found : string * string)
  : string * string :=
  match ms with
  | [] => found
  | s :: ms' =>
      let '(foundEmail, foundPhone) := found in
      let txt := htmlToText (group_str 1 s) in
      let foundEmail' :=
        if negb (truthy foundEmail) && test (chr "@") txt then txt
        else foundEmail in
      let foundPhone' :=
        if negb (truthy foundPhone) then
          match exec phoneRe2 txt with
          | Some ph => m_text ph
          | None => foundPhone
          end
        else foundPhone in
      span_loop ms' (foundEmail', foundPhone')
  end.

Definition extractContacts (regHtml : string) : string * string :=
  let '(foundEmail, foundPhone) := span_loop (exec_all spanRe regHtml) ("", "") in
  let foundEmail :=
    if negb (truthy foundEmail) then
      match exec emailRe regHtml with
      | Some em => group_str 1 em
      | None => foundEmail
      end
    else foundEmail in
  let foundPhone :=
    if negb (truthy foundPhone) then
      match exec phoneRe2 regHtml with
      | Some ph2 => m_text ph2
      | None => foundPhone
      end
    else foundPhone in
  (foundEmail, foundPhone).

(** ** One pipeline: effects

    An [async] function of the script is a computation over the state of
    one pipeline: the number of requests it has issued, its elapsed time,
    the deadline of the armed extraction timer and the trace of its
    requests and waits. A computation returns, throws, or ends the process
    ([Fatal]): the callback of the timer of line 81 throws outside of any
    [try], which Node reports as an uncaught exception and exits. A wait
    takes the delay of its timer ([timer_ms] below), a request takes the
    time the network gives. *)

Inductive error : Type :=
| NetworkError (msg : string)            (* [fetch] rejected *)
| AbortError                             (* aborted by the timer of line 40 *)
| HttpError (label : string) (status : nat)   (* line 52 *)
| BodyError                              (* [resp.text()] rejected *)
| Failed (label : string).               (* line 61, no attempt was made *)

(** What the network answers to one request: no response after [ms], or a
    response head after [ms] whose body is read in [body_ms] more. *)
Inductive reply : Type :=
| NoResponse (ms : N) (msg : string)
| Response (ms : N) (status : nat) (body_ms : N) (body : option string).

Inductive event : Type :=
| EvFetch (url : string)
| EvSleep (ms : N).

Record tstate : Type := {
  fetches : nat;
  clock : N;
  timer : option N;
  trace : list event
}.

Definition tstate0 : tstate :=
  {| fetches := 0; clock := 0; timer := None; trace := [] |}.

Inductive res (A : Type) : Type :=
| Val (a : A)
| Exn (e : error)
| Fatal.
Arguments Val {A} a.
Arguments Exn {A} e.
Arguments Fatal {A}.

Definition M (A : Type) : Type := tstate -> res A * tstate.

Definition ret {A} (a : A) : M A := fun st => (Val a, st).
Definition throw {A} (e : error) : M A := fun st => (Exn e, st).

Definition bind {A B} (m : M A) (f : A -> M B) : M B :=
  fun st =>
    match m st with
    | (Val a, st') => f a st'
    | (Exn e, st') => (Exn e, st')
    | (Fatal, st') => (Fatal, st')
    end.

Notation "x <- m ;; k" := (bind m (fun x => k))
  (at level 61, m at next level, right associativity).
Notation "m ;;; k" := (bind m (fun _ => k))
  (at level 61, right associativity).

(** [try { m } catch (err) { h err }] *)
Definition try_catch {A} (m : M A) (h : error -> M A) : M A :=
  fun st =>
    match m st with
    | (Exn e, st') => h e st'
    | r => r
    end.

(** [try { m } finally { f }]: [f] runs when [m] returns or throws. *)
Definition try_finally {A} (m : M A) (f : M unit) : M A :=
  fun st =>
    match m st with
    | (Fatal, st') => (Fatal, st')
    | (r, st') =>
        match f st' with
        | (Val _, st'') => (r, st'')
        | (Exn e, st'') => (Exn e, st'')
        | (Fatal, st'') => (Fatal, st'')
        end
    end.

Definition emit (e : event) : M unit :=
  fun st =>
    (Val tt, {| fetches := fetches st; clock := clock st; timer := timer st;
                trace := trace st ++ [e] |}).

(** Time passes; an armed timer whose deadline is reached fires. *)
Definition advance (d : N) : M unit :=
  fun st =>
    let t := (clock st + d)%N in
    match timer st with
    | Some deadline =>
        if (deadline <=? t)%N then
          (Fatal, {| fetches := fetches st; clock := deadline;
                     timer := None; trace := trace st |})
        else
          (Val tt, {| fetches := fetches st; clock := t; timer := timer st;
                      trace := trace st |})
    | None =>
        (Val tt, {| fetches := fetches st; clock := t; timer := None;
                    trace := trace st |})
    end.

(** The delay that the timers of Node give to [setTimeout(f, ms)]: a
    delay below 1 or above [2^31 - 1] is replaced by 1. *)
Definition TIMEOUT_MAX : N := 2147483647.

Definition timer_ms (ms : N) : N :=
  if (1 <=? ms)%N && (ms <=? TIMEOUT_MAX)%N then ms else 1%N.

(** [setTimeout(() => { throw ... }, ms)] *)
Definition setTimeout_throw (ms : N) : M unit :=
  fun st =>
    (Val tt, {| fetches := fetches st; clock := clock st;
                timer := Some (clock st + timer_ms ms)%N; trace := trace st |}).

Definition clearTimeout : M unit :=
  fun st =>
    (Val tt, {| fetches := fetches st; clock := clock st; timer := None;
                trace := trace st |}).

(** [sleep] (line 27): the event records the argument of the call, the
    clock moves by the delay the timer is given. *)
Definition sleep (ms : N) : M unit := emit (EvSleep ms) ;;; advance (timer_ms ms).

Section Pipeline.

(** The replies this pipeline gets: to its [n]-th request, sent to [url]. *)
Variable net : nat -> string -> reply.
Variable URL_href : string -> string -> option string.

Definition next_reply (url : string) : M reply :=
  fun st =>
    (Val (net (fetches st) url),
     {| fetches := S (fetches st); clock := clock st; timer := timer st;
        trace := trace st ++ [EvFetch url] |}).

(** A response head: status and the body still to be read. *)
Record response : Type := {
  status : nat;
  body_ms : N;
  body : option string
}.

(** [resp.ok] *)
Definition ok (resp : response) : bool :=
  (200 <=? status resp) && (status resp <=? 299).

(** [fetchWithTimeout] (lines 38-45): the request is aborted when no
    response head has arrived when the timer of line 40 fires, [timer_ms ms]
    after the start. *)
Definition fetchWithTimeout (url : string) (ms : N) : M response :=
  r <- next_reply url ;;
  match r with
  | NoResponse d msg =>
      if (d <? timer_ms ms)%N then advance d ;;; throw (NetworkError msg)
      else advance (timer_ms ms) ;;; throw AbortError
  | Response d st bd b =>
      if (d <? timer_ms ms)%N
      then advance d ;;; ret {| status := st; body_ms := bd; body := b |}
      else advance (timer_ms ms) ;;; throw AbortError
  end.

(** [resp.text()] *)
Definition text (resp : response) : M string :=
  advance (body_ms resp) ;;;
  match body resp with
  | Some t => ret t
  | None => throw BodyError
  end.

Definition backoff (i : nat) : N := (BACKOFF_BASE_MS * 2 ^ N.of_nat i)%N.

(** The [try] block of lines 51-53. *)
Definition round (url : string) (timeout : N) (label : string) : M string :=
  resp <- fetchWithTimeout url timeout ;;
  if negb (ok resp) then throw (HttpError label (status resp)) else text resp.

(** [fetchRetry] (lines 47-62): [n] rounds of the loop are left, [i] is
    the loop counter. *)
Fixpoint fetchRetry_loop (n i : nat) (lastErr : option error)
    (url : string) (timeout : N) (label : string) : M string :=
  match n with
  | 0 =>
      throw (match lastErr with Some e => e | None => Failed label end)
  | S n' =>
      try_catch
        (round url timeout label)
        (fun err =>
           sleep (backoff i) ;;;
           fetchRetry_loop n' (S i) (Some err) url timeout label)
  end.

Definition fetchRetry (url : string) (tries : nat) (timeout : N)
    (label : string) : M string :=
  fetchRetry_loop tries 0 None url timeout label.

(** The object returned by [extractOne]. *)
Record row : Type := {
  email : string;
  mcNumber : string;
  phone : string;
  url : string
}.

(** Lines 109-133: the SMS page and the registration page. The result is
    the pair of [email] and [phone] as they stand at line 135. *)
Definition deep (smsLink phone0 : string) : M (string * string) :=
  if truthy smsLink then
    sleep 300 ;;;
    try_catch
      (smsHtml <- fetchRetry smsLink MAX_RETRIES FETCH_TIMEOUT_MS "sms" ;;
       let regLink := find_regLink URL_href smsLink smsHtml in
       if truthy regLink then
         sleep 300 ;;;
         regHtml <- fetchRetry regLink MAX_RETRIES FETCH_TIMEOUT_MS "registration" ;;
         let '(foundEmail, foundPhone) := extractContacts regHtml in
         ret (or_else foundEmail "",
              if truthy foundPhone then foundPhone else phone0)
       else ret ("", phone0))
      (fun _ => ret ("", phone0))
  else ret ("", phone0).

(** [extractOne] (lines 80-137) *)
Definition extractOne (url_ : string) : M row :=
  setTimeout_throw EXTRACT_TIMEOUT_MS ;;;
  try_finally
    (html <- fetchRetry url_ MAX_RETRIES FETCH_TIMEOUT_MS "snapshot" ;;
     let mcNumber_ := extractMcNumber html in
     let phone_ := extractPhoneAnywhere html in
     let smsLink := find_smsLink URL_href url_ html in
     ep <- deep smsLink phone_ ;;
     ret {| email := or_else (fst ep) ""; mcNumber := or_else mcNumber_ "";
            phone := or_else (snd ep) ""; url := url_ |})
    clearTimeout.

(** The object returned by [handleMC]; an absent property is [None]. *)
Record outcome : Type := {
  valid : bool;
  o_url : option string;
  o_row : option row
}.

Definition invalid : outcome :=
  {| valid := false; o_url := None; o_row := None |}.

(** [handleMC] (lines 139-162) *)
Definition handleMC (m : mode) (mc : string) : M outcome :=
  let url_ := mcToSnapshotUrl mc in
  try_catch
    (html <- fetchRetry url_ MAX_RETRIES FETCH_TIMEOUT_MS "snapshot" ;;
     match validity html with
     | InvalidMarker => ret invalid
     | InvalidPU => ret invalid
     | Valid =>
         match m with
         | Urls => ret {| valid := true; o_url := Some url_; o_row := None |}
         | Both =>
             row_ <- extractOne url_ ;;
             ret {| valid := true; o_url := Some url_; o_row := Some row_ |}
         end
     end)
    (fun _ => ret invalid).

End Pipeline.

(** ** The checkpoint text (lines 198-201) *)

Definition newline : string := String (ascii_of_nat 10) EmptyString.

Definition headers : list string := ["email"; "mcNumber"; "phone"; "url"].

(** [r[h]], the empty string standing for [undefined]. *)
Definition field (r : row) (h : string) : string :=
  if String.eqb h "email" then email r
  else if String.eqb h "mcNumber" then mcNumber r
  else if String.eqb h "phone" then phone r
  else if String.eqb h "url" then url r
  else "".

(** The template of line 200 for one value. *)
Definition quote_field (v : string) : string :=
  String dquote
    (replace_all (chr dquote) (String dquote (String dquote "")) v
     +++ String dquote "").

Definition csv_line (r : row) : string :=
  join "," (map (fun h => quote_field (or_else (field r h) "")) headers).

Definition to_csv (rows : list row) : string :=
  join newline ([join "," headers] ++ map csv_line rows).

(** ** The loops of [run] (lines 173-216)

    The loops are stepped over the list of identifiers [mcList]; reading
    the list (lines 165-171) is [parse_list] and [run] below. The
    pipelines of a wave are computations of their own, each with its own
    clock and trace. When the timer of one of them ends the process, the
    wave is logged with the trace that every pipeline of the wave has at
    its own end, the others' requests past that instant included, and the
    run stops with exit code 1. *)

Record world : Type := {
  (** the replies to the pipeline of the identifier at a position *)
  w_net : nat -> nat -> string -> reply;
  w_URL_href : string -> string -> option string;
  (** [new Date().toISOString()] at the end of the batch starting at an index *)
  w_toISOString : nat -> string;
  (** [Date.now()] at line 212, in decimal *)
  w_Date_now : string;
  (** [path.resolve('output')] *)
  w_OUTPUT_DIR : string
}.

(** What [run] does that can be seen: a wave dispatched from position [i]
    with the traces of its pipelines, a call [sleep(ms)] (line 27, which
    lasts [timer_ms ms]), and a call [fs.writeFileSync(path, content)]. *)
Inductive run_event : Type :=
| RWave (i : nat) (traces : list (list event))
| RSleep (ms : N)
| RWrite (path content : string).

(** Where the control of [run] stands: at the head of the [for] loop, at
    the head of the [while] loop, after the [for] loop, or out of the
    process with an exit code. *)
Inductive pc_t : Type :=
| AtBatch (start : nat)
| AtWave (start end_ i : nat)
| AtEnd
| Exited (exit_code : nat).

Record rstate : Type := {
  pc : pc_t;
  rows : list row;
  validUrls : list string;
  log : list run_event
}.

Definition rstate0 : rstate :=
  {| pc := AtBatch 0; rows := []; validUrls := []; log := [] |}.

(** The body of the loop of lines 185-190 for one result. *)
Definition merge (acc : list row * list string) (r : outcome)
  : list row * list string :=
  if valid r then
    let urls := match o_url r with
                | Some u => if truthy u then snd acc ++ [u] else snd acc
                | None => snd acc
                end in
    let rws := match o_row r with
               | Some x => fst acc ++ [x]
               | None => fst acc
               end in
    (rws, urls)
  else acc.

(** [Promise.all]: the results in dispatch order when every pipeline
    returned. *)
Fixpoint all_results (rs : list (res outcome * tstate)) : option (list outcome) :=
  match rs with
  | [] => Some []
  | (Val o, _) :: rs' =>
      match all_results rs' with
      | Some os => Some (o :: os)
      | None => None
      end
  | _ :: _ => None
  end.

Section Run.

Variable w : world.
Variable cfg : config.
Variable mcList : list string.

(** The pipeline of the identifier at position [j]. *)
Definition pipeline (j : nat) (mc : string) : res outcome * tstate :=
  handleMC (w_net w j) (w_URL_href w) (MODE cfg) mc tstate0.

(** [slice.map(handleMC)] for a slice that starts at position [j]. *)
Fixpoint dispatch (j : nat) (slice : list string) : list (res outcome * tstate) :=
  match slice with
  | [] => []
  | mc :: slice' => pipeline j mc :: dispatch (S j) slice'
  end.

(** [mcList.slice(i, e)] *)
Definition slice_ (i e : nat) : list string := firstn (e - i) (skipn i mcList).

Definition outCsv (start : nat) : string :=
  let ts := replace_all (Cls (one_of ":.")) "-" (w_toISOString w start) in
  w_OUTPUT_DIR w +++ "/" +++ "fmcsa_batch_" +++ ts +++ ".csv".

Definition listPath : string :=
  w_OUTPUT_DIR w +++ "/" +++ "fmcsa_remaining_urls_" +++ w_Date_now w +++ ".txt".

Definition set_pc (p : pc_t) (st : rstate) (evs : list run_event) : rstate :=
  {| pc := p; rows := rows st; validUrls := validUrls st; log := log st ++ evs |}.

(** One step of [run]. *)
Definition step (st : rstate) : rstate :=
  match pc st with
  | AtBatch start =>
      if start <? List.length mcList then
        set_pc (AtWave start (Nat.min (List.length mcList) (start + BATCH_SIZE cfg)) start)
               st []
      else set_pc AtEnd st []
  | AtWave start end_ i =>
      if i <? end_ then
        (* lines 182-192: one wave *)
        let slice := slice_ i (Nat.min end_ (i + CONCURRENCY cfg)) in
        let promises := dispatch i slice in
        let wave := RWave i (map (fun p => trace (snd p)) promises) in
        match all_results promises with
        | Some results =>
            let acc := fold_left merge results (rows st, validUrls st) in
            {| pc := AtWave start end_ (i + List.length slice);
               rows := fst acc; validUrls := snd acc;
               log := log st ++ [wave; RSleep (N.max 50 (DELAY cfg))] |}
        | None => set_pc (Exited 1) st [wave]
        end
      else
        (* lines 195-208: the checkpoint *)
        let wait :=
          if (0 <? WAIT_SECONDS cfg)%N && (end_ <? List.length mcList)
          then [RSleep (WAIT_SECONDS cfg * 1000)%N] else [] in
        set_pc (AtBatch (start + BATCH_SIZE cfg)) st
               (RWrite (outCsv start) (to_csv (rows st)) :: wait)
  | AtEnd =>
      (* lines 211-215 *)
      match MODE cfg with
      | Urls => set_pc (Exited 0) st [RWrite listPath (join newline (validUrls st))]
      | Both => set_pc (Exited 0) st []
      end
  | Exited _ => st
  end.

Definition run_for (n : nat) : rstate := Nat.iter n step rstate0.

End Run.

(** * Notions of the specification *)

(** ** Reading a delimited file back

    The reader of a consumer of the checkpoint files, after RFC 4180: a
    field that opens with a quote runs to the next quote that is not
    doubled, and a doubled quote inside stands for one quote; a field that
    does not open with a quote runs to the next comma or line end. *)

Module Csv.

(** The rest of a quoted field, after its opening quote: the value and
    the text after the closing quote. *)
Fixpoint read_quoted (s : string) : option (string * string) :=
  match s with
  | EmptyString => None
  | String c s' =>
      if Ascii.eqb c dquote then
        match s' with
        | String c2 s'' =>
            if Ascii.eqb c2 dquote then
              match read_quoted s'' with
              | Some (v, rest) => Some (String dquote v, rest)
              | None => None
              end
            else Some (EmptyString, s')
        | EmptyString => Some (EmptyString, EmptyString)
        end
      else
        match read_quoted s' with
        | Some (v, rest) => Some (String c v, rest)
        | None => None
        end
  end.

Definition is_delim (c : ascii) : bool :=
  Ascii.eqb c "," || Ascii.eqb c (ascii_of_nat 10) || Ascii.eqb c (ascii_of_nat 13).

Fixpoint read_bare (s : string) : string * string :=
  match s with
  | EmptyString => (EmptyString, EmptyString)
  | String c s' =>
      if is_delim c then (EmptyString, s)
      else let '(v, rest) := read_bare s' in (String c v, rest)
  end.

(** One field at the head of the text. *)
Definition read_field (s : string) : option (string * string) :=
  match s with
  | String c s' => if Ascii.eqb c dquote then read_quoted s' else Some (read_bare s)
  | EmptyString => Some (EmptyString, EmptyString)
  end.

(** One record: fields separated by commas, up to the line end. *)
Fixpoint read_record (fuel : nat) (s : string) : option (list string * string) :=
  match fuel with
  | 0 => None
  | S fuel' =>
      match read_field s with
      | Some (v, String c rest) =>
          if Ascii.eqb c "," then
            match read_record fuel' rest with
            | Some (vs, rest') => Some (v :: vs, rest')
            | None => None
            end
          else if Ascii.eqb c (ascii_of_nat 10) then Some ([v], rest)
          else None
      | Some (v, EmptyString) => Some ([v], EmptyString)
      | None => None
      end
  end.

End Csv.

(** Every quote character written twice. *)
Fixpoint double_quotes (v : string) : string :=
  match v with
  | EmptyString => EmptyString
  | String c v' =>
      if Ascii.eqb c dquote then String dquote (String dquote (double_quotes v'))
      else String c (double_quotes v')
  end.

Fixpoint subst_char (p : ascii -> bool) (by_ s : string) : string :=
  match s with
  | EmptyString => EmptyString
  | String c s' =>
      if p c then by_ +++ subst_char p by_ s' else String c (subst_char p by_ s')
  end.

Definition starts_with_quote (s : string) : bool :=
  match s with String c _ => Ascii.eqb c dquote | EmptyString => false end.

(** ** Text compared without regard to the case of letters *)

(** ASCII case folding of a string. *)
Fixpoint fold_string (s : string) : string :=
  match s with
  | EmptyString => EmptyString
  | String c s' => String (fold_char c) (fold_string s')
  end.

(** [marker] occurs in [text] when the case of ASCII letters is ignored. *)
Definition occurs_ci (marker text : string) : Prop :=
  exists pre mid post,
    text = pre +++ mid +++ post /\ fold_string mid = fold_string marker.

Fixpoint startsWith_ci (marker s : string) : bool :=
  match marker, s with
  | EmptyString, _ => true
  | String a marker', String b s' =>
      Ascii.eqb (fold_char a) (fold_char b) && startsWith_ci marker' s'
  | String _ _, EmptyString => false
  end.

(** The decision procedure of [occurs_ci]. *)
Fixpoint contains_ci (text marker : string) : bool :=
  startsWith_ci marker text ||
  match text with
  | EmptyString => false
  | String _ text' => contains_ci text' marker
  end.

(** A run of digits and commas read from the left as a decimal number,
    the commas skipped, starting from [acc]; [None] at any other
    character. *)
Fixpoint figure_value_from (acc : N) (fig : string) : option N :=
  match fig with
  | EmptyString => Some acc
  | String c fig' =>
      if Ascii.eqb c "," then figure_value_from acc fig'
      else if is_digit c
      then figure_value_from (10 * acc + N.of_nat (code c - 48))%N fig'
      else None
  end.

(** What line 150 reads from the text that the pattern of line 149
    captured: [Number] of the text without its commas. A text without any
    digit reads as 0, since [Number('')] is 0. *)
Definition figure_read (fig : string) : option N := figure_value_from 0 fig.

(** The text that the pattern of line 149 captures in a page. *)
Definition power_units_figure (html : string) : option string :=
  match exec powerUnitsRe html with
  | Some m => Some (group_str 1 m)
  | None => None
  end.

(** A marker written in lower-case ASCII. *)
Definition lower_ascii (marker : string) : bool :=
  forallb (fun a => (code a <? 128) && Ascii.eqb (fold_char a) a)
          (list_ascii_of_string marker).

(** ** The retry policy in the words of the specification *)

(** What one attempt obtains from a reply: the text of a 2xx response
    that arrives within [timeout], or the error the loop catches. *)
Definition attempt (r : reply) (timeout : N) (label : string) : string + error :=
  match r with
  | NoResponse d msg =>
      if (d <? timer_ms timeout)%N then inr (NetworkError msg) else inr AbortError
  | Response d st _ b =>
      if (d <? timer_ms timeout)%N then
        if (200 <=? st) && (st <=? 299) then
          match b with Some t => inl t | None => inr BodyError end
        else inr (HttpError label st)
      else inr AbortError
  end.

Definition res_of_attempt (a : string + error) : res string :=
  match a with inl t => Val t | inr e => Exn e end.


Fixpoint total_sleep (evs : list event) : N :=
  match evs with
  | [] => 0
  | EvSleep ms :: evs' => (ms + total_sleep evs')%N
  | EvFetch _ :: evs' => total_sleep evs'
  end.

Fixpoint count_fetches (evs : list event) : nat :=
  match evs with
  | [] => 0
  | EvFetch _ :: evs' => S (count_fetches evs')
  | EvSleep _ :: evs' => count_fetches evs'
  end.

(** Every request of the trace goes to [url_]. *)
Definition fetches_only (url_ : string) (evs : list event) : Prop :=
  Forall (fun e => match e with EvFetch u => u = url_ | EvSleep _ => True end) evs.

(** [sum (f i for i in 0..k-1)] *)
Fixpoint sum_upto (f : nat -> N) (k : nat) : N :=
  match k with
  | 0 => 0
  | S k' => (sum_upto f k' + f k')%N
  end.

(** ** Sample networks and pages *)

Definition sample_page : string :=
  "<b>Power Units:</b> 12 MC-000002 (555) 123-4567".

Definition dead_page : string := "<h1>Record Not Found</h1>".


(** Every request is refused. *)
Definition down_net (_ : nat) (_ : string) : reply := NoResponse 40 "ECONNRESET".

(** The lookup page once, then nothing but refusals. *)
Definition once_net (n : nat) (_ : string) : reply :=
  match n with
  | 0 => Response 90 200 15 (Some sample_page)
  | _ => NoResponse 40 "ECONNRESET"
  end.

(** A platform URL parser that accepts every reference as it stands. *)
Definition plain_URL (href _ : string) : option string := Some href.

(** ** States around the extraction timer *)

(** The state after line 81 has armed the timer. *)
Definition arm (st : tstate) : tstate :=
  {| fetches := fetches st; clock := clock st;
     timer := Some (clock st + EXTRACT_TIMEOUT_MS)%N; trace := trace st |}.

(** The state after line 136 has cleared it. *)
Definition disarm (st : tstate) : tstate :=
  {| fetches := fetches st; clock := clock st; timer := None;
     trace := trace st |}.

(** The record of line 135 from the page and the result of the deep hops. *)
Definition row_of (url_ html : string) (ep : string * string) : row :=
  {| email := or_else (fst ep) "";
     mcNumber := or_else (extractMcNumber html) "";
     phone := or_else (snd ep) "";
     url := url_ |}.

(** A valid outcome that carries a record. *)
Definition with_row (url_ : string) (r : row) : outcome :=
  {| valid := true; o_url := Some url_; o_row := Some r |}.

(** A page with a link to the SMS site. *)
Definition linked_page : string :=
  "Power Units: 3 MC-123456 <a href='https://ai.fmcsa.dot.gov/SMS/safer_xfr.aspx?DOT=1'>SMS</a>".

(** The lookup page twice, then refusals: hop 2 never answers. *)
Definition no_sms_net (n : nat) (_ : string) : reply :=
  match n with
  | 0 | 1 => Response 90 200 15 (Some linked_page)
  | _ => NoResponse 40 "ECONNRESET"
  end.

(** A lookup page that changes between the two requests. *)
Definition changing_net (n : nat) (_ : string) : reply :=
  match n with
  | 0 => Response 90 200 15 (Some "Power Units: 4 MC-111111 (555) 111-1111")
  | _ => Response 90 200 15 (Some "Power Units: 0 MC-222222 (555) 222-2222")
  end.

(** ** The run in the words of the specification *)

(** The records and the URLs that a list of outcomes adds to the
    accumulator, in order. *)
Definition records_of (outs : list outcome) : list row :=
  flat_map (fun o => if valid o
                     then match o_row o with Some r => [r] | None => [] end
                     else []) outs.

Definition urls_of (outs : list outcome) : list string :=
  flat_map (fun o => if valid o
                     then match o_url o with
                          | Some u => if truthy u then [u] else []
                          | None => []
                          end
                     else []) outs.

(** A value between quotes, every quote inside written twice. *)
Definition quoted (v : string) : string :=
  String dquote (double_quotes v +++ String dquote "").

(** The delimited text of a list of records: a header line, then one line
    per record with the columns email, registry number, phone, source URL,
    every value quoted. *)
Definition csv_text (rs : list row) : string :=
  join newline
    ("email,mcNumber,phone,url" ::
     map (fun r => join "," (map quoted [email r; mcNumber r; phone r; url r])) rs).

Section RunSpec.

Variable w : world.
Variable cfg : config.
Variable mcList : list string.

(** The outcomes of the pipelines of the first [i] identifiers, when all
    of them returned. *)
Definition outcomes_upto (i : nat) : option (list outcome) :=
  all_results (dispatch w cfg 0 (firstn i mcList)).

(** The identifier at position [j] is valid: its lookup page was
    obtained and passed the validity check. *)
Definition valid_lookup (j : nat) (mc : string) : bool :=
  match fetchRetry (w_net w j) (mcToSnapshotUrl mc) MAX_RETRIES FETCH_TIMEOUT_MS
          "snapshot" tstate0 with
  | (Val html, _) =>
      match validity html with Valid => true | _ => false end
  | _ => false
  end.

(** The lookup URLs of the valid identifiers from position [j] on. *)
Fixpoint valid_urls_from (j : nat) (l : list string) : list string :=
  match l with
  | [] => []
  | mc :: l' =>
      (if valid_lookup j mc then [mcToSnapshotUrl mc] else [])
      ++ valid_urls_from (S j) l'
  end.

(** What links a state of [run] to the identifiers processed so far. *)
Definition inv (st : rstate) : Prop :=
  exists i outs,
    i <= List.length mcList /\
    outcomes_upto i = Some outs /\
    rows st = records_of outs /\
    validUrls st = urls_of outs /\
    match pc st with
    | AtBatch s => i = Nat.min s (List.length mcList)
    | AtWave s e j =>
        j = i /\ s <= i /\ i <= e /\
        e = Nat.min (List.length mcList) (s + BATCH_SIZE cfg) /\
        s < List.length mcList
    | AtEnd => i = List.length mcList
    | Exited 0 => i = List.length mcList
    | Exited _ => True
    end.

(** An event of URL-only mode before the end of the run: a wave, a wait,
    or a checkpoint that holds the header line only. *)
Definition plain_event (ev : run_event) : Prop :=
  match ev with
  | RWave _ _ => True
  | RSleep _ => True
  | RWrite p c => (exists start, p = outCsv w start) /\ c = "email,mcNumber,phone,url"
  end.

Definition log_inv (st : rstate) : Prop :=
  rows st = [] /\
  match pc st with
  | Exited 0 =>
      exists pre,
        log st = pre ++ [RWrite (listPath w) (join newline (validUrls st))] /\
        Forall plain_event pre
  | Exited _ => True
  | _ => Forall plain_event (log st)
  end.

(** A bound on the steps left. *)
Definition steps_left (p : pc_t) : nat :=
  match p with
  | Exited _ => 0
  | AtEnd => 1
  | AtBatch s => 2 + 3 * (List.length mcList - s)
  | AtWave s e i =>
      3 + 3 * (List.length mcList - (s + BATCH_SIZE cfg)) + (e - i)
  end.

End RunSpec.

(** A list extends another one at its end. *)
Definition extends {A} (l l' : list A) : Prop := exists t, l' = l ++ t.

(** ** Sample worlds *)

Definition sample_world (net : nat -> string -> reply) : world :=
  {| w_net := fun _ => net;
     w_URL_href := plain_URL;
     w_toISOString := fun _ => "2024-01-02T03:04:05.678Z";
     w_Date_now := "1704164645678";
     w_OUTPUT_DIR := "/work/output" |}.

Definition quick_config : config :=
  {| CONCURRENCY := 6; DELAY := 10; BATCH_SIZE := 500; WAIT_SECONDS := 0;
     MODE := Both |}.

Definition urls_config : config :=
  {| CONCURRENCY := 2; DELAY := 300; BATCH_SIZE := 2; WAIT_SECONDS := 0;
     MODE := Urls |}.

(** Every request gets the sample page. *)
Definition steady_net (_ : nat) (_ : string) : reply :=
  Response 90 200 15 (Some sample_page).

(** Every request gets the page of a dead record. *)
Definition dead_net (_ : nat) (_ : string) : reply :=
  Response 90 200 15 (Some dead_page).

(** The first identifier is dead, the others get the sample page. *)
Definition mixed_world : world :=
  {| w_net := fun j => match j with 0 => dead_net | _ => steady_net end;
     w_URL_href := plain_URL;
     w_toISOString := fun _ => "2024-01-02T03:04:05.678Z";
     w_Date_now := "1704164645678";
     w_OUTPUT_DIR := "/work/output" |}.

(** ** What a pattern matches

    The strings of a pattern, captures left aside. *)

Inductive matches : regex -> string -> Prop :=
| M_eps : matches Eps ""
| M_cls (p : ascii -> bool) (c : ascii) :
    p c = true -> matches (Cls p) (String c "")
| M_cat (r1 r2 : regex) (s1 s2 : string) :
    matches r1 s1 -> matches r2 s2 -> matches (Cat r1 r2) (s1 +++ s2)
| M_alt_l (r1 r2 : regex) (s : string) :
    matches r1 s -> matches (Alt r1 r2) s
| M_alt_r (r1 r2 : regex) (s : string) :
    matches r2 s -> matches (Alt r1 r2) s
| M_grp (n : nat) (r : regex) (s : string) :
    matches r s -> matches (Grp n r) s
| M_rep_stop (g : bool) (lo : nat) (r : regex) :
    matches (Rep g lo (Some 0) r) ""
| M_rep_zero (g : bool) (hi : option nat) (r : regex) :
    matches (Rep g 0 hi r) ""
| M_rep_more (g : bool) (lo : nat) (hi : option nat) (r : regex)
    (s1 s2 : string) :
    hi <> Some 0 ->
    matches r s1 ->
    matches (Rep g (pred lo) (option_map pred hi) r) s2 ->
    matches (Rep g lo hi r) (s1 +++ s2).

(** A matcher finds only strings of its pattern, and hands the rest of
    the subject to its continuation. *)
Definition sound (m : string -> caps -> cont -> answer) (r : regex) : Prop :=
  forall s c k x,
    m s c k = Some x ->
    exists pre s' c', s = pre +++ s' /\ matches r pre /\ k s' c' = Some x.

Fixpoint all_chars (p : ascii -> bool) (s : string) : bool :=
  match s with
  | EmptyString => true
  | String c s' => p c && all_chars p s'
  end.

(** A whole delimited text: its records, line by line. *)
Fixpoint read_file (fuel : nat) (s : string) : option (list (list string)) :=
  match fuel with
  | 0 => None
  | S fuel' =>
      match Csv.read_record (S (String.length s)) s with
      | Some (fields, EmptyString) => Some [fields]
      | Some (fields, rest) =>
          match read_file fuel' rest with
          | Some l => Some (fields :: l)
          | None => None
          end
      | None => None
      end
  end.

(** The values of a record in column order. *)
Definition fields_of (r : row) : list string :=
  [email r; mcNumber r; phone r; url r].

(** The lookup page twice, then an SMS site that takes three seconds to
    refuse each request. *)
Definition slow_sms_net (n : nat) (_ : string) : reply :=
  match n with
  | 0 | 1 => Response 90 200 15 (Some linked_page)
  | _ => NoResponse 3000 "ETIMEDOUT"
  end.

(** ** Runs of characters *)

Fixpoint drop_while (p : ascii -> bool) (s : string) : string :=
  match s with
  | String c s' => if p c then drop_while p s' else s
  | EmptyString => EmptyString
  end.

(** Every maximal run of characters of [p] replaced by [by_]; [in_run]
    tells that the character before belonged to a run. *)
Fixpoint collapse (in_run : bool) (p : ascii -> bool) (by_ s : string) : string :=
  match s with
  | EmptyString => EmptyString
  | String c s' =>
      if p c then
        if in_run then collapse true p by_ s' else by_ +++ collapse true p by_ s'
      else String c (collapse false p by_ s')
  end.

(** The characters of [p] removed. *)
Fixpoint remove_chars (p : ascii -> bool) (s : string) : string :=
  match s with
  | EmptyString => EmptyString
  | String c s' => if p c then remove_chars p s' else String c (remove_chars p s')
  end.

Definition starts_with_space (s : string) : bool :=
  match s with String c _ => is_space c | EmptyString => false end.

(** White space occurs only as single blanks between other characters. *)
Fixpoint single_spaced (s : string) : bool :=
  match s with
  | EmptyString => true
  | String c s' =>
      (if is_space c
       then Ascii.eqb c " " &&
            match s' with
            | String d _ => negb (is_space d)
            | EmptyString => false
            end
       else true)
      && single_spaced s'
  end.

(** ** Reading an escaped component back *)

Definition hex_val (c : ascii) : option nat :=
  if is_digit c then Some (code c - 48)
  else if in_range 65 70 c then Some (code c - 55)
  else None.

(** An escaped byte at the head of the text. *)
Definition read_pct (s : string) : option (nat * string) :=
  match s with
  | String p (String h (String l rest)) =>
      if Ascii.eqb p "%" then
        match hex_val h, hex_val l with
        | Some a, Some b => Some (16 * a + b, rest)
        | _, _ => None
        end
      else None
  | _ => None
  end.

(** The first character of an escaped component: itself, or the one- or
    two-byte UTF-8 form behind its escapes. *)
Definition decode_head (s : string) : option (ascii * string) :=
  match s with
  | EmptyString => None
  | String c rest =>
      if Ascii.eqb c "%" then
        match read_pct s with
        | Some (b, rest1) =>
            if b <? 128 then Some (ascii_of_nat b, rest1)
            else
              match read_pct rest1 with
              | Some (b2, rest2) =>
                  Some (ascii_of_nat ((b - 192) * 64 + (b2 - 128)), rest2)
              | None => None
              end
        | None => None
        end
      else Some (c, rest)
  end.

(** The characters an escaped component is made of. *)
Definition url_safe (c : ascii) : bool := uri_unreserved c || Ascii.eqb c "%".

(** Every white-space character is a blank that no white space follows. *)
Fixpoint spaced (s : string) : bool :=
  match s with
  | EmptyString => true
  | String c s' =>
      (if is_space c then Ascii.eqb c " " && negb (starts_with_space s') else true)
      && spaced s'
  end.

(** ** Shapes of extracted fields *)

(** The pattern is a sequence whose last item is group [n] over [e]. *)
Fixpoint ends_with_group (n : nat) (e : regex) (r : regex) : Prop :=
  match r with
  | Grp m e' => m = n /\ e' = e
  | Cat _ r' => ends_with_group n e r'
  | _ => False
  end.

Fixpoint count_chars (p : ascii -> bool) (s : string) : nat :=
  match s with
  | EmptyString => 0
  | String c s' => (if p c then 1 else 0) + count_chars p s'
  end.

(** The characters a phone number is written with. *)
Definition phone_char (c : ascii) : bool :=
  is_digit c || is_space c || one_of "()-." c.

(** A figure written with zeros and commas only. *)
Definition zero_or_comma (c : ascii) : bool := Ascii.eqb c "0" || Ascii.eqb c ",".

(** The record built from the lookup page alone. *)
Definition coarse_row (url_ html : string) : row :=
  {| email := ""; mcNumber := extractMcNumber html;
     phone := extractPhoneAnywhere html; url := url_ |}.

(** A registration page with a contact block. *)
Definition reg_page : string :=
  "<span class='dat'>OWNER@EXAMPLE.COM</span><span class='dat'>(555) 987-6543</span>".

Definition sms_page : string :=
  "<a href='https://ai.fmcsa.dot.gov/SMS/Carrier/1/CarrierRegistration.aspx'>Registration</a>".

(** The lookup page twice, then the SMS page, then the registration page. *)
Definition full_net (n : nat) (_ : string) : reply :=
  match n with
  | 0 | 1 => Response 90 200 15 (Some linked_page)
  | 2 => Response 90 200 15 (Some sms_page)
  | _ => Response 90 200 15 (Some reg_page)
  end.

(** ** The schedule of a run *)


(** The paths of the files a log wrote, in order. *)
Fixpoint written (evs : list run_event) : list string :=
  match evs with
  | [] => []
  | RWrite p _ :: evs' => p :: written evs'
  | _ :: evs' => written evs'
  end.


Section Schedule.

Variable w : world.
Variable cfg : config.
Variable mcList : list string.


(** The checkpoint of batch number [j]. *)
Definition checkpoint_path (j : nat) : string := outCsv w (j * BATCH_SIZE cfg).

Definition ckpt_inv (st : rstate) : Prop :=
  match pc st with
  | AtBatch s =>
      exists k, s = k * BATCH_SIZE cfg /\
                (k = 0 \/ (k - 1) * BATCH_SIZE cfg < List.length mcList) /\
                written (log st) = map checkpoint_path (List.seq 0 k)
  | AtWave s _ _ =>
      exists k, s = k * BATCH_SIZE cfg /\ s < List.length mcList /\
                written (log st) = map checkpoint_path (List.seq 0 k)
  | AtEnd =>
      exists k, List.length mcList <= k * BATCH_SIZE cfg /\
                (k = 0 \/ (k - 1) * BATCH_SIZE cfg < List.length mcList) /\
                written (log st) = map checkpoint_path (List.seq 0 k)
  | Exited 0 =>
      exists k, List.length mcList <= k * BATCH_SIZE cfg /\
                (k = 0 \/ (k - 1) * BATCH_SIZE cfg < List.length mcList) /\
                written (log st) =
                  map checkpoint_path (List.seq 0 k)
                  ++ match MODE cfg with Urls => [listPath w] | Both => [] end
  | Exited _ => True
  end.

(** An exit code other than 0 is 1, after the timer of some pipeline
    ended the process. *)
Definition exit_inv (st : rstate) : Prop :=
  forall code,
    pc st = Exited code ->
    code = 0 \/
    (code = 1 /\
     exists j mc st',
       nth_error mcList j = Some mc /\ pipeline w cfg j mc = (Fatal, st')).

End Schedule.

(** The states of the pipeline of ["123456"] on a network, after its
    first lookup, after the second one, after the pause and after the
    requests of the SMS page, after the second pause and after the requests
    of the registration page. *)
Definition sample_states (net : nat -> string -> reply)
  : tstate * tstate * tstate * tstate * tstate * tstate :=
  let u := mcToSnapshotUrl "123456" in
  let st1 := snd (fetchRetry net u MAX_RETRIES FETCH_TIMEOUT_MS "snapshot" tstate0) in
  let st2 := snd (fetchRetry net u MAX_RETRIES FETCH_TIMEOUT_MS "snapshot" (arm st1)) in
  let st3 := snd (sleep 300 st2) in
  let sms := find_smsLink plain_URL u linked_page in
  let st4 := snd (fetchRetry net sms MAX_RETRIES FETCH_TIMEOUT_MS "sms" st3) in
  let st5 := snd (sleep 300 st4) in
  let st6 := snd (fetchRetry net (find_regLink plain_URL sms sms_page) MAX_RETRIES
                    FETCH_TIMEOUT_MS "registration" st5) in
  (st1, st2, st3, st4, st5, st6).

(** ** Reading the list of identifiers (lines 169-170) *)

Definition LF : ascii := ascii_of_nat 10.
Definition CR : ascii := ascii_of_nat 13.

(** [/\r?\n/] *)
Definition lineSep : regex := Cat (opt (chr CR)) (chr LF).

(** [s.split(r)] for a pattern without groups that never matches the
    empty string: the pieces between successive matches. *)
Fixpoint split_loop (fuel : nat) (r : regex) (s : string) : list string :=
  match fuel with
  | 0 => [s]
  | S fuel' =>
      match exec r s with
      | None => [s]
      | Some m => substring 0 (m_index m) s :: split_loop fuel' r (m_rest m)
      end
  end.

Definition split (r : regex) (s : string) : list string :=
  split_loop (S (String.length s)) r s.

(** [raw.split(/\r?\n/).map(s => s.trim()).filter(Boolean)] *)
Definition parse_list (raw : string) : list string :=
  filter truthy (map trim (split lineSep raw)).

(** Neither a line feed nor a carriage return. *)
Definition not_eol (c : ascii) : bool :=
  negb (Ascii.eqb c LF) && negb (Ascii.eqb c CR).


(** A platform URL parser that rejects the empty reference and accepts
    every other one as it stands. *)
Definition strict_URL (href _ : string) : option string :=
  if truthy href then Some href else None.


(** ** The extraction timer (lines 81, 136) *)







(** ** The time a call takes *)

(** The time one attempt of [fetchRetry] takes: up to the response head,
    the error or the abort, and for a 2xx response the reading of the
    body. *)
Definition attempt_ms (r : reply) (timeout : N) : N :=
  match r with
  | NoResponse d _ => if (d <? timer_ms timeout)%N then d else timer_ms timeout
  | Response d st bd _ =>
      if (d <? timer_ms timeout)%N then
        if (200 <=? st) && (st <=? 299) then (d + bd)%N else d
      else timer_ms timeout
  end.



(** URL-only mode with a concurrency of zero. *)
Definition stalled_config : config :=
  {| CONCURRENCY := 0; DELAY := 300; BATCH_SIZE := 500; WAIT_SECONDS := 0;
     MODE := Urls |}.


(** The characters of the phone pattern of lines 125 and 128: no dot. *)
Definition dashed_phone_char (c : ascii) : bool :=
  is_digit c || is_space c || one_of "()-" c.


(** ** The whole of [run] (lines 164-216) and its caller (lines 218-221)

    [input] is the text of [mc_list.txt], [None] when the file does not
    exist: lines 165-168 then end the process with code 1 before anything
    else is done. Reading a file that exists and every call of
    [fs.writeFileSync] are taken to succeed; a call that throws would end
    the process with code 1 through lines 218-221, which is left out. *)
Definition run (w : world) (cfg : config) (input : option string) (n : nat)
  : rstate :=
  match input with
  | None => {| pc := Exited 1; rows := []; validUrls := []; log := [] |}
  | Some raw => run_for w cfg (parse_list raw) n
  end.

(** The identifiers that [run] reads from its input. *)
Definition identifiers (input : option string) : list string :=
  match input with
  | None => []
  | Some raw => parse_list raw
  end.


(** ** The validity rule in the words of the specification *)

Fixpoint has_digit (s : string) : bool :=
  match s with
  | EmptyString => false
  | String c s' => is_digit c || has_digit s'
  end.

(** The numeric value of a figure, thousands separators ignored; [None]
    when the figure does not parse as a number: it holds no digit, or a
    character that is neither a digit nor a comma. *)
Definition figure_value (fig : string) : option N :=
  if has_digit fig then figure_value_from 0 fig else None.

(** The text after [marker] when [s] begins with it, the case of ASCII
    letters ignored. *)
Fixpoint after_ci (marker s : string) : option string :=
  match marker, s with
  | EmptyString, _ => Some s
  | String a marker', String b s' =>
      if Ascii.eqb (fold_char a) (fold_char b) then after_ci marker' s' else None
  | String _ _, EmptyString => None
  end.

(** The text after the words "Power Units" (in any case, with or without
    white space between them) when [s] begins with them. *)
Definition after_power_units (s : string) : option string :=
  match after_ci "Power" s with
  | Some s1 => after_ci "Units" (drop_while is_space s1)
  | None => None
  end.

Fixpoint take_while (p : ascii -> bool) (s : string) : string :=
  match s with
  | String c s' => if p c then String c (take_while p s') else EmptyString
  | EmptyString => EmptyString
  end.

Definition digit_or_comma (c : ascii) : bool := is_digit c || Ascii.eqb c ",".

(** The figure of the words "Power Units" standing at the head of [s]:
    the run of digits and commas that begins at the first digit after
    them. *)
Definition figure_at (s : string) : option string :=
  match after_power_units s with
  | Some rest =>
      match drop_while (fun c => negb (is_digit c)) rest with
      | EmptyString => None
      | r => Some (take_while digit_or_comma r)
      end
  | None => None
  end.

(** The "Power Units" figure of a page: the figure at the first place
    where the words are followed by one. *)
Fixpoint locate_figure (s : string) : option string :=
  match figure_at s with
  | Some fig => Some fig
  | None =>
      match s with
      | EmptyString => None
      | String _ s' => locate_figure s'
      end
  end.

(** The rule of the validity gate, in order: (a) a marker makes the page
    invalid; (b) else a located figure whose value is zero makes it
    invalid; (c) otherwise it is valid. *)
Definition verdict_rule (html : string) : verdict :=
  if contains_ci html "record not found" || contains_ci html "record inactive"
  then InvalidMarker
  else
    match locate_figure html with
    | Some fig =>
        match figure_value fig with
        | Some 0%N => InvalidPU
        | _ => Valid
        end
    | None => Valid
    end.

(** ** What the pattern of line 149 captures, without the matcher *)

(** A greedy [c*] in front of the continuation [k]: the longest run
    first, then one character less at a time. *)
Fixpoint star_try (p : ascii -> bool) (k : cont) (s : string) (c : caps) : answer :=
  match s with
  | String a s' =>
      if p a then
        match star_try p k s' c with
        | Some x => Some x
        | None => k s c
        end
      else k s c
  | EmptyString => k s c
  end.

(** What [[^0-9]*([0-9,]+)] captures at the head of [s]: the run of digits
    and commas at the first digit, or, when no digit follows, the run at
    the last comma. *)
Fixpoint captured_after (s : string) : option string :=
  match s with
  | EmptyString => None
  | String a s' =>
      if is_digit a then Some (take_while digit_or_comma s)
      else
        match captured_after s' with
        | Some fig => Some fig
        | None =>
            if Ascii.eqb a "," then Some (take_while digit_or_comma s) else None
        end
  end.

Definition captured_at (s : string) : option string :=
  match after_power_units s with
  | Some rest => captured_after rest
  | None => None
  end.

(** The leftmost place where the pattern matches. *)
Fixpoint captured (s : string) : option string :=
  match captured_at s with
  | Some fig => Some fig
  | None =>
      match s with
      | EmptyString => None
      | String _ s' => captured s'
      end
  end.

(** * Proofs *)

(** ** Strings *)

Lemma append_nil_r (s : string) : s +++ "" = s.
Proof. induction s as [|c s IH]; simpl; [reflexivity | now rewrite IH]. Qed.

Lemma append_assoc (a b c : string) : (a +++ b) +++ c = a +++ b +++ c.
Proof. induction a as [|x a IH]; simpl; [reflexivity | now rewrite IH]. Qed.

Lemma length_append (a b : string) :
  String.length (a +++ b) = String.length a + String.length b.
Proof. induction a as [|x a IH]; simpl; [reflexivity | now rewrite IH]. Qed.

Lemma substring_0_0 (s : string) : substring 0 0 s = "".
Proof. destruct s; reflexivity. Qed.

(** ** Replacing single characters

    [s.replace(/c/g, by)] for a one-character pattern rewrites the string
    character by character. *)

Lemma exec_at_cls (p : ascii -> bool) (s : string) (idx : nat) :
  exec_at (Cls p) s idx =
  match s with
  | EmptyString => None
  | String c s' =>
      if p c
      then Some {| m_index := idx; m_text := String c ""; m_caps := [];
                   m_rest := s' |}
      else exec_at (Cls p) s' (S idx)
  end.
Proof.
  destruct s as [|c s']; simpl; [reflexivity|].
  destruct (p c); [|reflexivity].
  unfold consumed. simpl String.length.
  replace (S (String.length s') - String.length s') with 1 by lia.
  simpl. now rewrite substring_0_0.
Qed.

Lemma exec_at_cls_found (p : ascii -> bool) (s : string) :
  forall idx m,
    exec_at (Cls p) s idx = Some m ->
    exists c,
      m_text m = String c "" /\
      String.length (m_rest m) < String.length s /\
      idx <= m_index m /\
      forall by_,
        subst_char p by_ s =
        substring 0 (m_index m - idx) s +++ by_ +++ subst_char p by_ (m_rest m).
Proof.
  induction s as [|c s IH]; intros idx m H; rewrite exec_at_cls in H.
  - discriminate.
  - destruct (p c) eqn:Hp.
    + inversion H; subst m; clear H. exists c. simpl.
      repeat split; try lia.
      intros by_. rewrite Hp. now rewrite Nat.sub_diag.
    + destruct (IH _ _ H) as (c' & Ht & Hl & Hi & Hs).
      exists c'. repeat split; simpl; try lia; [assumption|].
      intros by_. rewrite Hp, Hs.
      destruct (m_index m - idx) as [|k] eqn:Hk; [lia|].
      replace (m_index m - S idx) with k by lia. reflexivity.
Qed.

Lemma exec_at_cls_none (p : ascii -> bool) (s : string) :
  forall idx by_, exec_at (Cls p) s idx = None -> subst_char p by_ s = s.
Proof.
  induction s as [|c s IH]; intros idx by_ H; [reflexivity|].
  rewrite exec_at_cls in H. simpl.
  destruct (p c); [discriminate|]. now rewrite (IH _ _ H).
Qed.

Lemma replace_loop_cls (p : ascii -> bool) (by_ : string) :
  forall fuel s,
    String.length s < fuel ->
    replace_loop fuel (Cls p) by_ s = subst_char p by_ s.
Proof.
  induction fuel as [|fuel IH]; intros s Hlen; [lia|].
  simpl. unfold exec.
  destruct (exec_at (Cls p) s 0) as [m|] eqn:He.
  - destruct (exec_at_cls_found _ _ _ _ He) as (c & Ht & Hl & _ & Hs).
    rewrite Ht, (Hs by_), Nat.sub_0_r.
    rewrite IH by lia. reflexivity.
  - symmetry. eapply exec_at_cls_none; eassumption.
Qed.

Lemma replace_all_cls (p : ascii -> bool) (by_ s : string) :
  replace_all (Cls p) by_ s = subst_char p by_ s.
Proof. unfold replace_all. apply replace_loop_cls. lia. Qed.

(** ** C9: quoting and reading back *)

Lemma quote_field_eq (v : string) :
  quote_field v = String dquote (double_quotes v +++ String dquote "").
Proof.
  unfold quote_field, chr. rewrite replace_all_cls. do 2 f_equal.
  induction v as [|c v IH]; simpl; [reflexivity|].
  rewrite Ascii.eqb_sym.
  destruct (Ascii.eqb c dquote); simpl; now rewrite IH.
Qed.


Lemma read_quoted_doubled (v rest : string) :
  starts_with_quote rest = false ->
  Csv.read_quoted (double_quotes v +++ String dquote rest) = Some (v, rest).
Proof.
  intros Hrest. induction v as [|c v IH]; cbn [double_quotes append].
  - cbn [Csv.read_quoted]. rewrite Ascii.eqb_refl.
    destruct rest as [|c2 rest']; [reflexivity|].
    cbn [starts_with_quote] in Hrest. now rewrite Hrest.
  - destruct (Ascii.eqb c dquote) eqn:Hc; cbn [append Csv.read_quoted].
    + rewrite !Ascii.eqb_refl, IH.
      apply Ascii.eqb_eq in Hc. now subst c.
    + now rewrite Hc, IH.
Qed.

Lemma read_field_quote_field (v rest : string) :
  starts_with_quote rest = false ->
  Csv.read_field (quote_field v +++ rest) = Some (v, rest).
Proof.
  intros Hrest. rewrite quote_field_eq. cbn [append Csv.read_field].
  rewrite Ascii.eqb_refl, append_assoc. cbn [append].
  now apply read_quoted_doubled.
Qed.

Lemma quote_field_roundtrip_aux (v : string) :
  Csv.read_field (quote_field v) = Some (v, "").
Proof.
  rewrite <- (append_nil_r (quote_field v)).
  now apply read_field_quote_field.
Qed.

(** C9. For every field value [v], quotes included, the text that line
    200 writes for it, read back by the unquoting rule of a standard
    reader, is [v] again, with nothing left over; and the same holds when
    the field is followed by more text that does not start with a quote,
    such as the comma or the line feed that line 200 puts after it. *)
Theorem quote_field_roundtrip (v : string) :
  Csv.read_field (quote_field v) = Some (v, "") /\
  forall rest,
    starts_with_quote rest = false ->
    Csv.read_field (quote_field v +++ rest) = Some (v, rest).
Proof.
  split; [apply quote_field_roundtrip_aux|].
  intros rest. apply read_field_quote_field.
Qed.

(** A value with quotes inside. *)
Lemma quote_field_roundtrip_witness :
  Csv.read_field (quote_field (String dquote "a" +++ String dquote "b") +++ ",x")
  = Some (String dquote "a" +++ String dquote "b", ",x").
Proof.
  apply (proj2 (quote_field_roundtrip (String dquote "a" +++ String dquote "b"))).
  reflexivity.
Defined.

Lemma read_record_comma (fuel : nat) (v tail : string) :
  Csv.read_record (S fuel) (quote_field v +++ String "," tail) =
  match Csv.read_record fuel tail with
  | Some (vs, rest') => Some (v :: vs, rest')
  | None => None
  end.
Proof.
  cbn [Csv.read_record].
  rewrite read_field_quote_field by reflexivity. reflexivity.
Qed.

Lemma read_record_newline (fuel : nat) (v rest : string) :
  Csv.read_record (S fuel) (quote_field v +++ String (ascii_of_nat 10) rest) =
  Some ([v], rest).
Proof.
  cbn [Csv.read_record].
  rewrite read_field_quote_field by reflexivity. reflexivity.
Qed.

Lemma csv_line_eq (r : row) :
  csv_line r =
  quote_field (email r) +++ "," +++ quote_field (mcNumber r) +++ "," +++
  quote_field (phone r) +++ "," +++ quote_field (url r).
Proof.
  assert (Hor : forall s, or_else s "" = s) by (now intros [|c s]).
  unfold csv_line, headers. cbn [map join].
  unfold field. cbn [String.eqb Ascii.eqb Bool.eqb].
  now rewrite !Hor.
Qed.

(** A whole line of the checkpoint reads back as the four fields of its
    row, in the order of [headers]. *)
Lemma csv_line_roundtrip (r : row) (rest : string) :
  Csv.read_record 4 (csv_line r +++ String (ascii_of_nat 10) rest) =
  Some ([email r; mcNumber r; phone r; url r], rest).
Proof.
  rewrite csv_line_eq, !append_assoc. cbn [append].
  rewrite !read_record_comma, read_record_newline. reflexivity.
Qed.

(** ** C2: the validity rule *)

Lemma lower_or_fold (c : ascii) :
  Ascii.eqb (lower_char c) (fold_char c)
  || ((128 <=? code (lower_char c)) && (128 <=? code (fold_char c))) = true.
Proof. destruct c as [[] [] [] [] [] [] [] []]; reflexivity. Qed.

Lemma eqb_lower_fold (a c : ascii) :
  code a < 128 -> fold_char a = a ->
  Ascii.eqb a (lower_char c) = Ascii.eqb (fold_char a) (fold_char c).
Proof.
  intros Ha Hf. rewrite Hf.
  pose proof (lower_or_fold c) as H.
  apply orb_true_iff in H. destruct H as [H|H].
  - apply Ascii.eqb_eq in H. now rewrite H.
  - apply andb_true_iff in H. destruct H as [H1 H2].
    apply Nat.leb_le in H1, H2.
    assert (E1 : Ascii.eqb a (lower_char c) = false).
    { apply Ascii.eqb_neq. intros ->. lia. }
    assert (E2 : Ascii.eqb a (fold_char c) = false).
    { apply Ascii.eqb_neq. intros ->. lia. }
    now rewrite E1, E2.
Qed.

Lemma startsWith_lower (marker s : string) :
  lower_ascii marker = true ->
  startsWith marker (toLowerCase s) = startsWith_ci marker s.
Proof.
  revert s. induction marker as [|a marker IH]; intros s Hm; [reflexivity|].
  unfold lower_ascii in Hm. cbn [list_ascii_of_string forallb] in Hm.
  apply andb_true_iff in Hm. destruct Hm as [Ha Hm].
  apply andb_true_iff in Ha. destruct Ha as [Ha1 Ha2].
  apply Nat.ltb_lt in Ha1. apply Ascii.eqb_eq in Ha2.
  destruct s as [|c s]; [reflexivity|]. cbn [toLowerCase startsWith startsWith_ci].
  rewrite (eqb_lower_fold a c Ha1 Ha2). f_equal. now apply IH.
Qed.

Lemma includes_lower (marker s : string) :
  lower_ascii marker = true ->
  includes (toLowerCase s) marker = contains_ci s marker.
Proof.
  intros Hm. induction s as [|c s IH].
  - cbn [toLowerCase includes contains_ci].
    now rewrite <- (startsWith_lower marker "" Hm).
  - cbn [includes contains_ci]. rewrite <- IH.
    rewrite <- (startsWith_lower marker (String c s) Hm). reflexivity.
Qed.

Lemma digits_value_figure (g : string) :
  forall acc,
    digits_value acc (subst_char (Ascii.eqb ",") "" g) = figure_value_from acc g.
Proof.
  induction g as [|c g IH]; intros acc; [reflexivity|].
  cbn [subst_char figure_value_from]. rewrite (Ascii.eqb_sym "," c).
  destruct (Ascii.eqb c ","); cbn [append]; [apply IH|].
  cbn [digits_value]. destruct (is_digit c); [apply IH | reflexivity].
Qed.

Lemma Number_figure (g : string) :
  Number_ (replace_all (chr ",") "" g) =
  match figure_read g with Some v => Num v | None => NaN end.
Proof.
  unfold Number_, chr, figure_read.
  now rewrite replace_all_cls, digits_value_figure.
Qed.

Lemma has_marker_ci (html : string) :
  has_marker html =
  contains_ci html "record not found" || contains_ci html "record inactive".
Proof.
  unfold has_marker. now rewrite !includes_lower by reflexivity.
Qed.

Lemma puZero_figure (html : string) :
  puZero html =
  match power_units_figure html with
  | Some fig =>
      match figure_read fig with Some 0%N => true | _ => false end
  | None => false
  end.
Proof.
  unfold puZero, power_units_figure.
  destruct (exec powerUnitsRe html) as [m|]; [|reflexivity].
  rewrite Number_figure.
  destruct (figure_read (group_str 1 m)) as [[|p]|]; reflexivity.
Qed.

(** [contains_ci] decides [occurs_ci]. *)
Lemma startsWith_ci_split (marker s : string) :
  startsWith_ci marker s = true <->
  exists mid post, s = mid +++ post /\ fold_string mid = fold_string marker.
Proof.
  revert s. induction marker as [|a marker IH]; intros s.
  - split; [intros _; now exists "", s|reflexivity].
  - destruct s as [|c s]; cbn [startsWith_ci].
    + split; [discriminate|]. intros (mid & post & Hs & Hf).
      destruct mid; discriminate.
    + rewrite andb_true_iff, IH, Ascii.eqb_eq. split.
      * intros (Hc & mid & post & -> & Hf).
        exists (String c mid), post. cbn. now rewrite Hf, Hc.
      * intros (mid & post & Hs & Hf).
        destruct mid as [|c' mid]; [discriminate|].
        cbn in Hs, Hf. inversion Hs; subst. inversion Hf.
        split; [congruence|]. now exists mid, post.
Qed.

Lemma contains_ci_occurs (marker text : string) :
  contains_ci text marker = true <-> occurs_ci marker text.
Proof.
  unfold occurs_ci. induction text as [|c text IH]; cbn [contains_ci].
  - rewrite orb_false_r, startsWith_ci_split. split.
    + intros (mid & post & H1 & H2). now exists "", mid, post.
    + intros (pre & mid & post & H1 & H2).
      destruct pre; [|discriminate]. now exists mid, post.
  - rewrite orb_true_iff, startsWith_ci_split, IH. split.
    + intros [(mid & post & H1 & H2)|(pre & mid & post & H1 & H2)].
      * now exists "", mid, post.
      * exists (String c pre), mid, post. cbn. now rewrite H1.
    + intros (pre & mid & post & H1 & H2). destruct pre as [|c' pre].
      * left. now exists mid, post.
      * right. cbn in H1. inversion H1; subst. now exists pre, mid, post.
Qed.

(** An empty figure after the removal of commas counts as zero:
    [Number('')] is 0. *)
Example validity_comma_figure : validity "Power Units, none" = InvalidPU.
Proof. reflexivity. Qed.

Example validity_thousands : validity "<b>Power Units:</b> 1,234" = Valid.
Proof. reflexivity. Qed.

Example validity_zero : validity "POWER UNITS: 0,000" = InvalidPU.
Proof. reflexivity. Qed.

Example validity_marker_first :
  validity "Record Inactive. Power Units: 12" = InvalidMarker.
Proof. reflexivity. Qed.

(** ** One pipeline: basic steps *)

Lemma advance_cases (d : N) (st : tstate) :
  exists r st',
    advance d st = (r, st') /\
    fetches st' = fetches st /\ trace st' = trace st /\
    ((r = Val tt /\ timer st' = timer st) \/ (r = Fatal /\ timer st <> None)).
Proof.
  unfold advance. destruct (timer st) as [dl|] eqn:Ht.
  - destruct (dl <=? clock st + d)%N; do 2 eexists;
      (split; [reflexivity|]); repeat split;
      solve [ left; split; [reflexivity | simpl; congruence]
            | right; split; [reflexivity | congruence] ].
  - do 2 eexists. split; [reflexivity|]. repeat split.
    left. split; [reflexivity | simpl; congruence].
Qed.

Lemma sleep_cases (ms : N) (st : tstate) :
  exists r st',
    sleep ms st = (r, st') /\
    fetches st' = fetches st /\ trace st' = trace st ++ [EvSleep ms] /\
    ((r = Val tt /\ timer st' = timer st) \/ (r = Fatal /\ timer st <> None)).
Proof.
  unfold sleep, bind, emit.
  match goal with |- context [advance ?x ?s] =>
    destruct (advance_cases x s) as (r & st' & H & Hf & Htr & Hc);
    rewrite H; simpl in * end.
  destruct Hc as [[-> Ht]|[-> Ht]]; do 2 eexists;
    (split; [reflexivity|]); repeat split; auto.
Qed.

Section PipelineFacts.

Variable net : nat -> string -> reply.
Variable URL_href : string -> string -> option string.

Lemma round_cases (url_ : string) (timeout : N) (label : string) (st : tstate) :
  exists r st',
    round net url_ timeout label st = (r, st') /\
    fetches st' = S (fetches st) /\ trace st' = trace st ++ [EvFetch url_] /\
    ((r = res_of_attempt (attempt (net (fetches st) url_) timeout label) /\
      timer st' = timer st) \/
     (r = Fatal /\ timer st <> None)).
Proof.
  unfold round, fetchWithTimeout, next_reply, text, attempt, ok.
  unfold bind at 1 2. cbn [fst snd].
  destruct (net (fetches st) url_) as [d msg|d s bd b].
  - destruct (d <? timer_ms timeout)%N; unfold bind, throw;
      match goal with |- context [advance ?x ?s] =>
        destruct (advance_cases x s) as (r & st' & H & Hf & Htr & Hc);
        rewrite H; simpl in * end;
      (destruct Hc as [[-> Ht]|[-> Ht]]; do 2 eexists;
       (split; [reflexivity|]); repeat split; auto).
  - destruct (d <? timer_ms timeout)%N; unfold bind, throw, ret;
      match goal with |- context [advance ?x ?s] =>
        destruct (advance_cases x s) as (r & st' & H & Hf & Htr & Hc);
        rewrite H; simpl in Hf, Htr, Hc end;
      (destruct Hc as [[-> Ht]|[-> Ht]];
       try (do 2 eexists; (split; [reflexivity|]); repeat split; auto; fail)).
    cbn [status body_ms body].
    destruct ((200 <=? s) && (s <=? 299)); cbn [negb].
    + destruct (advance_cases bd st') as (r2 & st2 & H2 & Hf2 & Htr2 & Hc2).
      rewrite H2. destruct Hc2 as [[-> Ht2]|[-> Ht2]].
      * exists (match b with Some t => Val t | None => Exn BodyError end), st2.
        split; [destruct b; reflexivity|].
        repeat split; try congruence.
        left. split; [destruct b; reflexivity | congruence].
      * do 2 eexists. split; [reflexivity|].
        repeat split; try congruence.
        right. split; [reflexivity | congruence].
    + do 2 eexists. split; [reflexivity|]. repeat split; auto.
Qed.


(** *** [fetchRetry] *)

Lemma fetchRetry_loop_S (n i : nat) (lastErr : option error)
    (url_ : string) (timeout : N) (label : string) (st : tstate) :
  fetchRetry_loop net (S n) i lastErr url_ timeout label st =
  match round net url_ timeout label st with
  | (Exn e, st1) =>
      match sleep (backoff i) st1 with
      | (Val _, st2) => fetchRetry_loop net n (S i) (Some e) url_ timeout label st2
      | (Exn e', st2) => (Exn e', st2)
      | (Fatal, st2) => (Fatal, st2)
      end
  | r => r
  end.
Proof. reflexivity. Qed.

Lemma fetches_only_app (url_ : string) (a b : list event) :
  fetches_only url_ a -> fetches_only url_ b -> fetches_only url_ (a ++ b).
Proof. unfold fetches_only. intros Ha Hb. apply Forall_app. now split. Qed.

Lemma count_fetches_app (a b : list event) :
  count_fetches (a ++ b) = count_fetches a + count_fetches b.
Proof.
  induction a as [|[u|ms] a IH]; simpl; [reflexivity | now rewrite IH | exact IH].
Qed.


(** Whatever the network does, a call of [fetchRetry] appends to the
    trace at most [n] requests, all of them to [url_], and waits. *)
Lemma fetchRetry_loop_trace (url_ : string) (timeout : N) (label : string) :
  forall n i lastErr st,
  exists r st' evs,
    fetchRetry_loop net n i lastErr url_ timeout label st = (r, st') /\
    trace st' = trace st ++ evs /\
    fetches_only url_ evs /\
    count_fetches evs <= n /\
    fetches st' = fetches st + count_fetches evs /\
    (r <> Fatal -> timer st' = timer st) /\
    (r = Fatal -> timer st <> None).
Proof.
  induction n as [|n IH]; intros i lastErr st.
  - exists (Exn (match lastErr with Some e => e | None => Failed label end)), st, [].
    split; [reflexivity|]. split; [now rewrite app_nil_r|].
    split; [constructor|]. split; [simpl; lia|]. split; [simpl; lia|].
    split; [reflexivity | discriminate].
  - rewrite fetchRetry_loop_S.
    destruct (round_cases url_ timeout label st) as (r & st1 & H & Hf & Htr & Hc).
    rewrite H.
    assert (Hone : fetches_only url_ [EvFetch url_]) by (repeat constructor).
    destruct Hc as [[-> Ht]|[-> Ht]].
    + destruct (attempt (net (fetches st) url_) timeout label) as [t|e]; cbn [res_of_attempt].
      * exists (Val t), st1, [EvFetch url_].
        split; [reflexivity|]. split; [exact Htr|]. split; [exact Hone|].
        split; [simpl; lia|]. split; [simpl; lia|].
        split; [intros _; exact Ht | discriminate].
      * destruct (sleep_cases (backoff i) st1) as (r2 & st2 & H2 & Hf2 & Htr2 & Hc2).
        rewrite H2. destruct Hc2 as [[-> Ht2]|[-> Ht2]].
        -- destruct (IH (S i) (Some e) st2) as (r3 & st3 & evs & H3 & Htr3 & Ho & Hn & Hf3 & Ht3 & Ht3').
           exists r3, st3, (EvFetch url_ :: EvSleep (backoff i) :: evs).
           split; [exact H3|]. repeat split.
           ++ rewrite Htr3, Htr2, Htr, <- !app_assoc. reflexivity.
           ++ constructor; [reflexivity|]. constructor; [exact I | exact Ho].
           ++ simpl. lia.
           ++ simpl. lia.
           ++ intros Hr. rewrite (Ht3 Hr). congruence.
           ++ intros Hr. specialize (Ht3' Hr). congruence.
        -- exists Fatal, st2, [EvFetch url_; EvSleep (backoff i)].
           split; [reflexivity|].
           split; [rewrite Htr2, Htr, <- app_assoc; reflexivity|].
           split; [repeat constructor|]. split; [simpl; lia|].
           split; [simpl; lia|].
           split; [intros Hr; now elim Hr | intros _; congruence].
    + exists Fatal, st1, [EvFetch url_].
      split; [reflexivity|]. split; [exact Htr|]. split; [exact Hone|].
      split; [simpl; lia|]. split; [simpl; lia|].
      split; [intros Hr; now elim Hr | intros _; exact Ht].
Qed.



End PipelineFacts.

(** *** The waits of the retry loop *)

Lemma sum_upto_shift (f : nat -> N) (k : nat) :
  sum_upto f (S k) = (f 0%nat + sum_upto (fun j => f (S j)) k)%N.
Proof.
  induction k as [|k IH]; [simpl; lia|].
  change (sum_upto f (S (S k))) with (sum_upto f (S k) + f (S k))%N.
  rewrite IH. simpl. lia.
Qed.

Lemma sum_upto_ext (f g : nat -> N) (k : nat) :
  (forall j, j < k -> f j = g j) -> sum_upto f k = sum_upto g k.
Proof.
  induction k as [|k IH]; intros H; [reflexivity|]. cbn [sum_upto].
  rewrite IH by (intros j Hj; apply H; lia). rewrite (H k) by lia. reflexivity.
Qed.


Lemma sum_backoff_closed (k : nat) :
  sum_upto backoff k = (BACKOFF_BASE_MS * (2 ^ N.of_nat k - 1))%N.
Proof.
  induction k as [|k IH]; [reflexivity|].
  cbn [sum_upto]. rewrite IH. unfold backoff.
  rewrite Nat2N.inj_succ, N.pow_succ_r'.
  assert (1 <= 2 ^ N.of_nat k)%N.
  { apply N.lt_pred_le. simpl. apply N.neq_0_lt_0. apply N.pow_nonzero. lia. }
  unfold BACKOFF_BASE_MS. set (p := (2 ^ N.of_nat k)%N) in *. lia.
Qed.

(** The requests of a call of [fetchRetry]: at most [tries], all to its
    URL; with no extraction timer armed the call is not cut short. *)
Lemma fetchRetry_trace (net : nat -> string -> reply) (url_ : string)
    (tries : nat) (timeout : N) (label : string) (st st' : tstate)
    (r : res string) :
  fetchRetry net url_ tries timeout label st = (r, st') ->
  exists evs,
    trace st' = trace st ++ evs /\
    fetches_only url_ evs /\
    count_fetches evs <= tries /\
    (timer st = None -> r <> Fatal).
Proof.
  unfold fetchRetry. intros Hrun.
  destruct (fetchRetry_loop_trace net url_ timeout label tries 0 None st)
    as (r0 & st0 & evs & H0 & Htr & Ho & Hn & _ & _ & Hfatal).
  rewrite Hrun in H0. inversion H0; subst r0 st0; clear H0.
  exists evs. split; [exact Htr|]. split; [exact Ho|]. split; [exact Hn|].
  intros Ht Hr. now apply (Hfatal Hr).
Qed.

(** *** The clock of the retry loop *)

Lemma advance_clock (d : N) (st st' : tstate) (r : res unit) :
  advance d st = (r, st') ->
  (r = Val tt /\ clock st' = (clock st + d)%N /\ timer st' = timer st) \/
  (r = Fatal /\ exists dl, timer st = Some dl /\ clock st' = dl).
Proof.
  unfold advance. destruct (timer st) as [dl|] eqn:Ht.
  - destruct (dl <=? clock st + d)%N; intros E; inversion E; subst; clear E.
    + right. split; [reflexivity|]. now exists dl.
    + left. cbn [clock timer]. now repeat split.
  - intros E; inversion E; subst; clear E. left. cbn [clock timer]. now repeat split.
Qed.

Lemma sleep_clock (ms : N) (st st' : tstate) (r : res unit) :
  sleep ms st = (r, st') ->
  (r = Val tt /\ clock st' = (clock st + timer_ms ms)%N /\ timer st' = timer st) \/
  (r = Fatal /\ exists dl, timer st = Some dl /\ clock st' = dl).
Proof.
  unfold sleep, bind, emit. intros H. apply advance_clock in H. exact H.
Qed.

Lemma round_clock (net : nat -> string -> reply) (url_ : string) (timeout : N)
    (label : string) (st st' : tstate) (r : res string) :
  round net url_ timeout label st = (r, st') ->
  (r <> Fatal /\
   clock st' = (clock st + attempt_ms (net (fetches st) url_) timeout)%N /\
   timer st' = timer st) \/
  (r = Fatal /\ exists dl, timer st = Some dl /\ clock st' = dl).
Proof.
  unfold round, fetchWithTimeout, next_reply, text, attempt_ms, ok.
  unfold bind at 1 2. cbn [fst snd].
  destruct (net (fetches st) url_) as [d msg|d s bd b].
  - destruct (d <? timer_ms timeout)%N; unfold bind, throw;
      match goal with |- context [advance ?x ?s] =>
        destruct (advance x s) as [r1 st1] eqn:H1;
        destruct (advance_clock _ _ _ _ H1) as [(-> & Hc & Ht)|(-> & dl & Ht & Hc)]
      end; cbn [clock timer] in Hc, Ht; intros E; inversion E; subst; clear E;
      solve [ left; split; [discriminate | now split]
            | right; split; [reflexivity | now exists (clock st')] ].
  - destruct (d <? timer_ms timeout)%N; unfold bind, throw, ret;
      match goal with |- context [advance ?x ?s] =>
        destruct (advance x s) as [r1 st1] eqn:H1;
        destruct (advance_clock _ _ _ _ H1) as [(-> & Hc & Ht)|(-> & dl & Ht & Hc)]
      end; cbn [clock timer] in Hc, Ht;
      try (intros E; inversion E; subst; clear E;
           solve [ left; split; [discriminate | now split]
                 | right; split; [reflexivity | now exists (clock st')] ]).
    cbn [status body_ms body].
    destruct ((200 <=? s) && (s <=? 299)); cbn [negb].
    + destruct (advance bd st1) as [r2 st2] eqn:H2.
      destruct (advance_clock _ _ _ _ H2) as [(-> & Hc2 & Ht2)|(-> & dl2 & Ht2 & Hc2)].
      * intros E. left.
        destruct b; inversion E; subst; clear E;
          (split; [discriminate|]); (split; [lia | congruence]).
      * intros E; inversion E; subst; clear E. right. split; [reflexivity|].
        exists (clock st'). split; [congruence | reflexivity].
    + intros E; inversion E; subst; clear E. left.
      split; [discriminate | now split].
Qed.

Section RetryClock.

Variable net : nat -> string -> reply.
Variable url_ : string.
Variable timeout : N.
Variable label : string.

(** A call that ends the process does so when the timer fires. *)
Lemma fetchRetry_loop_fatal :
  forall n i lastErr st st',
    fetchRetry_loop net n i lastErr url_ timeout label st = (Fatal, st') ->
    exists dl, timer st = Some dl /\ clock st' = dl.
Proof.
  induction n as [|n IH]; intros i lastErr st st' H; [discriminate|].
  rewrite fetchRetry_loop_S in H.
  destruct (round net url_ timeout label st) as [r1 st1] eqn:H1.
  destruct (round_clock _ _ _ _ _ _ _ H1) as [(Hn & Hc & Ht)|(-> & dl & Ht & Hc)].
  - destruct r1 as [t|e|]; [discriminate | | now elim Hn].
    destruct (sleep (backoff i) st1) as [r2 st2] eqn:H2.
    destruct (sleep_clock _ _ _ _ H2) as [(-> & Hc2 & Ht2)|(-> & dl & Ht2 & Hc2)].
    + destruct (IH _ _ _ _ H) as (dl & Hd & Hcl).
      exists dl. split; [congruence | exact Hcl].
    + exists dl. inversion H; subst. split; [congruence | reflexivity].
  - exists dl. inversion H; subst. now split.
Qed.



End RetryClock.






(** With three failures the error of the third attempt comes out, after
    three waits. *)
Example fetchRetry_exhausted :
  let '(r, st') :=
    fetchRetry down_net "u" MAX_RETRIES FETCH_TIMEOUT_MS "snapshot" tstate0 in
  r = Exn (NetworkError "ECONNRESET") /\
  trace st' = [EvFetch "u"; EvSleep 2000; EvFetch "u"; EvSleep 4000;
               EvFetch "u"; EvSleep 8000].
Proof. vm_compute. split; reflexivity. Qed.

(** With a budget of zero no attempt is made and a fresh error is thrown. *)
Example fetchRetry_zero_budget :
  fetchRetry down_net "u" 0 FETCH_TIMEOUT_MS "snapshot" tstate0 =
  (Exn (Failed "snapshot"), tstate0).
Proof. reflexivity. Qed.

(** ** One pipeline: [handleMC] and [extractOne] *)

Section HandleFacts.

Variable net : nat -> string -> reply.
Variable URL_href : string -> string -> option string.

Lemma or_else_empty (s : string) : or_else s "" = s.
Proof. now destruct s. Qed.

(** The first event of a call of [fetchRetry] with a positive budget is a
    request. *)
Lemma fetchRetry_first_fetch (url_ : string) (n : nat) (timeout : N)
    (label : string) (st : tstate) :
  exists r st' evs,
    fetchRetry net url_ (S n) timeout label st = (r, st') /\
    trace st' = trace st ++ EvFetch url_ :: evs.
Proof.
  unfold fetchRetry. rewrite fetchRetry_loop_S.
  destruct (round_cases net url_ timeout label st) as (r & st1 & H & Hf & Htr & Hc).
  rewrite H. destruct r as [t|e|].
  - exists (Val t), st1, []. now split.
  - destruct (sleep_cases (backoff 0) st1) as (r2 & st2 & H2 & Hf2 & Htr2 & Hc2).
    rewrite H2.
    destruct (fetchRetry_loop_trace net url_ timeout label n 1 (Some e) st2)
      as (r3 & st3 & evs & H3 & Htr3 & _).
    destruct Hc2 as [[-> _]|[-> _]].
    + exists r3, st3, (EvSleep (backoff 0) :: evs). split; [exact H3|].
      rewrite Htr3, Htr2, Htr, <- !app_assoc. reflexivity.
    + exists Fatal, st2, [EvSleep (backoff 0)]. split; [reflexivity|].
      rewrite Htr2, Htr, <- !app_assoc. reflexivity.
  - exists Fatal, st1, []. now split.
Qed.

(** [handleMC] after its own request of the lookup page. *)
Lemma handleMC_unfold (m : mode) (mc : string) (st : tstate) :
  handleMC net URL_href m mc st =
  let url_ := mcToSnapshotUrl mc in
  match fetchRetry net url_ MAX_RETRIES FETCH_TIMEOUT_MS "snapshot" st with
  | (Val html, st1) =>
      match validity html with
      | Valid =>
          match m with
          | Urls => (Val {| valid := true; o_url := Some url_; o_row := None |}, st1)
          | Both =>
              match extractOne net URL_href url_ st1 with
              | (Val row_, st2) => (Val (with_row url_ row_), st2)
              | (Exn _, st2) => (Val invalid, st2)
              | (Fatal, st2) => (Fatal, st2)
              end
          end
      | _ => (Val invalid, st1)
      end
  | (Exn _, st1) => (Val invalid, st1)
  | (Fatal, st1) => (Fatal, st1)
  end.
Proof.
  unfold handleMC, try_catch, bind. cbn zeta.
  destruct (fetchRetry net (mcToSnapshotUrl mc) MAX_RETRIES FETCH_TIMEOUT_MS "snapshot" st) as [[html|e|] st1]; try reflexivity.
  destruct (validity html); try reflexivity.
  destruct m; [|reflexivity].
  destruct (extractOne net URL_href (mcToSnapshotUrl mc) st1) as [[row_|e|] st2];
    reflexivity.
Qed.

(** [extractOne] after its request of the lookup page. *)
Lemma extractOne_unfold (url_ : string) (st : tstate) :
  extractOne net URL_href url_ st =
  match fetchRetry net url_ MAX_RETRIES FETCH_TIMEOUT_MS "snapshot" (arm st) with
  | (Val html, st2) =>
      match deep net URL_href (find_smsLink URL_href url_ html)
                 (extractPhoneAnywhere html) st2 with
      | (Val ep, st3) => (Val (row_of url_ html ep), disarm st3)
      | (Exn e, st3) => (Exn e, disarm st3)
      | (Fatal, st3) => (Fatal, st3)
      end
  | (Exn e, st2) => (Exn e, disarm st2)
  | (Fatal, st2) => (Fatal, st2)
  end.
Proof.
  unfold extractOne, try_finally, bind, setTimeout_throw, clearTimeout.
  change {| fetches := fetches st; clock := clock st;
            timer := Some (clock st + timer_ms EXTRACT_TIMEOUT_MS)%N;
            trace := trace st |} with (arm st).
  destruct (fetchRetry net url_ MAX_RETRIES FETCH_TIMEOUT_MS "snapshot" (arm st)) as [[html|e|] st2]; try reflexivity.
  destruct (deep net URL_href (find_smsLink URL_href url_ html)
              (extractPhoneAnywhere html) st2) as [[ep|e|] st3]; reflexivity.
Qed.

(** The deep hops never throw: they give a pair or the process ends. The
    phone of the pair is the coarse one or a non-empty one read from the
    registration page. *)
Lemma deep_cases (smsLink phone0 : string) (st : tstate) :
  exists r st',
    deep net URL_href smsLink phone0 st = (r, st') /\
    (r = Fatal \/
     exists e p,
       r = Val (e, p) /\
       (p = phone0 \/
        exists regHtml,
          truthy (snd (extractContacts regHtml)) = true /\
          p = snd (extractContacts regHtml))).
Proof.
  unfold deep. destruct (truthy smsLink).
  2:{ do 2 eexists. split; [reflexivity|]. right. do 2 eexists. split; eauto. }
  unfold bind at 1.
  destruct (sleep_cases 300 st) as (r1 & st1 & H1 & _ & _ & Hc1). rewrite H1.
  destruct Hc1 as [[-> _]|[-> _]];
    [|do 2 eexists; split; [reflexivity | now left]].
  unfold try_catch, bind.
  destruct (fetchRetry net smsLink MAX_RETRIES FETCH_TIMEOUT_MS "sms" st1)
    as [[smsHtml|e|] st2].
  - destruct (truthy (find_regLink URL_href smsLink smsHtml)).
    + destruct (sleep_cases 300 st2) as (r3 & st3 & H3 & _ & _ & Hc3). rewrite H3.
      destruct Hc3 as [[-> _]|[-> _]];
        [|do 2 eexists; split; [reflexivity | now left]].
      destruct (fetchRetry net (find_regLink URL_href smsLink smsHtml) MAX_RETRIES
                  FETCH_TIMEOUT_MS "registration" st3) as [[regHtml|e|] st4].
      * destruct (extractContacts regHtml) as [foundEmail foundPhone] eqn:Hc.
        do 2 eexists. split; [reflexivity|]. right. do 2 eexists.
        split; [reflexivity|].
        destruct (truthy foundPhone) eqn:Hp; [right | now left].
        exists regHtml. rewrite Hc. now split.
      * do 2 eexists. split; [reflexivity|]. right. do 2 eexists. split; eauto.
      * do 2 eexists. split; [reflexivity|]. now left.
    + do 2 eexists. split; [reflexivity|]. right. do 2 eexists. split; eauto.
  - do 2 eexists. split; [reflexivity|]. right. do 2 eexists. split; eauto.
  - do 2 eexists. split; [reflexivity|]. now left.
Qed.

Lemma mcToSnapshotUrl_nonempty (mc : string) : mcToSnapshotUrl mc <> "".
Proof. unfold mcToSnapshotUrl, SNAPSHOT_PREFIX. cbn [append]. discriminate. Qed.

Lemma merge_invalid (acc : list row * list string) : merge acc invalid = acc.
Proof. reflexivity. Qed.

Lemma merge_with_row (acc : list row * list string) (mc : string) (r : row) :
  merge acc (with_row (mcToSnapshotUrl mc) r) =
  (fst acc ++ [r], snd acc ++ [mcToSnapshotUrl mc]).
Proof. unfold merge, with_row. cbn. reflexivity. Qed.

End HandleFacts.

(** ** C3: an invalid lookup page ends the pipeline *)

(** C3. When the lookup page that [handleMC] obtained is not valid (a
    not-found or inactive marker, or zero power units), in either mode the
    outcome is the invalid one, which carries no record and leaves the
    accumulator as it is, and the pipeline stops in the state in which the
    lookup returned: its trace holds at most [MAX_RETRIES] requests, all of
    them to the lookup URL. *)
Theorem invalid_lookup_stops (net : nat -> string -> reply)
    (URL_href : string -> string -> option string) (m : mode) (mc html : string)
    (st1 : tstate) :
  fetchRetry net (mcToSnapshotUrl mc) MAX_RETRIES FETCH_TIMEOUT_MS "snapshot" tstate0
    = (Val html, st1) ->
  validity html <> Valid ->
  handleMC net URL_href m mc tstate0 = (Val invalid, st1) /\
  o_row invalid = None /\
  (forall acc, merge acc invalid = acc) /\
  fetches_only (mcToSnapshotUrl mc) (trace st1) /\
  count_fetches (trace st1) <= MAX_RETRIES.
Proof.
  intros Hlook Hv.
  split.
  { rewrite handleMC_unfold. cbn zeta. rewrite Hlook.
    destruct (validity html); [contradiction | reflexivity | reflexivity]. }
  split; [reflexivity|]. split; [reflexivity|].
  destruct (fetchRetry_trace _ _ _ _ _ _ _ _ Hlook) as (evs & Htr & Ho & Hn & _).
  simpl in Htr. rewrite Htr. now split.
Qed.

Lemma invalid_lookup_stops_witness :
  fst (handleMC (fun _ _ => Response 90 200 15 (Some dead_page)) plain_URL Both
         "000001" tstate0) = Val invalid /\
  count_fetches
    (trace (snd (handleMC (fun _ _ => Response 90 200 15 (Some dead_page))
                   plain_URL Both "000001" tstate0))) <= MAX_RETRIES.
Proof.
  destruct (invalid_lookup_stops (fun _ _ => Response 90 200 15 (Some dead_page))
              plain_URL Both "000001" dead_page
              (snd (fetchRetry (fun _ _ => Response 90 200 15 (Some dead_page))
                      (mcToSnapshotUrl "000001") MAX_RETRIES FETCH_TIMEOUT_MS
                      "snapshot" tstate0)))
    as (Hh & _ & _ & _ & Hn).
  - reflexivity.
  - discriminate.
  - rewrite Hh. cbn [fst snd]. split; [reflexivity | exact Hn].
Defined.

(** ** C1: a valid lookup page and the record *)

(** The claim as stated fails: the lookup page passes the check, the
    three attempts of the second request of that page are refused, and the
    identifier comes out invalid, with no record. *)
Lemma valid_lookup_demoted :
  fst (fetchRetry once_net (mcToSnapshotUrl "000002") MAX_RETRIES FETCH_TIMEOUT_MS
         "snapshot" tstate0) = Val sample_page /\
  validity sample_page = Valid /\
  fst (handleMC once_net plain_URL Both "000002" tstate0) = Val invalid /\
  pc (run_for (sample_world once_net) default_config ["000002"] 5) = Exited 0 /\
  rows (run_for (sample_world once_net) default_config ["000002"] 5) = [].
Proof. repeat split. Qed.

(** ** C10: the lookup page is requested twice *)

(** C10. In full-extraction mode, after a lookup page that passes the
    validity check, [handleMC] runs [fetchRetry] a second time on the same
    lookup URL with the same budget, and the next event of the trace is a
    request of that URL. If this second call throws (its attempts are
    exhausted), the outcome is the invalid one: no record. If it returns a
    page [html2], any record produced has the registry number found in
    [html2], and its phone is the coarse phone found in [html2] unless a
    phone was read from the registration page. *)
Theorem lookup_fetched_again (net : nat -> string -> reply)
    (URL_href : string -> string -> option string) (mc html : string)
    (st1 : tstate) :
  fetchRetry net (mcToSnapshotUrl mc) MAX_RETRIES FETCH_TIMEOUT_MS "snapshot" tstate0
    = (Val html, st1) ->
  validity html = Valid ->
  exists r2 st2 evs,
    fetchRetry net (mcToSnapshotUrl mc) MAX_RETRIES FETCH_TIMEOUT_MS "snapshot"
      (arm st1) = (r2, st2) /\
    trace st2 = trace st1 ++ EvFetch (mcToSnapshotUrl mc) :: evs /\
    match r2 with
    | Exn _ =>
        handleMC net URL_href Both mc tstate0 = (Val invalid, disarm st2)
    | Fatal =>
        handleMC net URL_href Both mc tstate0 = (Fatal, st2)
    | Val html2 =>
        exists r st3,
          handleMC net URL_href Both mc tstate0 = (r, st3) /\
          (r = Fatal \/
           exists row_,
             r = Val (with_row (mcToSnapshotUrl mc) row_) /\
             mcNumber row_ = extractMcNumber html2 /\
             (phone row_ = extractPhoneAnywhere html2 \/
              exists regHtml,
                truthy (snd (extractContacts regHtml)) = true /\
                phone row_ = snd (extractContacts regHtml)))
    end.
Proof.
  intros Hlook Hv.
  destruct (fetchRetry_first_fetch net (mcToSnapshotUrl mc) 2 FETCH_TIMEOUT_MS
              "snapshot" (arm st1)) as (r2 & st2 & evs & Hre & Htr).
  change (S 2) with MAX_RETRIES in Hre.
  exists r2, st2, evs. split; [exact Hre|]. split; [exact Htr|].
  rewrite handleMC_unfold. cbn zeta.
  rewrite Hlook, Hv, extractOne_unfold, Hre.
  destruct r2 as [html2|e|]; try reflexivity.
  destruct (deep_cases net URL_href
              (find_smsLink URL_href (mcToSnapshotUrl mc) html2)
              (extractPhoneAnywhere html2) st2) as (rd & st3 & Hd & Hc).
  rewrite Hd.
  destruct Hc as [->|(e & p & -> & Hp)].
  - do 2 eexists. split; [reflexivity | now left].
  - do 2 eexists. split; [reflexivity|]. right.
    exists (row_of (mcToSnapshotUrl mc) html2 (e, p)).
    split; [reflexivity|]. unfold row_of. cbn [mcNumber phone fst snd].
    rewrite !or_else_empty. split; [reflexivity|].
    destruct Hp as [->|Hreg]; [now left | now right].
Qed.

(** The page changes between the two requests: the record is read from
    the second page, which would not have passed the check. *)
Lemma lookup_fetched_again_witness :
  exists r2 st2 evs,
    fetchRetry changing_net (mcToSnapshotUrl "111111") MAX_RETRIES FETCH_TIMEOUT_MS
      "snapshot"
      (arm (snd (fetchRetry changing_net (mcToSnapshotUrl "111111") MAX_RETRIES
                   FETCH_TIMEOUT_MS "snapshot" tstate0))) = (r2, st2) /\
    trace st2 =
      trace (snd (fetchRetry changing_net (mcToSnapshotUrl "111111") MAX_RETRIES
                    FETCH_TIMEOUT_MS "snapshot" tstate0))
      ++ EvFetch (mcToSnapshotUrl "111111") :: evs.
Proof.
  destruct (lookup_fetched_again changing_net plain_URL "111111"
              "Power Units: 4 MC-111111 (555) 111-1111"
              (snd (fetchRetry changing_net (mcToSnapshotUrl "111111") MAX_RETRIES
                      FETCH_TIMEOUT_MS "snapshot" tstate0)))
    as (r2 & st2 & evs & Hre & Htr & _).
  - reflexivity.
  - reflexivity.
  - exists r2, st2, evs. split; [exact Hre | exact Htr].
Defined.

Example changing_page_record :
  fst (handleMC changing_net plain_URL Both "111111" tstate0) =
  Val (with_row (mcToSnapshotUrl "111111")
         {| email := ""; mcNumber := "MC-222222"; phone := "(555) 222-2222";
            url := mcToSnapshotUrl "111111" |}).
Proof. reflexivity. Qed.

Example refetch_exhausted_no_record :
  fst (handleMC once_net plain_URL Both "000002" tstate0) = Val invalid /\
  count_fetches (trace (snd (handleMC once_net plain_URL Both "000002" tstate0))) = 4.
Proof. split; reflexivity. Qed.

(** ** The run: lists *)

Lemma firstn_add (A : Type) (i k : nat) (l : list A) :
  firstn (i + k) l = firstn i l ++ firstn k (skipn i l).
Proof.
  revert l. induction i as [|i IH]; intros l; [reflexivity|].
  destruct l as [|x l]; simpl.
  - now rewrite firstn_nil.
  - now rewrite IH.
Qed.

Lemma all_results_app (a b : list (res outcome * tstate)) :
  all_results (a ++ b) =
  match all_results a, all_results b with
  | Some x, Some y => Some (x ++ y)
  | _, _ => None
  end.
Proof.
  induction a as [|[[o|e|] st] a IH]; simpl.
  - now destruct (all_results b).
  - rewrite IH. destruct (all_results a), (all_results b); reflexivity.
  - reflexivity.
  - reflexivity.
Qed.

Lemma records_of_app (a b : list outcome) :
  records_of (a ++ b) = records_of a ++ records_of b.
Proof. apply flat_map_app. Qed.

Lemma urls_of_app (a b : list outcome) :
  urls_of (a ++ b) = urls_of a ++ urls_of b.
Proof. apply flat_map_app. Qed.

Lemma fold_left_merge (outs : list outcome) :
  forall acc,
    fold_left merge outs acc =
    (fst acc ++ records_of outs, snd acc ++ urls_of outs).
Proof.
  induction outs as [|o outs IH]; intros [rs us]; simpl.
  - now rewrite !app_nil_r.
  - rewrite IH. unfold merge. simpl.
    destruct (valid o); simpl; [|reflexivity].
    destruct (o_row o), (o_url o) as [u|]; try destruct (truthy u); simpl;
      rewrite <- ?app_assoc; reflexivity.
Qed.

Section RunFacts.

Variable w : world.
Variable cfg : config.
Variable mcList : list string.

Lemma dispatch_app (a b : list string) :
  forall j,
    dispatch w cfg j (a ++ b) =
    dispatch w cfg j a ++ dispatch w cfg (j + List.length a) b.
Proof.
  induction a as [|mc a IH]; intros j; simpl.
  - now rewrite Nat.add_0_r.
  - rewrite IH. do 3 f_equal. lia.
Qed.

Lemma length_slice (i e : nat) :
  e <= List.length mcList -> List.length (slice_ mcList i e) = e - i.
Proof.
  intros He. unfold slice_. rewrite length_firstn, length_skipn. lia.
Qed.

Lemma outcomes_upto_wave (i e : nat) (outs results : list outcome) :
  i <= e -> e <= List.length mcList ->
  outcomes_upto w cfg mcList i = Some outs ->
  all_results (dispatch w cfg i (slice_ mcList i e)) = Some results ->
  outcomes_upto w cfg mcList e = Some (outs ++ results).
Proof.
  unfold outcomes_upto. intros Hie He Ho Hr.
  replace e with (i + (e - i)) at 1 by lia.
  rewrite firstn_add, dispatch_app, all_results_app, Ho.
  rewrite length_firstn, Nat.min_l by lia. cbn [Nat.add].
  unfold slice_ in Hr. now rewrite Hr.
Qed.

End RunFacts.

(** ** The run: invariants *)

Section RunInvariants.

Variable w : world.
Variable cfg : config.
Variable mcList : list string.

Local Notation "'len'" := (List.length mcList).

Lemma run_for_S (n : nat) :
  run_for w cfg mcList (S n) = step w cfg mcList (run_for w cfg mcList n).
Proof. reflexivity. Qed.

Lemma inv_init : inv w cfg mcList rstate0.
Proof.
  exists 0, []. cbn. repeat split; lia.
Qed.

Lemma inv_step (st : rstate) :
  inv w cfg mcList st -> inv w cfg mcList (step w cfg mcList st).
Proof.
  intros (i & outs & Hi & Ho & Hr & Hu & Hpc). unfold step.
  destruct (pc st) as [s|s e j| |code] eqn:Hp.
  - (* head of the [for] loop *)
    destruct (s <? len) eqn:Hs.
    + apply Nat.ltb_lt in Hs. exists i, outs. cbn [pc rows validUrls set_pc].
      repeat split; auto; lia.
    + apply Nat.ltb_ge in Hs. exists i, outs. cbn [pc rows validUrls set_pc].
      repeat split; auto; lia.
  - destruct Hpc as (-> & Hsi & Hie & He & Hs).
    destruct (i <? e) eqn:Hlt.
    + (* one wave *)
      apply Nat.ltb_lt in Hlt.
      set (e' := Nat.min e (i + CONCURRENCY cfg)).
      assert (He' : i <= e' /\ e' <= e /\ e' <= len) by (unfold e'; lia).
      destruct (all_results (dispatch w cfg i (slice_ mcList i e'))) as [results|] eqn:Hres.
      * exists e', (outs ++ results). cbn [pc rows validUrls].
        rewrite fold_left_merge. cbn [fst snd].
        rewrite records_of_app, urls_of_app, Hr, Hu.
        rewrite length_slice by lia.
        split; [lia|].
        split; [apply (outcomes_upto_wave w cfg mcList i e' outs results);
                [lia | lia | exact Ho | exact Hres]|].
        repeat split; auto; lia.
      * exists i, outs. cbn [pc rows validUrls set_pc]. repeat split; auto.
    + (* the checkpoint *)
      apply Nat.ltb_ge in Hlt. exists i, outs. cbn [pc rows validUrls set_pc].
      repeat split; auto. lia.
  - exists i, outs. destruct (MODE cfg); cbn [pc rows validUrls set_pc];
      repeat split; auto.
  - exists i, outs. rewrite Hp. repeat split; auto.
Qed.

Lemma inv_run (n : nat) : inv w cfg mcList (run_for w cfg mcList n).
Proof.
  induction n as [|n IH]; [apply inv_init|].
  rewrite run_for_S. now apply inv_step.
Qed.

(** Every step leaves the two sequences of the accumulator as they are or
    appends to them. *)
Lemma step_extends (st : rstate) :
  extends (rows st) (rows (step w cfg mcList st)) /\
  extends (validUrls st) (validUrls (step w cfg mcList st)).
Proof.
  assert (Hsame : forall l : list row, extends l l)
    by (intros l; exists []; now rewrite app_nil_r).
  assert (Hsame' : forall l : list string, extends l l)
    by (intros l; exists []; now rewrite app_nil_r).
  unfold step. destruct (pc st) as [s|s e i| |code].
  - destruct (s <? len); cbn [rows validUrls set_pc]; auto.
  - destruct (i <? e); [|cbn [rows validUrls set_pc]; auto].
    destruct (all_results _) as [results|]; [|cbn [rows validUrls set_pc]; auto].
    cbn [rows validUrls]. rewrite fold_left_merge. cbn [fst snd].
    split; eexists; reflexivity.
  - destruct (MODE cfg); cbn [rows validUrls set_pc]; auto.
  - auto.
Qed.

(** *** Termination *)

Lemma steps_left_decreases (st : rstate) :
  0 < BATCH_SIZE cfg -> 0 < CONCURRENCY cfg ->
  inv w cfg mcList st ->
  (forall code, pc st <> Exited code) ->
  steps_left cfg mcList (pc (step w cfg mcList st)) < steps_left cfg mcList (pc st).
Proof.
  intros HB HC (i & outs & Hi & Ho & Hr & Hu & Hpc) Hne. unfold step.
  destruct (pc st) as [s|s e j| |code] eqn:Hp.
  - destruct (s <? len) eqn:Hs; cbn [pc set_pc steps_left].
    + apply Nat.ltb_lt in Hs. lia.
    + apply Nat.ltb_ge in Hs. lia.
  - destruct Hpc as (-> & Hsi & Hie & He & Hs).
    destruct (i <? e) eqn:Hlt.
    + apply Nat.ltb_lt in Hlt.
      destruct (all_results _) as [results|]; cbn [pc set_pc steps_left]; [|lia].
      rewrite length_slice by lia. lia.
    + apply Nat.ltb_ge in Hlt. cbn [pc set_pc steps_left]. lia.
  - destruct (MODE cfg); cbn [pc set_pc steps_left]; lia.
  - now elim (Hne code).
Qed.

Lemma step_exited (st : rstate) (code : nat) :
  pc st = Exited code -> step w cfg mcList st = st.
Proof. intros H. unfold step. now rewrite H. Qed.

Lemma steps_left_bound (n : nat) :
  0 < BATCH_SIZE cfg -> 0 < CONCURRENCY cfg ->
  steps_left cfg mcList (pc (run_for w cfg mcList n)) <= 2 + 3 * len - n.
Proof.
  intros HB HC. induction n as [|n IH]; [simpl; lia|].
  rewrite run_for_S.
  destruct (pc (run_for w cfg mcList n)) as [s|s e j| |code] eqn:Hp.
  4:{ rewrite (step_exited _ code Hp), Hp. simpl. lia. }
  all: pose proof (steps_left_decreases (run_for w cfg mcList n) HB HC (inv_run n)) as Hd;
    rewrite Hp in Hd; assert (Hne : forall code, pc (run_for w cfg mcList n) <> Exited code)
      by (intros code; rewrite Hp; discriminate);
    rewrite Hp in Hne; specialize (Hd Hne); lia.
Qed.

(** With positive sizes the run ends after at most [2 + 3 * length]
    steps, and stays where it ended. *)
Lemma run_terminates :
  0 < BATCH_SIZE cfg -> 0 < CONCURRENCY cfg ->
  exists code,
    pc (run_for w cfg mcList (2 + 3 * len)) = Exited code /\
    forall m, 2 + 3 * len <= m ->
      run_for w cfg mcList m = run_for w cfg mcList (2 + 3 * len).
Proof.
  intros HB HC.
  pose proof (steps_left_bound (2 + 3 * len) HB HC) as Hb.
  destruct (pc (run_for w cfg mcList (2 + 3 * len))) as [s|s e j| |code] eqn:Hp;
    try (simpl in Hb; lia).
  exists code. split; [reflexivity|].
  intros m Hm. induction Hm as [|m Hm IH]; [reflexivity|].
  rewrite run_for_S, IH. now apply (step_exited _ code).
Qed.

End RunInvariants.

(** ** Where a valid outcome comes from *)

Lemma handleMC_valid_origin (net : nat -> string -> reply)
    (URL_href : string -> string -> option string) (m : mode) (mc : string)
    (o : outcome) (st' : tstate) :
  handleMC net URL_href m mc tstate0 = (Val o, st') ->
  valid o = true ->
  exists html st1,
    fetchRetry net (mcToSnapshotUrl mc) MAX_RETRIES FETCH_TIMEOUT_MS "snapshot" tstate0
      = (Val html, st1) /\
    validity html = Valid /\
    o_url o = Some (mcToSnapshotUrl mc) /\
    forall r, o_row o = Some r -> url r = mcToSnapshotUrl mc.
Proof.
  rewrite handleMC_unfold. cbn zeta.
  destruct (fetchRetry net (mcToSnapshotUrl mc) MAX_RETRIES FETCH_TIMEOUT_MS
              "snapshot" tstate0) as [[html|e|] st1] eqn:Hlook;
    intros H Hv; try (inversion H; subst o; discriminate).
  destruct (validity html) eqn:Hval; try (inversion H; subst o; discriminate).
  exists html, st1. split; [reflexivity|]. split; [exact Hval|].
  destruct m.
  - rewrite extractOne_unfold in H.
    destruct (fetchRetry net (mcToSnapshotUrl mc) MAX_RETRIES FETCH_TIMEOUT_MS
                "snapshot" (arm st1)) as [[html2|e|] st2];
      try (inversion H; subst o; discriminate).
    destruct (deep net URL_href _ _ st2) as [[ep|e|] st3];
      try (inversion H; subst o; discriminate).
    inversion H; subst o. split; [reflexivity|].
    intros r Hr. inversion Hr. reflexivity.
  - inversion H; subst o. split; [reflexivity|]. discriminate.
Qed.

(** In URL-only mode a pipeline always returns, carries no record, and
    requests nothing but the lookup page. *)
Lemma handleMC_urls_mode (net : nat -> string -> reply)
    (URL_href : string -> string -> option string) (mc : string) :
  exists o st',
    handleMC net URL_href Urls mc tstate0 = (Val o, st') /\
    o_row o = None /\
    fetches_only (mcToSnapshotUrl mc) (trace st') /\
    count_fetches (trace st') <= MAX_RETRIES /\
    urls_of [o] =
      match fetchRetry net (mcToSnapshotUrl mc) MAX_RETRIES FETCH_TIMEOUT_MS
              "snapshot" tstate0 with
      | (Val html, _) =>
          match validity html with Valid => [mcToSnapshotUrl mc] | _ => [] end
      | _ => []
      end.
Proof.
  rewrite handleMC_unfold. cbn zeta.
  destruct (fetchRetry net (mcToSnapshotUrl mc) MAX_RETRIES FETCH_TIMEOUT_MS
              "snapshot" tstate0) as [r st1] eqn:Hlook.
  destruct (fetchRetry_trace _ _ _ _ _ _ _ _ Hlook) as (evs & Htr & Ho & Hn & Hnf).
  simpl in Htr. rewrite <- Htr in Ho, Hn. specialize (Hnf eq_refl).
  destruct r as [html|e|]; [|do 2 eexists; repeat split; eauto | contradiction].
  destruct (validity html); do 2 eexists; repeat split; eauto.
Qed.

Section RunOrigins.

Variable w : world.
Variable cfg : config.
Variable mcList : list string.

Lemma all_results_In (l : list string) :
  forall j outs o,
    all_results (dispatch w cfg j l) = Some outs ->
    In o outs ->
    exists k mc st',
      nth_error l k = Some mc /\ pipeline w cfg (j + k) mc = (Val o, st').
Proof.
  induction l as [|mc l IH]; intros j outs o Hall Hin; simpl in Hall.
  - inversion Hall; subst. contradiction.
  - destruct (pipeline w cfg j mc) as [[o1|e|] st1] eqn:Hp; try discriminate.
    destruct (all_results (dispatch w cfg (S j) l)) as [outs'|] eqn:Hrest;
      [|discriminate].
    inversion Hall; subst outs; clear Hall.
    destruct Hin as [<-|Hin].
    + exists 0, mc, st1. rewrite Nat.add_0_r. now split.
    + destruct (IH (S j) outs' o Hrest Hin) as (k & mc' & st' & Hk & Hpk).
      exists (S k), mc', st'. split; [exact Hk|].
      now replace (j + S k) with (S j + k) by lia.
Qed.

Lemma nth_error_firstn_Some (A : Type) (i k : nat) (l : list A) (x : A) :
  nth_error (firstn i l) k = Some x -> nth_error l k = Some x.
Proof.
  revert k l. induction i as [|i IH]; intros k l H.
  - destruct k; discriminate.
  - destruct l as [|y l]; [destruct k; discriminate|].
    destruct k as [|k]; [exact H|]. simpl in *. now apply IH.
Qed.

(** Every outcome behind the accumulator is the outcome of the pipeline
    of an identifier of the list. *)
Lemma outcomes_upto_In (i : nat) (outs : list outcome) (o : outcome) :
  outcomes_upto w cfg mcList i = Some outs ->
  In o outs ->
  exists j mc st',
    nth_error mcList j = Some mc /\ pipeline w cfg j mc = (Val o, st').
Proof.
  unfold outcomes_upto. intros Hall Hin.
  destruct (all_results_In _ _ _ _ Hall Hin) as (k & mc & st' & Hk & Hp).
  exists k, mc, st'. split; [now apply nth_error_firstn_Some in Hk | exact Hp].
Qed.

Lemma run_for_extends (n m : nat) :
  n <= m ->
  extends (rows (run_for w cfg mcList n)) (rows (run_for w cfg mcList m)) /\
  extends (validUrls (run_for w cfg mcList n)) (validUrls (run_for w cfg mcList m)).
Proof.
  intros Hnm. induction Hnm as [|m Hnm [[t1 IH1] [t2 IH2]]].
  - split; exists []; now rewrite app_nil_r.
  - rewrite run_for_S.
    destruct (step_extends w cfg mcList (run_for w cfg mcList m)) as [[t3 H3] [t4 H4]].
    split; [exists (t1 ++ t3) | exists (t2 ++ t4)].
    + now rewrite H3, IH1, app_assoc.
    + now rewrite H4, IH2, app_assoc.
Qed.

(** C8. The two sequences of the accumulator are append-only. A step
    that completes a wave appends to them the records and the URLs of all
    the valid outcomes of the wave, in dispatch order, whether or not equal
    ones are there already; every other step leaves them as they are. So
    at every moment they are the records and the URLs of the valid outcomes
    of the identifiers processed so far, in list order, none dropped and
    none merged, and a later state extends an earlier one. Every record,
    and every URL, in the accumulator belongs to an identifier of the list
    whose lookup page was obtained and found valid. *)
Theorem accumulator_append_only :
  (forall st,
      extends (rows st) (rows (step w cfg mcList st)) /\
      extends (validUrls st) (validUrls (step w cfg mcList st))) /\
  (forall st,
      match pc st with
      | AtWave s e i =>
          if i <? e then
            match all_results
                    (dispatch w cfg i
                       (slice_ mcList i (Nat.min e (i + CONCURRENCY cfg)))) with
            | Some results =>
                rows (step w cfg mcList st) = rows st ++ records_of results /\
                validUrls (step w cfg mcList st) = validUrls st ++ urls_of results
            | None =>
                rows (step w cfg mcList st) = rows st /\
                validUrls (step w cfg mcList st) = validUrls st
            end
          else
            rows (step w cfg mcList st) = rows st /\
            validUrls (step w cfg mcList st) = validUrls st
      | _ =>
          rows (step w cfg mcList st) = rows st /\
          validUrls (step w cfg mcList st) = validUrls st
      end) /\
  (forall n,
      exists i outs,
        outcomes_upto w cfg mcList i = Some outs /\
        rows (run_for w cfg mcList n) = records_of outs /\
        validUrls (run_for w cfg mcList n) = urls_of outs /\
        (pc (run_for w cfg mcList n) = Exited 0 -> i = List.length mcList)) /\
  (forall n m, n <= m ->
      extends (rows (run_for w cfg mcList n)) (rows (run_for w cfg mcList m)) /\
      extends (validUrls (run_for w cfg mcList n))
              (validUrls (run_for w cfg mcList m))) /\
  (forall n r, In r (rows (run_for w cfg mcList n)) ->
      exists j mc html st1,
        nth_error mcList j = Some mc /\
        fetchRetry (w_net w j) (mcToSnapshotUrl mc) MAX_RETRIES FETCH_TIMEOUT_MS
          "snapshot" tstate0 = (Val html, st1) /\
        validity html = Valid /\
        url r = mcToSnapshotUrl mc) /\
  (forall n u, In u (validUrls (run_for w cfg mcList n)) ->
      exists j mc html st1,
        nth_error mcList j = Some mc /\
        fetchRetry (w_net w j) (mcToSnapshotUrl mc) MAX_RETRIES FETCH_TIMEOUT_MS
          "snapshot" tstate0 = (Val html, st1) /\
        validity html = Valid /\
        u = mcToSnapshotUrl mc).
Proof.
  split; [apply step_extends|]. split.
  { intros st. unfold step. destruct (pc st) as [s|s e i| |code].
    - destruct (s <? List.length mcList); cbn [rows validUrls set_pc]; now split.
    - destruct (i <? e); [|cbn [rows validUrls set_pc]; now split].
      destruct (all_results _) as [results|];
        [|cbn [rows validUrls set_pc]; now split].
      cbn [rows validUrls]. rewrite fold_left_merge. cbn [fst snd]. now split.
    - destruct (MODE cfg); cbn [rows validUrls set_pc]; now split.
    - now split. }
  split.
  { intros n. destruct (inv_run w cfg mcList n) as (i & outs & _ & Ho & Hr & Hu & Hpc).
    exists i, outs. repeat split; auto.
    intros Hend. now rewrite Hend in Hpc. }
  split; [apply run_for_extends|]. split.
  - intros n r Hin.
    destruct (inv_run w cfg mcList n) as (i & outs & _ & Ho & Hr & _).
    rewrite Hr in Hin. unfold records_of in Hin.
    apply in_flat_map in Hin. destruct Hin as (o & Hino & Hro).
    destruct (valid o) eqn:Hv; [|contradiction].
    destruct (o_row o) as [r'|] eqn:Hrow; [|contradiction].
    destruct Hro as [<-|[]].
    destruct (outcomes_upto_In i outs o Ho Hino) as (j & mc & st' & Hj & Hp).
    destruct (handleMC_valid_origin _ _ _ _ _ _ Hp Hv) as (html & st1 & Hl & Hval & _ & Hu).
    exists j, mc, html, st1. repeat split; auto.
  - intros n u Hin.
    destruct (inv_run w cfg mcList n) as (i & outs & _ & Ho & _ & Hu & _).
    rewrite Hu in Hin. unfold urls_of in Hin.
    apply in_flat_map in Hin. destruct Hin as (o & Hino & Huo).
    destruct (valid o) eqn:Hv; [|contradiction].
    destruct (outcomes_upto_In i outs o Ho Hino) as (j & mc & st' & Hj & Hp).
    destruct (handleMC_valid_origin _ _ _ _ _ _ Hp Hv) as (html & st1 & Hl & Hval & Hurl & _).
    rewrite Hurl in Huo. destruct (truthy (mcToSnapshotUrl mc)); [|contradiction].
    destruct Huo as [<-|[]].
    exists j, mc, html, st1. repeat split; auto.
Qed.

End RunOrigins.

(** The same identifier twice gives the same record twice: the wave
    appends both, and each belongs to an identifier of the list. *)
Lemma accumulator_append_only_witness :
  (exists j mc,
     nth_error ["000002"; "000002"] j = Some mc /\
     url {| email := ""; mcNumber := "MC-000002"; phone := "(555) 123-4567";
            url := mcToSnapshotUrl "000002" |} = mcToSnapshotUrl mc) /\
  rows (step (sample_world steady_net) default_config ["000002"; "000002"]
          (run_for (sample_world steady_net) default_config
             ["000002"; "000002"] 1)) =
  [ {| email := ""; mcNumber := "MC-000002"; phone := "(555) 123-4567";
       url := mcToSnapshotUrl "000002" |};
    {| email := ""; mcNumber := "MC-000002"; phone := "(555) 123-4567";
       url := mcToSnapshotUrl "000002" |} ].
Proof.
  destruct (accumulator_append_only (sample_world steady_net) default_config
              ["000002"; "000002"]) as (_ & Hstep & _ & _ & Hrec & _).
  split.
  - destruct (Hrec 2 {| email := ""; mcNumber := "MC-000002";
                        phone := "(555) 123-4567";
                        url := mcToSnapshotUrl "000002" |})
      as (j & mc & html & st1 & Hj & _ & _ & Hu).
    + vm_compute. left. reflexivity.
    + exists j, mc. split; [exact Hj | exact Hu].
  - specialize (Hstep (run_for (sample_world steady_net) default_config
                         ["000002"; "000002"] 1)).
    change (pc (run_for (sample_world steady_net) default_config
                  ["000002"; "000002"] 1)) with (AtWave 0 2 0) in Hstep.
    cbv iota in Hstep. change (0 <? 2) with true in Hstep. cbv iota in Hstep.
    destruct (all_results _) as [results|] eqn:Hres in Hstep;
      [|vm_compute in Hres; discriminate].
    destruct Hstep as [Hrows _]. rewrite Hrows.
    vm_compute in Hres. inversion Hres. reflexivity.
Defined.

Example accumulator_keeps_duplicates :
  List.length (rows (run_for (sample_world steady_net) default_config
                       ["000002"; "000002"] 2)) = 2.
Proof. vm_compute. reflexivity. Qed.

(** ** C5: the checkpoint *)

Lemma to_csv_text (rs : list row) : to_csv rs = csv_text rs.
Proof.
  unfold to_csv, csv_text. cbn [app]. f_equal. f_equal.
  apply map_ext. intros r. rewrite csv_line_eq. cbn [map join].
  unfold quoted. now rewrite !quote_field_eq.
Qed.

Lemma outCsv_eq (w : world) (start : nat) :
  outCsv w start =
  w_OUTPUT_DIR w +++ "/fmcsa_batch_"
  +++ subst_char (one_of ":.") "-" (w_toISOString w start) +++ ".csv".
Proof.
  unfold outCsv. rewrite replace_all_cls. cbn [append]. reflexivity.
Qed.

(** C5. At every batch boundary (the [while] loop of the batch has no
    identifier left) the next step writes one file and leaves the
    accumulator as it is. The text written is the delimited text, header
    line and quoted values in the column order email, registry number,
    phone, source URL, of all the records accumulated since the start of
    the run: the records of the outcomes of every identifier before the end
    of the batch, not of the batch alone. The name of the file holds the
    wall-clock time of the checkpoint, with its colons and dots replaced by
    dashes. *)
Theorem checkpoint_is_full_snapshot (w : world) (cfg : config)
    (mcList : list string) (n s e i : nat) :
  pc (run_for w cfg mcList n) = AtWave s e i ->
  e <= i ->
  exists outs wait,
    outcomes_upto w cfg mcList e = Some outs /\
    rows (run_for w cfg mcList n) = records_of outs /\
    log (run_for w cfg mcList (S n)) =
      log (run_for w cfg mcList n)
      ++ RWrite (w_OUTPUT_DIR w +++ "/fmcsa_batch_"
                 +++ subst_char (one_of ":.") "-" (w_toISOString w s) +++ ".csv")
                (csv_text (records_of outs)) :: wait /\
    (wait = [] \/ wait = [RSleep (WAIT_SECONDS cfg * 1000)%N]) /\
    rows (run_for w cfg mcList (S n)) = rows (run_for w cfg mcList n) /\
    validUrls (run_for w cfg mcList (S n)) = validUrls (run_for w cfg mcList n).
Proof.
  intros Hpc Hei.
  destruct (inv_run w cfg mcList n) as (i' & outs & Hi & Ho & Hr & Hu & Hinv).
  rewrite Hpc in Hinv. destruct Hinv as (<- & Hsi & Hie & He & Hs).
  assert (i = e) by lia. subst i.
  rewrite run_for_S. unfold step. rewrite Hpc.
  assert (Hlt : (e <? e) = false) by (apply Nat.ltb_ge; lia). rewrite Hlt.
  cbn [log rows validUrls set_pc].
  exists outs. eexists. split; [exact Ho|]. split; [exact Hr|].
  rewrite to_csv_text, outCsv_eq, Hr.
  split; [reflexivity|]. split; [|split; reflexivity].
  destruct ((0 <? WAIT_SECONDS cfg)%N && (e <? Datatypes.length mcList)); auto.
Qed.

Lemma checkpoint_is_full_snapshot_witness :
  exists wait,
    log (run_for mixed_world default_config ["000001"; "000002"] 3) =
    log (run_for mixed_world default_config ["000001"; "000002"] 2)
    ++ RWrite "/work/output/fmcsa_batch_2024-01-02T03-04-05-678Z.csv"
         (csv_text [{| email := ""; mcNumber := "MC-000002";
                       phone := "(555) 123-4567";
                       url := mcToSnapshotUrl "000002" |}]) :: wait.
Proof.
  destruct (checkpoint_is_full_snapshot mixed_world default_config
              ["000001"; "000002"] 2 0 2 2) as (outs & wait & Ho & _ & Hlog & _).
  - reflexivity.
  - lia.
  - exists wait. rewrite Hlog.
    vm_compute in Ho. inversion Ho; subst outs. reflexivity.
Defined.

(** ** C6: the wait between waves *)

(** C6, as the code has it. A wave whose pipelines all return appends the
    records and URLs of its valid outcomes to the accumulator and then
    calls [sleep (max 50 DELAY)] before the loop goes on. That call lasts
    the configured delay whenever that is at least 50 and at most
    [2^31 - 1] (300 by default), 50 for a smaller delay, and 1 for a larger
    one, which overflows the timer. *)
Theorem wave_then_sleep (w : world) (cfg : config) (mcList : list string)
    (st : rstate) (s e i : nat) (results : list outcome) :
  pc st = AtWave s e i ->
  i < e ->
  all_results
    (dispatch w cfg i (slice_ mcList i (Nat.min e (i + CONCURRENCY cfg))))
    = Some results ->
  exists traces,
    step w cfg mcList st =
    {| pc := AtWave s e
               (i + List.length (slice_ mcList i (Nat.min e (i + CONCURRENCY cfg))));
       rows := rows st ++ records_of results;
       validUrls := validUrls st ++ urls_of results;
       log := log st ++ [RWave i traces; RSleep (N.max 50 (DELAY cfg))] |} /\
    (forall t, timer t = None ->
       exists t',
         sleep (N.max 50 (DELAY cfg)) t = (Val tt, t') /\
         clock t' = (clock t + timer_ms (N.max 50 (DELAY cfg)))%N) /\
    ((50 <= DELAY cfg <= TIMEOUT_MAX)%N ->
       timer_ms (N.max 50 (DELAY cfg)) = DELAY cfg) /\
    ((DELAY cfg < 50)%N -> timer_ms (N.max 50 (DELAY cfg)) = 50%N) /\
    ((TIMEOUT_MAX < DELAY cfg)%N -> timer_ms (N.max 50 (DELAY cfg)) = 1%N) /\
    timer_ms (N.max 50 (DELAY default_config)) = 300%N.
Proof.
  intros Hpc Hlt Hres. unfold step. rewrite Hpc.
  apply Nat.ltb_lt in Hlt. rewrite Hlt, Hres, fold_left_merge. cbn [fst snd].
  eexists. split; [reflexivity|].
  split.
  { intros t Ht. unfold sleep, bind, emit, advance. cbn [timer clock].
    rewrite Ht. eexists. split; reflexivity. }
  unfold timer_ms, TIMEOUT_MAX.
  split.
  { intros [H1 H2]. rewrite N.max_r by exact H1.
    assert (H3 : (1 <= DELAY cfg)%N) by lia.
    apply N.leb_le in H2, H3. now rewrite H2, H3. }
  split.
  { intros H. rewrite N.max_l by lia. reflexivity. }
  split; [|reflexivity].
  intros H. rewrite N.max_r by lia.
  apply N.leb_gt in H. rewrite H, andb_false_r. reflexivity.
Qed.

Lemma wave_then_sleep_witness :
  exists traces,
    log (step (sample_world steady_net) default_config ["000002"]
           (run_for (sample_world steady_net) default_config ["000002"] 1)) =
    [RWave 0 traces; RSleep 300] /\
    clock (snd (sleep 300 tstate0)) = 300%N.
Proof.
  destruct (wave_then_sleep (sample_world steady_net) default_config ["000002"]
              (run_for (sample_world steady_net) default_config ["000002"] 1)
              0 1 0
              [with_row (mcToSnapshotUrl "000002")
                 {| email := ""; mcNumber := "MC-000002";
                    phone := "(555) 123-4567";
                    url := mcToSnapshotUrl "000002" |}])
    as (traces & Hstep & Hsleep & _).
  - reflexivity.
  - lia.
  - vm_compute. reflexivity.
  - exists traces. split; [rewrite Hstep; reflexivity|].
    destruct (Hsleep tstate0 eq_refl) as (t' & Hs & Hc).
    change (N.max 50 (DELAY default_config)) with 300%N in Hs.
    rewrite Hs. exact Hc.
Defined.

(** The claim as stated fails twice: with a configured delay of 10 ms the
    wait after the wave is asked to last 50 ms, and does; with a configured
    delay of 3000000000 ms it lasts 1 ms. *)
Lemma short_delay_is_raised :
  DELAY quick_config = 10%N /\
  (exists traces,
    log (run_for (sample_world dead_net) quick_config ["000001"] 2) =
    [RWave 0 traces; RSleep 50] /\
  ~ In (RSleep 10) (log (run_for (sample_world dead_net) quick_config ["000001"] 5))) /\
  clock (snd (sleep (N.max 50 (DELAY quick_config)) tstate0)) = 50%N /\
  clock (snd (sleep (N.max 50 3000000000) tstate0)) = 1%N.
Proof.
  split; [reflexivity|]. split; [|split; reflexivity].
  eexists. split; [vm_compute; reflexivity|].
  vm_compute. intros [H|[H|[H|[]]]]; discriminate.
Qed.

(** ** C7: URL-only mode *)

Section UrlsMode.

Variable w : world.
Variable cfg : config.
Variable mcList : list string.
Hypothesis Hmode : MODE cfg = Urls.

Lemma urls_dispatch (l : list string) :
  forall j,
  exists outs,
    all_results (dispatch w cfg j l) = Some outs /\
    records_of outs = [] /\
    urls_of outs = valid_urls_from w j l.
Proof.
  induction l as [|mc l IH]; intros j.
  - exists []. repeat split.
  - destruct (IH (S j)) as (outs & Hall & Hrec & Hurl).
    destruct (handleMC_urls_mode (w_net w j) (w_URL_href w) mc)
      as (o & st' & Hh & Hrow & _ & _ & Hu).
    exists (o :: outs). cbn [dispatch all_results].
    unfold pipeline at 1. rewrite Hmode, Hh, Hall.
    split; [reflexivity|]. split.
    + change (o :: outs) with ([o] ++ outs). rewrite records_of_app, Hrec.
      unfold records_of. cbn. rewrite Hrow. now destruct (valid o).
    + change (o :: outs) with ([o] ++ outs). rewrite urls_of_app, Hurl, Hu.
      cbn [valid_urls_from]. f_equal. unfold valid_lookup.
      destruct (fetchRetry (w_net w j) (mcToSnapshotUrl mc) MAX_RETRIES
                  FETCH_TIMEOUT_MS "snapshot" tstate0) as [[html|e|] st1];
        try reflexivity.
      now destruct (validity html).
Qed.

Lemma log_inv_step (st : rstate) :
  log_inv w st -> log_inv w (step w cfg mcList st).
Proof.
  intros [Hrows Hlog]. unfold step.
  destruct (pc st) as [s|s e i| |code] eqn:Hp.
  - destruct (s <? List.length mcList); split; cbn [pc rows log set_pc];
      auto; now rewrite app_nil_r.
  - destruct (i <? e).
    + destruct (urls_dispatch (slice_ mcList i (Nat.min e (i + CONCURRENCY cfg))) i)
        as (outs & Hall & Hrec & _).
      rewrite Hall, fold_left_merge. cbn [fst snd].
      split; cbn [pc rows log]; [now rewrite Hrows, Hrec|].
      apply Forall_app. split; [exact Hlog|]. repeat constructor.
    + split; cbn [pc rows log set_pc]; [exact Hrows|].
      apply Forall_app. split; [exact Hlog|].
      constructor.
      * split; [now exists s | now rewrite Hrows].
      * destruct ((0 <? WAIT_SECONDS cfg)%N && (e <? Datatypes.length mcList));
          repeat constructor.
  - rewrite Hmode. split; cbn [pc rows log validUrls set_pc]; [exact Hrows|].
    exists (log st). now split.
  - split; [exact Hrows | now rewrite Hp].
Qed.

Lemma log_inv_run (n : nat) : log_inv w (run_for w cfg mcList n).
Proof.
  induction n as [|n IH].
  - split; [reflexivity | constructor].
  - rewrite run_for_S. now apply log_inv_step.
Qed.

Lemma urls_never_exit_1 (n : nat) :
  pc (run_for w cfg mcList n) <> Exited 1.
Proof.
  induction n as [|n IH]; [discriminate|].
  rewrite run_for_S. unfold step.
  destruct (pc (run_for w cfg mcList n)) as [s|s e i| |code] eqn:Hp.
  - destruct (s <? Datatypes.length mcList); discriminate.
  - destruct (i <? e); [|discriminate].
    destruct (urls_dispatch (slice_ mcList i (Nat.min e (i + CONCURRENCY cfg))) i)
      as (outs & Hall & _).
    rewrite Hall. discriminate.
  - rewrite Hmode. discriminate.
  - now rewrite Hp.
Qed.

End UrlsMode.

Lemma append_inj_l (a x y : string) : a +++ x = a +++ y -> x = y.
Proof.
  induction a as [|c a IH]; simpl; intros H; [exact H|].
  inversion H. now apply IH.
Qed.

(** The list of URLs and a checkpoint never share a file. *)
Lemma listPath_not_outCsv (w : world) (start : nat) : listPath w <> outCsv w start.
Proof.
  unfold listPath, outCsv. intros H.
  apply append_inj_l in H. cbn [append] in H. discriminate.
Qed.

(** C7, as the code has it. In URL-only mode the pipeline of every
    identifier returns after the validity check: it carries no record and
    its trace holds at most [MAX_RETRIES] requests, all to the lookup URL.
    With positive batch and wave sizes the run ends with exit code 0 and stays there; its last
    event, and no other one, writes the file of URLs, whose text is the
    lookup URLs of the valid identifiers in list order joined by line
    feeds; every other file written is a checkpoint that holds the header
    line only. *)
Theorem urls_mode_run (w : world) (cfg : config) (mcList : list string) :
  MODE cfg = Urls ->
  0 < BATCH_SIZE cfg ->
  0 < CONCURRENCY cfg ->
  (forall j mc,
      exists o st',
        pipeline w cfg j mc = (Val o, st') /\
        o_row o = None /\
        fetches_only (mcToSnapshotUrl mc) (trace st') /\
        count_fetches (trace st') <= MAX_RETRIES) /\
  exists n pre,
    pc (run_for w cfg mcList n) = Exited 0 /\
    (forall m, n <= m -> run_for w cfg mcList m = run_for w cfg mcList n) /\
    log (run_for w cfg mcList n) =
      pre ++ [RWrite (listPath w) (join newline (valid_urls_from w 0 mcList))] /\
    Forall (plain_event w) pre /\
    (forall start, listPath w <> outCsv w start).
Proof.
  intros Hmode HB HC. split.
  - intros j mc. unfold pipeline. rewrite Hmode.
    destruct (handleMC_urls_mode (w_net w j) (w_URL_href w) mc)
      as (o & st' & Hh & Hrow & Ho & Hn & _).
    exists o, st'. now repeat split.
  - destruct (run_terminates w cfg mcList HB HC) as (code & Hpc & Hstay).
    exists (2 + 3 * List.length mcList).
    pose proof (urls_never_exit_1 w cfg mcList Hmode (2 + 3 * List.length mcList)) as Hne.
    pose proof (log_inv_run w cfg mcList Hmode (2 + 3 * List.length mcList)) as [_ Hlog].
    destruct (inv_run w cfg mcList (2 + 3 * List.length mcList))
      as (i & outs & _ & Ho & _ & Hu & Hi).
    rewrite Hpc in Hlog, Hi, Hne.
    destruct code as [|[|code]].
    + destruct Hlog as (pre & Hlog & Hpre). subst i. exists pre.
      split; [exact Hpc|]. split; [exact Hstay|].
      split; [|split; [exact Hpre | apply listPath_not_outCsv]].
      rewrite Hlog, Hu. do 3 f_equal.
      destruct (urls_dispatch w cfg Hmode (firstn (List.length mcList) mcList) 0)
        as (outs' & Hall & _ & Hurl).
      unfold outcomes_upto in Ho. rewrite Ho in Hall. inversion Hall; subst outs'.
      now rewrite Hurl, firstn_all.
    + now elim Hne.
    + exfalso.
      (* no step ever exits with a code above 1 *)
      clear - Hpc.
      assert (Hall : forall n, forall c, pc (run_for w cfg mcList n) <> Exited (S (S c))).
      { induction n as [|n IH]; intros c; [discriminate|].
        rewrite run_for_S. unfold step.
        destruct (pc (run_for w cfg mcList n)) as [s|s e i| |code'] eqn:Hp.
        - destruct (s <? Datatypes.length mcList); discriminate.
        - destruct (i <? e); [|discriminate].
          destruct (all_results _); discriminate.
        - destruct (MODE cfg); discriminate.
        - rewrite Hp. apply IH. }
      exact (Hall _ _ Hpc).
Qed.

Lemma urls_mode_run_witness :
  exists n pre,
    pc (run_for mixed_world urls_config ["000001"; "000002"; "000003"] n) = Exited 0 /\
    log (run_for mixed_world urls_config ["000001"; "000002"; "000003"] n) =
      pre ++ [RWrite "/work/output/fmcsa_remaining_urls_1704164645678.txt"
                (mcToSnapshotUrl "000002" +++ newline +++ mcToSnapshotUrl "000003")].
Proof.
  destruct (urls_mode_run mixed_world urls_config ["000001"; "000002"; "000003"])
    as (_ & n & pre & Hpc & _ & Hlog & _).
  - reflexivity.
  - unfold urls_config. cbn. lia.
  - unfold urls_config. cbn. lia.
  - exists n, pre. split; [exact Hpc|]. rewrite Hlog. reflexivity.
Defined.

(** ** The matcher is sound *)

Lemma substring_prefix (pre s : string) :
  substring 0 (String.length pre) (pre +++ s) = pre.
Proof.
  induction pre as [|c pre IH]; simpl; [apply substring_0_0 | now rewrite IH].
Qed.

Lemma consumed_app (pre s : string) : consumed (pre +++ s) s = pre.
Proof.
  unfold consumed. rewrite length_append.
  replace (String.length pre + String.length s - String.length s)
    with (String.length pre) by lia.
  apply substring_prefix.
Qed.

Lemma rep_loop_sound (m1 : string -> caps -> cont -> answer) (r1 : regex)
    (g : bool) (k : cont) :
  sound m1 r1 ->
  forall fuel lo hi s c x,
    rep_loop m1 g k fuel lo hi s c = Some x ->
    exists pre s' c',
      s = pre +++ s' /\ matches (Rep g lo hi r1) pre /\ k s' c' = Some x.
Proof.
  intros Hm1. induction fuel as [|fuel IH]; intros lo hi s c x H; [discriminate|].
  cbn [rep_loop] in H.
  assert (Hstop : forall lo', k s c = Some x ->
            (hi = Some 0 \/ lo' = 0) ->
            exists pre s' c',
              s = pre +++ s' /\ matches (Rep g lo' hi r1) pre /\ k s' c' = Some x).
  { intros lo' Hk [-> | ->]; exists "", s, c; (split; [reflexivity|]);
      (split; [constructor | exact Hk]). }
  assert (Hmore :
            hi <> Some 0 ->
            m1 s c (fun s' c' =>
                      if (lo =? 0) && (String.length s' =? String.length s)
                      then None
                      else rep_loop m1 g k fuel (pred lo) (option_map pred hi) s' c')
              = Some x ->
            exists pre s' c',
              s = pre +++ s' /\ matches (Rep g lo hi r1) pre /\ k s' c' = Some x).
  { intros Hhi Hagain.
    destruct (Hm1 _ _ _ _ Hagain) as (pre1 & s1 & c1 & Hs & Hp1 & Hk).
    destruct ((lo =? 0) && (String.length s1 =? String.length s)); [discriminate|].
    destruct (IH _ _ _ _ _ Hk) as (pre2 & s2 & c2 & Hs2 & Hp2 & Hk2).
    exists (pre1 +++ pre2), s2, c2.
    split; [now rewrite Hs, Hs2, append_assoc|].
    split; [now apply M_rep_more | exact Hk2]. }
  destruct hi as [[|h]|].
  - apply (Hstop lo H). now left.
  - assert (Hhi : Some (S h) <> Some 0) by discriminate.
    destruct (0 <? lo) eqn:Hlo; [now apply Hmore|].
    apply Nat.ltb_ge in Hlo. assert (lo = 0) by lia. subst lo.
    destruct g.
    + destruct (m1 s c _) as [y|] eqn:Hag.
      * inversion H; subst y. now apply Hmore.
      * apply (Hstop 0 H). now right.
    + destruct (k s c) as [y|] eqn:Hk.
      * inversion H; subst y. apply (Hstop 0 eq_refl). now right.
      * now apply Hmore.
  - assert (Hhi : @None nat <> Some 0) by discriminate.
    destruct (0 <? lo) eqn:Hlo; [now apply Hmore|].
    apply Nat.ltb_ge in Hlo. assert (lo = 0) by lia. subst lo.
    destruct g.
    + destruct (m1 s c _) as [y|] eqn:Hag.
      * inversion H; subst y. now apply Hmore.
      * apply (Hstop 0 H). now right.
    + destruct (k s c) as [y|] eqn:Hk.
      * inversion H; subst y. apply (Hstop 0 eq_refl). now right.
      * now apply Hmore.
Qed.

Theorem rmatch_sound (r : regex) : sound (rmatch r) r.
Proof.
  induction r as [|p|r1 IH1 r2 IH2|r1 IH1 r2 IH2|g lo hi r1 IH1|n r1 IH1];
    intros s c k x H; cbn [rmatch] in H.
  - exists "", s, c. repeat split; [constructor | exact H].
  - destruct s as [|a s]; [discriminate|].
    destruct (p a) eqn:Hp; [|discriminate].
    exists (String a ""), s, c. repeat split; [now constructor | exact H].
  - destruct (IH1 _ _ _ _ H) as (pre1 & s1 & c1 & Hs1 & Hm1 & H1).
    destruct (IH2 _ _ _ _ H1) as (pre2 & s2 & c2 & Hs2 & Hm2 & H2).
    exists (pre1 +++ pre2), s2, c2.
    split; [now rewrite Hs1, Hs2, append_assoc|].
    split; [now constructor | exact H2].
  - destruct (rmatch r1 s c k) as [y|] eqn:H1.
    + inversion H; subst y.
      destruct (IH1 _ _ _ _ H1) as (pre & s' & c' & Hs & Hm & Hk).
      exists pre, s', c'. repeat split; [exact Hs | now apply M_alt_l | exact Hk].
    + destruct (IH2 _ _ _ _ H) as (pre & s' & c' & Hs & Hm & Hk).
      exists pre, s', c'. repeat split; [exact Hs | now apply M_alt_r | exact Hk].
  - eapply rep_loop_sound; eassumption.
  - destruct (IH1 _ _ _ _ H) as (pre & s' & c' & Hs & Hm & Hk).
    exists pre, s', ((n, consumed s s') :: c').
    repeat split; [exact Hs | now constructor | exact Hk].
Qed.

(** What [exec] returns: the match is a string of the pattern, between
    the text skipped and the text left. *)
Lemma exec_at_sound (r : regex) (s : string) :
  forall idx m,
    exec_at r s idx = Some m ->
    exists skipped,
      s = skipped +++ m_text m +++ m_rest m /\
      m_index m = idx + String.length skipped /\
      matches r (m_text m) /\
      rmatch r (m_text m +++ m_rest m) [] (fun s' c => Some (s', c))
        = Some (m_rest m, m_caps m).
Proof.
  induction s as [|a s IH]; intros idx m H; cbn [exec_at] in H.
  - destruct (rmatch r "" [] _) as [[s' c]|] eqn:Hr; [|discriminate].
    inversion H; subst m; clear H. cbn [m_text m_rest m_index m_caps].
    destruct (rmatch_sound r _ _ _ _ Hr) as (pre & s1 & c1 & Hs & Hm & Hk).
    inversion Hk; subst s1 c1. rewrite Hs, consumed_app.
    exists "". repeat split; auto. now rewrite <- Hs.
  - destruct (rmatch r (String a s) [] _) as [[s' c]|] eqn:Hr.
    + inversion H; subst m; clear H. cbn [m_text m_rest m_index m_caps].
      destruct (rmatch_sound r _ _ _ _ Hr) as (pre & s1 & c1 & Hs & Hm & Hk).
      inversion Hk; subst s1 c1. rewrite Hs, consumed_app.
      exists "". repeat split; auto. now rewrite <- Hs.
    + destruct (IH _ _ H) as (skipped & Hs & Hi & Hm & Hr').
      exists (String a skipped). cbn [append String.length].
      repeat split; auto; [now rewrite <- Hs | lia].
Qed.

(** *** What the "Power Units" pattern locates *)

Lemma matches_cls_inv (p : ascii -> bool) (s : string) :
  matches (Cls p) s -> exists c, s = String c "" /\ p c = true.
Proof. intros H. inversion H; subst. now exists c. Qed.

Lemma matches_liti (t : string) :
  forall s, matches (liti t) s -> fold_string s = fold_string t.
Proof.
  induction t as [|a t IH]; intros s H.
  - inversion H. reflexivity.
  - destruct t as [|b t].
    + apply matches_cls_inv in H. destruct H as (c & -> & Hc).
      apply Ascii.eqb_eq in Hc. cbn. now rewrite Hc.
    + cbn [liti] in H. inversion H as [ | |r1 r2 s1 s2 Hc Hl| | | | | | ]; subst.
      destruct (matches_cls_inv _ _ Hc) as (c & -> & Hc').
      apply Ascii.eqb_eq in Hc'. apply IH in Hl.
      cbn [append fold_string]. cbn [fold_string] in Hl. now rewrite Hc', Hl.
Qed.

Lemma matches_rep_cls (r : regex) (s : string) :
  matches r s ->
  forall g lo hi p, r = Rep g lo hi (Cls p) -> all_chars p s = true.
Proof.
  induction 1 as [ | | | | | | | |g0 lo0 hi0 r0 s1 s2 Hhi H1 _ H2 IH2];
    intros g' lo' hi' q E; try discriminate; try reflexivity.
  inversion E; subst.
  apply matches_cls_inv in H1. destruct H1 as (c & -> & Hc).
  cbn [append all_chars]. rewrite Hc. cbn [andb]. exact (IH2 _ _ _ _ eq_refl).
Qed.

Lemma matches_plus_nonempty (g : bool) (lo : nat) (p : ascii -> bool) (s : string) :
  matches (Rep g (S lo) None (Cls p)) s -> s <> "".
Proof.
  intros H. inversion H as [ | | | | | | | |g0 lo0 hi0 r0 s1 s2 Hhi Hc Hl]; subst.
  destruct (matches_cls_inv _ _ Hc) as (c & -> & _).
  discriminate.
Qed.

Lemma rmatch_cat (r1 r2 : regex) (s : string) (c : caps) (k : cont) :
  rmatch (Cat r1 r2) s c k = rmatch r1 s c (fun s' c' => rmatch r2 s' c' k).
Proof. reflexivity. Qed.

Lemma rmatch_grp (n : nat) (r : regex) (s : string) (c : caps) (k : cont) :
  rmatch (Grp n r) s c k =
  rmatch r s c (fun s' c' => k s' ((n, consumed s s') :: c')).
Proof. reflexivity. Qed.

(** The figure found on a page stands after the words "Power" and "Units"
    (in any case, white space between them) and a run of characters that
    are not digits; it is a non-empty run of digits and commas. *)
Lemma power_units_figure_shape (html fig : string) :
  power_units_figure html = Some fig ->
  exists pre p ws u nd post,
    html = pre +++ p +++ ws +++ u +++ nd +++ fig +++ post /\
    fold_string p = "power" /\
    all_chars is_space ws = true /\
    fold_string u = "units" /\
    all_chars (fun c => negb (is_digit c)) nd = true /\
    fig <> "" /\
    all_chars (fun c => is_digit c || Ascii.eqb c ",") fig = true.
Proof.
  unfold power_units_figure, exec.
  destruct (exec_at powerUnitsRe html 0) as [m|] eqn:He; [|discriminate].
  intros Hfig. inversion Hfig; subst fig; clear Hfig.
  destruct (exec_at_sound _ _ _ _ He) as (pre & Hs & _ & _ & Hr).
  unfold powerUnitsRe in Hr. cbn [seq] in Hr.
  rewrite rmatch_cat in Hr.
  destruct (rmatch_sound _ _ _ _ _ Hr) as (p & s1 & c1 & Hs1 & Hp & Hr1).
  rewrite rmatch_cat in Hr1.
  destruct (rmatch_sound _ _ _ _ _ Hr1) as (ws & s2 & c2 & Hs2 & Hws & Hr2).
  rewrite rmatch_cat in Hr2.
  destruct (rmatch_sound _ _ _ _ _ Hr2) as (u & s3 & c3 & Hs3 & Hu & Hr3).
  rewrite rmatch_cat in Hr3.
  destruct (rmatch_sound _ _ _ _ _ Hr3) as (nd & s4 & c4 & Hs4 & Hnd & Hr4).
  rewrite rmatch_grp in Hr4.
  destruct (rmatch_sound _ _ _ _ _ Hr4) as (fig & s5 & c5 & Hs5 & Hf & Hr5).
  rewrite Hs5, consumed_app in Hr5.
  inversion Hr5 as [[Hrest Hcaps]]. clear Hr5.
  assert (Hg : group_str 1 m = fig).
  { unfold group_str, group. now rewrite <- Hcaps. }
  rewrite Hg.
  exists pre, p, ws, u, nd, (m_rest m).
  split.
  { rewrite Hs, Hs1, Hs2, Hs3, Hs4, Hs5, Hrest. reflexivity. }
  split; [exact (matches_liti "Power" p Hp)|].
  split; [exact (matches_rep_cls _ _ Hws _ _ _ _ eq_refl)|].
  split; [exact (matches_liti "Units" u Hu)|].
  split; [exact (matches_rep_cls _ _ Hnd _ _ _ _ eq_refl)|].
  split; [exact (matches_plus_nonempty _ _ _ _ Hf)|].
  exact (matches_rep_cls _ _ Hf _ _ _ _ eq_refl).
Qed.

(** Such a text always reads as a number: the [isNaN] test of line 150
    never fails. *)
Lemma figure_read_total (fig : string) :
  all_chars (fun c => is_digit c || Ascii.eqb c ",") fig = true ->
  forall acc, exists v, figure_value_from acc fig = Some v.
Proof.
  induction fig as [|c fig IH]; intros Hall acc; [now exists acc|].
  cbn [all_chars] in Hall. apply andb_true_iff in Hall. destruct Hall as [Hc Hall].
  cbn [figure_value_from]. destruct (Ascii.eqb c ","); [now apply IH|].
  rewrite orb_false_r in Hc. rewrite Hc. now apply IH.
Qed.

Lemma power_units_figure_value (html fig : string) :
  power_units_figure html = Some fig -> exists v, figure_read fig = Some v.
Proof.
  intros H. destruct (power_units_figure_shape _ _ H) as (_ & _ & _ & _ & _ & _ & _ & _ & _ & _ & _ & _ & Hall).
  now apply figure_read_total.
Qed.

(** *** Reading a whole checkpoint back *)

Lemma read_record_end (fuel : nat) (v : string) :
  Csv.read_record (S fuel) (quote_field v) = Some ([v], "").
Proof.
  cbn [Csv.read_record]. now rewrite quote_field_roundtrip_aux.
Qed.

Lemma csv_line_read (r : row) (fuel : nat) (rest : string) :
  Csv.read_record (4 + fuel) (csv_line r +++ String (ascii_of_nat 10) rest) =
  Some (fields_of r, rest).
Proof.
  rewrite csv_line_eq, !append_assoc. cbn [append Nat.add].
  rewrite !read_record_comma, read_record_newline. reflexivity.
Qed.

Lemma csv_line_read_end (r : row) (fuel : nat) :
  Csv.read_record (4 + fuel) (csv_line r) = Some (fields_of r, "").
Proof.
  rewrite csv_line_eq. cbn [append Nat.add].
  rewrite !read_record_comma, read_record_end. reflexivity.
Qed.

Lemma length_csv_line (r : row) : 4 <= String.length (csv_line r).
Proof.
  rewrite csv_line_eq, !length_append.
  assert (H : forall v, 2 <= String.length (quote_field v)).
  { intros v. rewrite quote_field_eq. cbn [String.length].
    rewrite length_append. cbn [String.length]. lia. }
  pose proof (H (email r)). pose proof (H (mcNumber r)). lia.
Qed.

Lemma read_file_S (fuel : nat) (s : string) :
  read_file (S fuel) s =
  match Csv.read_record (S (String.length s)) s with
  | Some (fields, EmptyString) => Some [fields]
  | Some (fields, rest) =>
      match read_file fuel rest with
      | Some l => Some (fields :: l)
      | None => None
      end
  | None => None
  end.
Proof. reflexivity. Qed.

Lemma length_join_lines (r : row) (rs : list row) :
  4 <= String.length (join newline (map csv_line (r :: rs))).
Proof.
  pose proof (length_csv_line r) as Hl.
  destruct rs as [|r' rs].
  - exact Hl.
  - change (join newline (map csv_line (r :: r' :: rs)))
      with (csv_line r +++ newline +++ join newline (map csv_line (r' :: rs))).
    rewrite length_append. lia.
Qed.

Lemma read_file_lines (rs : list row) :
  forall r fuel,
    List.length rs < fuel ->
    read_file fuel (join newline (map csv_line (r :: rs))) =
    Some (map fields_of (r :: rs)).
Proof.
  induction rs as [|r' rs IH]; intros r fuel Hf;
    (destruct fuel as [|fuel]; [simpl in Hf; lia|]).
  - cbn [map join read_file].
    pose proof (length_csv_line r) as Hl.
    replace (S (String.length (csv_line r)))
      with (4 + (String.length (csv_line r) - 3)) by lia.
    now rewrite csv_line_read_end.
  - change (join newline (map csv_line (r :: r' :: rs)))
      with (csv_line r +++ newline +++ join newline (map csv_line (r' :: rs))).
    pose proof (length_join_lines r' rs) as Hj.
    set (tail := join newline (map csv_line (r' :: rs))) in *.
    cbn [read_file]. unfold newline. cbn [append].
    pose proof (length_csv_line r) as Hl.
    rewrite length_append.
    replace (S (String.length (csv_line r)
                + String.length (String (ascii_of_nat 10) tail)))
      with (4 + (String.length (csv_line r) - 3
                 + String.length (String (ascii_of_nat 10) tail))) by lia.
    rewrite csv_line_read.
    destruct tail as [|c t] eqn:Ht; [simpl in Hj; lia|].
    rewrite <- Ht. unfold tail. rewrite IH by (simpl in Hf; lia). reflexivity.
Qed.

(** The text of a checkpoint, read back by a standard reader, is the
    header record followed by the values of every accumulated record. *)
Theorem to_csv_read_back (rs : list row) :
  read_file (2 + List.length rs) (to_csv rs) = Some (headers :: map fields_of rs).
Proof.
  unfold to_csv. cbn [app]. destruct rs as [|r rs].
  - vm_compute. reflexivity.
  - change (join newline (join "," headers :: map csv_line (r :: rs)))
      with (join "," headers +++ newline +++ join newline (map csv_line (r :: rs))).
    pose proof (length_join_lines r rs) as Hj.
    set (tail := join newline (map csv_line (r :: rs))) in *.
    change (2 + Datatypes.length (r :: rs)) with (S (2 + List.length rs)).
    rewrite read_file_S.
    assert (Hhead :
      Csv.read_record (S (String.length (join "," headers +++ newline +++ tail)))
        (join "," headers +++ newline +++ tail) = Some (headers, tail)).
    { cbn. reflexivity. }
    rewrite Hhead.
    destruct tail as [|c t] eqn:Ht; [simpl in Hj; lia|].
    rewrite <- Ht. unfold tail. rewrite read_file_lines by (simpl; lia).
    reflexivity.
Qed.

(** ** Sample runs *)

(** The matcher on the cases that need backtracking. *)
Example regex_greedy_gives_back :
  option_map m_text (exec (seq [star any; lit "ab"]) "xxabyyabzz") = Some "xxabyyab".
Proof. reflexivity. Qed.

Example regex_lazy_stops_early :
  option_map (group_str 1)
    (exec (seq [chr "<"; Grp 1 (lazy_star any); chr ">"]) "a<b>c>d") = Some "b".
Proof. reflexivity. Qed.

Example regex_bounded :
  option_map m_text (exec (times 3 7 digit) "ab12 123456789") = Some "1234567".
Proof. reflexivity. Qed.

Example regex_href_backtracks :
  option_map (group_str 1)
    (exec hrefRe "<a href='/x/SMS/Carrier/12/Overview.aspx'>") =
  Some "/x/SMS/Carrier/12/Overview.aspx".
Proof. reflexivity. Qed.

Example url_is_encoded :
  mcToSnapshotUrl "12 34/5" = SNAPSHOT_PREFIX +++ "1234%2F5".
Proof. reflexivity. Qed.

(** Scenario A of the specification: the first identifier is not found,
    the second has 12 power units and no link. *)
Example scenario_A :
  let st := run_for mixed_world default_config ["000001"; "000002"] 8 in
  pc st = Exited 0 /\
  rows st = [{| email := ""; mcNumber := "MC-000002"; phone := "(555) 123-4567";
                url := mcToSnapshotUrl "000002" |}] /\
  validUrls st = [mcToSnapshotUrl "000002"].
Proof. vm_compute. repeat split. Qed.

(** Hop 2 fails three times, slowly: 300 ms of pacing, three refusals of
    3000 ms and the waits of 2000, 4000 and 8000 ms pass the 20000 ms of
    the extraction timer, and the process ends before the third wait is
    over. *)
Example extraction_timer_fires :
  fst (handleMC slow_sms_net plain_URL Both "123456" tstate0) = Fatal /\
  pc (run_for (sample_world slow_sms_net) default_config ["123456"] 8) = Exited 1 /\
  log (run_for (sample_world slow_sms_net) default_config ["123456"] 8)
    = [RWave 0 [trace (snd (handleMC slow_sms_net plain_URL Both "123456" tstate0))]].
Proof. vm_compute. repeat split. Qed.

(** ** Patterns of the form [c+] *)

Lemma rep_loop_free (m1 : string -> caps -> cont -> answer) (k : cont)
    (fuel : nat) (s : string) (c : caps) :
  rep_loop m1 true k (S fuel) 0 None s c =
  match m1 s c (fun s' c' =>
                  if String.length s' =? String.length s then None
                  else rep_loop m1 true k fuel 0 None s' c') with
  | Some x => Some x
  | None => k s c
  end.
Proof. reflexivity. Qed.

Lemma rep_loop_cls_greedy (p : ascii -> bool) :
  forall s fuel c,
    String.length s < fuel ->
    rep_loop (rmatch (Cls p)) true (fun s' c' => Some (s', c')) fuel 0 None s c
    = Some (drop_while p s, c).
Proof.
  induction s as [|a s IH]; intros fuel c Hf; (destruct fuel as [|fuel]; [simpl in Hf; lia|]);
    rewrite rep_loop_free.
  - reflexivity.
  - cbn [rmatch drop_while].
    destruct (p a); [|reflexivity].
    assert (Hl : (String.length s =? String.length (String a s)) = false).
    { apply Nat.eqb_neq. simpl. lia. }
    rewrite Hl, IH by (simpl in Hf; lia). reflexivity.
Qed.

Lemma rep_loop_due (m1 : string -> caps -> cont -> answer) (g : bool) (k : cont)
    (fuel lo : nat) (s : string) (c : caps) :
  rep_loop m1 g k (S fuel) (S lo) None s c =
  m1 s c (fun s' c' => rep_loop m1 g k fuel lo None s' c').
Proof. reflexivity. Qed.

Lemma rmatch_plus_cls (p : ascii -> bool) (s : string) (c : caps) :
  rmatch (plus (Cls p)) s c (fun s' c' => Some (s', c')) =
  match s with
  | String a s' => if p a then Some (drop_while p s', c) else None
  | EmptyString => None
  end.
Proof.
  unfold plus.
  change (rmatch (Rep true 1 None (Cls p)) s c (fun s' c' => Some (s', c')))
    with (rep_loop (rmatch (Cls p)) true (fun s' c' => Some (s', c'))
            (1 + String.length s + 1) 1 None s c).
  replace (1 + String.length s + 1) with (S (S (String.length s))) by lia.
  rewrite rep_loop_due.
  destruct s as [|a s]; [reflexivity|]. cbn [rmatch].
  destruct (p a); [|reflexivity].
  apply rep_loop_cls_greedy. simpl. lia.
Qed.

Lemma length_drop_while (p : ascii -> bool) (s : string) :
  String.length (drop_while p s) <= String.length s.
Proof.
  induction s as [|a s IH]; simpl; [lia|]. destruct (p a); simpl; lia.
Qed.

Lemma collapse_drop_while (p : ascii -> bool) (by_ s : string) :
  collapse true p by_ s = collapse false p by_ (drop_while p s).
Proof.
  induction s as [|a s IH]; [reflexivity|]. cbn [collapse drop_while].
  destruct (p a) eqn:Hp; [exact IH|]. cbn [collapse]. now rewrite Hp.
Qed.

Lemma exec_at_plus_found (p : ascii -> bool) (s : string) :
  forall idx m,
    exec_at (plus (Cls p)) s idx = Some m ->
    (exists a t, m_text m = String a t) /\
    String.length (m_rest m) < String.length s /\
    forall by_,
      collapse false p by_ s =
      substring 0 (m_index m - idx) s +++ by_ +++ collapse false p by_ (m_rest m).
Proof.
  induction s as [|a s IH]; intros idx m H; cbn [exec_at] in H;
    rewrite rmatch_plus_cls in H.
  - discriminate.
  - destruct (p a) eqn:Hp.
    + inversion H; subst m; clear H. cbn [m_text m_rest m_index].
      pose proof (length_drop_while p s) as Hl.
      split.
      { unfold consumed. cbn [String.length].
        destruct (S (String.length s) - String.length (drop_while p s)) as [|n] eqn:E;
          [lia|]. cbn [substring]. eauto. }
      split; [simpl; lia|].
      intros by_. rewrite Nat.sub_diag. cbn [substring collapse append].
      now rewrite Hp, collapse_drop_while.
    + destruct (IH _ _ H) as (Ht & Hl & Hc).
      split; [exact Ht|]. split; [simpl; lia|].
      intros by_. cbn [collapse]. rewrite Hp, Hc.
      assert (Hi : S idx <= m_index m).
      { clear - H. revert H. generalize (S idx). revert m.
        induction s as [|b s IHs]; intros m n H; cbn [exec_at] in H;
          rewrite rmatch_plus_cls in H; [discriminate|].
        destruct (p b); [inversion H; simpl; lia|].
        apply IHs in H. lia. }
      destruct (m_index m - idx) as [|k] eqn:Hk; [lia|].
      replace (m_index m - S idx) with k by lia. reflexivity.
Qed.

Lemma exec_at_plus_none (p : ascii -> bool) (s : string) :
  forall idx by_,
    exec_at (plus (Cls p)) s idx = None -> collapse false p by_ s = s.
Proof.
  induction s as [|a s IH]; intros idx by_ H; [reflexivity|].
  cbn [exec_at] in H. rewrite rmatch_plus_cls in H. cbn [collapse].
  destruct (p a); [discriminate|]. now rewrite (IH _ _ H).
Qed.

(** [s.replace(/c+/g, by)] replaces every maximal run. *)
Lemma replace_all_plus (p : ascii -> bool) (by_ s : string) :
  replace_all (plus (Cls p)) by_ s = collapse false p by_ s.
Proof.
  unfold replace_all.
  assert (H : forall fuel t, String.length t < fuel ->
            replace_loop fuel (plus (Cls p)) by_ t = collapse false p by_ t).
  { induction fuel as [|fuel IH]; intros t Hlen; [lia|].
    cbn [replace_loop]. unfold exec.
    destruct (exec_at (plus (Cls p)) t 0) as [m|] eqn:He.
    - destruct (exec_at_plus_found _ _ _ _ He) as ((a & u & Ht) & Hl & Hc).
      rewrite Ht, (Hc by_), Nat.sub_0_r, IH by lia. reflexivity.
    - symmetry. eapply exec_at_plus_none; eassumption. }
  apply H. lia.
Qed.

Lemma collapse_remove (p : ascii -> bool) (s : string) :
  forall b, collapse b p "" s = remove_chars p s.
Proof.
  induction s as [|a s IH]; intros b; [reflexivity|]. cbn [collapse remove_chars].
  destruct (p a); [destruct b; cbn [append]; apply IH|]. now rewrite IH.
Qed.

(** ** The lookup URL (lines 29-32) *)

Lemma all_chars_app (p : ascii -> bool) (a b : string) :
  all_chars p (a +++ b) = all_chars p a && all_chars p b.
Proof.
  induction a as [|c a IH]; [reflexivity|]. cbn [append all_chars].
  now rewrite IH, andb_assoc.
Qed.

Lemma encode_char_cases (c : ascii) :
  forall rest,
    decode_head
      ((if uri_unreserved c then String c ""
        else if code c <? 128 then pct (code c)
        else pct (192 + code c / 64) +++ pct (128 + code c mod 64)) +++ rest)
    = Some (c, rest).
Proof. destruct c as [[] [] [] [] [] [] [] []]; intros rest; reflexivity. Qed.

Lemma encode_char_safe (c : ascii) :
  all_chars url_safe
    (if uri_unreserved c then String c ""
     else if code c <? 128 then pct (code c)
     else pct (192 + code c / 64) +++ pct (128 + code c mod 64)) = true.
Proof. destruct c as [[] [] [] [] [] [] [] []]; reflexivity. Qed.

Lemma encodeURIComponent_inj (a : string) :
  forall b, encodeURIComponent a = encodeURIComponent b -> a = b.
Proof.
  induction a as [|c a IH]; intros [|d b] H.
  - reflexivity.
  - apply (f_equal decode_head) in H. cbn [encodeURIComponent] in H.
    rewrite encode_char_cases in H. discriminate.
  - apply (f_equal decode_head) in H. cbn [encodeURIComponent] in H.
    rewrite encode_char_cases in H. discriminate.
  - apply (f_equal decode_head) in H. cbn [encodeURIComponent] in H.
    rewrite !encode_char_cases in H. inversion H; subst. f_equal. now apply IH.
Qed.

Lemma encodeURIComponent_safe (s : string) :
  all_chars url_safe (encodeURIComponent s) = true.
Proof.
  induction s as [|c s IH]; [reflexivity|]. cbn [encodeURIComponent].
  now rewrite all_chars_app, encode_char_safe, IH.
Qed.

Lemma mcToSnapshotUrl_eq (mc : string) :
  mcToSnapshotUrl mc =
  SNAPSHOT_PREFIX +++ encodeURIComponent (remove_chars is_space mc).
Proof.
  unfold mcToSnapshotUrl. unfold space.
  now rewrite replace_all_plus, collapse_remove.
Qed.

(** Two identifiers have the same lookup URL exactly when they are equal
    once all white space is removed; the part of the URL after the fixed
    prefix consists of unreserved characters and escapes only. *)
Theorem lookup_url_identifies (a b : string) :
  (mcToSnapshotUrl a = mcToSnapshotUrl b <->
   remove_chars is_space a = remove_chars is_space b) /\
  exists q,
    mcToSnapshotUrl a = SNAPSHOT_PREFIX +++ q /\ all_chars url_safe q = true.
Proof.
  split.
  - rewrite !mcToSnapshotUrl_eq. split.
    + intros H. apply append_inj_l in H. now apply encodeURIComponent_inj.
    + now intros ->.
  - exists (encodeURIComponent (remove_chars is_space a)).
    split; [apply mcToSnapshotUrl_eq | apply encodeURIComponent_safe].
Qed.

Lemma lookup_url_identifies_witness :
  mcToSnapshotUrl " 12 34 " = mcToSnapshotUrl "1234".
Proof.
  apply (proj1 (lookup_url_identifies " 12 34 " "1234")). reflexivity.
Defined.

(** ** [trim] and [htmlToText] (lines 64-73) *)

Lemma rev_string_acc (s : string) :
  forall acc, rev_string acc s = rev_string "" s +++ acc.
Proof.
  induction s as [|c s IH]; intros acc; [reflexivity|]. cbn [rev_string].
  rewrite (IH (String c acc)), (IH (String c "")), append_assoc. reflexivity.
Qed.

Lemma rev_string_app (a b : string) :
  rev_string "" (a +++ b) = rev_string "" b +++ rev_string "" a.
Proof.
  induction a as [|c a IH]; cbn [append rev_string].
  - now rewrite append_nil_r.
  - rewrite (rev_string_acc (a +++ b)), (rev_string_acc a), IH, append_assoc.
    reflexivity.
Qed.

Lemma rev_string_involutive (s : string) : rev_string "" (rev_string "" s) = s.
Proof.
  induction s as [|c s IH]; [reflexivity|]. cbn [rev_string].
  rewrite (rev_string_acc s (String c "")), rev_string_app, IH. reflexivity.
Qed.

Lemma all_chars_rev (p : ascii -> bool) (s : string) :
  all_chars p (rev_string "" s) = all_chars p s.
Proof.
  induction s as [|c s IH]; [reflexivity|]. cbn [rev_string].
  rewrite (rev_string_acc s (String c "")), all_chars_app, IH. cbn [all_chars].
  rewrite andb_true_r. apply andb_comm.
Qed.

Lemma trimStart_split (s : string) :
  exists ws,
    s = ws +++ trimStart s /\ all_chars is_space ws = true /\
    starts_with_space (trimStart s) = false.
Proof.
  induction s as [|c s (ws & Hs & Hw & Ht)].
  - now exists "".
  - cbn [trimStart]. destruct (is_space c) eqn:Hc.
    + exists (String c ws). cbn [append all_chars]. rewrite Hc, Hw, <- Hs. auto.
    + exists "". cbn. auto.
Qed.

Lemma starts_with_space_app (a b : string) :
  a <> "" -> starts_with_space (a +++ b) = starts_with_space a.
Proof. destruct a; [congruence | reflexivity]. Qed.

(** [trim] removes white space at both ends, and nothing else. *)
Lemma trim_split (s : string) :
  exists a z,
    s = a +++ trim s +++ z /\
    all_chars is_space a = true /\ all_chars is_space z = true /\
    starts_with_space (trim s) = false /\
    starts_with_space (rev_string "" (trim s)) = false.
Proof.
  unfold trim.
  destruct (trimStart_split s) as (a & Hs & Ha & Hu).
  set (u := trimStart s) in *.
  destruct (trimStart_split (rev_string "" u)) as (b & Hr & Hb & Hv).
  set (v := trimStart (rev_string "" u)) in *.
  assert (Hu' : u = rev_string "" v +++ rev_string "" b).
  { rewrite <- (rev_string_involutive u), Hr. apply rev_string_app. }
  exists a, (rev_string "" b).
  split; [now rewrite <- Hu'|]. split; [exact Ha|].
  split; [now rewrite all_chars_rev|].
  split; [|now rewrite rev_string_involutive].
  destruct (rev_string "" v) as [|c t] eqn:E; [reflexivity|].
  rewrite Hu' in Hu. exact Hu.
Qed.

Lemma spaced_suffix (a u : string) : spaced (a +++ u) = true -> spaced u = true.
Proof.
  induction a as [|c a IH]; [auto|]. cbn [append spaced].
  intros H. apply andb_true_iff in H. now apply IH.
Qed.

Lemma spaced_collapse (s : string) :
  spaced (collapse false is_space " " s) = true /\
  spaced (collapse true is_space " " s) = true /\
  starts_with_space (collapse true is_space " " s) = false.
Proof.
  induction s as [|c s (IH1 & IH2 & IH3)]; [auto|].
  cbn [collapse]. destruct (is_space c) eqn:Hc.
  - cbn [append spaced starts_with_space]. rewrite IH2, IH3. auto.
  - cbn [spaced starts_with_space]. rewrite Hc, IH1. auto.
Qed.

Lemma spaced_prefix (r : string) :
  forall z,
    spaced (r +++ z) = true ->
    starts_with_space (rev_string "" r) = false ->
    single_spaced r = true.
Proof.
  induction r as [|c r IH]; intros z Hs He; [reflexivity|].
  cbn [append spaced] in Hs. apply andb_true_iff in Hs. destruct Hs as [Hc Hs].
  cbn [rev_string] in He. rewrite (rev_string_acc r (String c "")) in He.
  cbn [single_spaced]. destruct r as [|d r].
  - cbn in He. rewrite He. reflexivity.
  - assert (Hne : rev_string "" (String d r) <> "").
    { cbn [rev_string]. rewrite (rev_string_acc r (String d "")).
      destruct (rev_string "" r); discriminate. }
    rewrite (starts_with_space_app _ _ Hne) in He.
    rewrite (IH z Hs He), andb_true_r.
    destruct (is_space c); [|reflexivity].
    cbn [append starts_with_space] in Hc. exact Hc.
Qed.

(** The text of [htmlToText] is normalised: it neither starts nor ends
    with white space, and its only white space is single blanks between
    other characters. *)
Theorem htmlToText_normalised (s : string) :
  starts_with_space (htmlToText s) = false /\
  single_spaced (htmlToText s) = true.
Proof.
  unfold htmlToText. destruct (negb (truthy s)); [auto|].
  change space with (Cls is_space). rewrite replace_all_plus.
  match goal with |- context [collapse false is_space " " ?x] => set (t := x) end.
  destruct (trim_split (collapse false is_space " " t)) as (a & z & Hs & _ & _ & Hb & He).
  split; [exact Hb|].
  apply (spaced_prefix _ z); [|exact He].
  apply (spaced_suffix a). rewrite <- Hs. apply spaced_collapse.
Qed.

(** ** The registry number and the coarse phone (lines 75-78, 86-94) *)

Lemma matches_cat_inv (r1 r2 : regex) (s : string) :
  matches (Cat r1 r2) s ->
  exists s1 s2, s = s1 +++ s2 /\ matches r1 s1 /\ matches r2 s2.
Proof. intros H. inversion H; subst. eauto. Qed.

Lemma matches_times_cls (r : regex) (s : string) :
  matches r s ->
  forall g lo h p,
    r = Rep g lo (Some h) (Cls p) -> lo <= h ->
    lo <= String.length s /\ String.length s <= h.
Proof.
  induction 1 as [ | | | | | | | |g0 lo0 hi0 r0 s1 s2 Hhi H1 _ H2 IH2];
    intros g' lo' h' q E Hle; try discriminate.
  - inversion E; subst. simpl. lia.
  - inversion E; subst. simpl. lia.
  - inversion E; subst.
    apply matches_cls_inv in H1. destruct H1 as (c & -> & Hc).
    destruct h' as [|h']; [congruence|].
    destruct (IH2 _ _ _ _ eq_refl) as [Ha Hb]; [simpl; lia|].
    cbn [append String.length]. lia.
Qed.

(** The group at the end of a sequence holds a string of its pattern,
    taken from the subject. *)
Lemma rmatch_ends_with_group (n : nat) (e : regex) (r : regex) :
  ends_with_group n e r ->
  forall s c x,
    rmatch r s c (fun s' c' => Some (s', c')) = Some x ->
    exists pre v,
      s = pre +++ v +++ fst x /\
      group_in n (snd x) = Some v /\ matches e v.
Proof.
  induction r as [|p|r1 _ r2 IH2|r1 _ r2 _|g lo hi r1 _|m r1 _];
    cbn [ends_with_group]; try contradiction.
  - intros He s c x H. rewrite rmatch_cat in H.
    destruct (rmatch_sound r1 _ _ _ _ H) as (pre1 & s1 & c1 & Hs & _ & H1).
    destruct (IH2 He _ _ _ H1) as (pre & v & Hs1 & Hg & Hm).
    exists (pre1 +++ pre), v. split; [|now split].
    now rewrite Hs, Hs1, append_assoc.
  - intros [-> ->] s c x H. rewrite rmatch_grp in H.
    destruct (rmatch_sound e _ _ _ _ H) as (v & s' & c' & Hs & Hm & Hk).
    rewrite Hs, consumed_app in Hk. inversion Hk; subst x.
    exists "", v. cbn [fst snd group_in append]. rewrite Nat.eqb_refl.
    now repeat split.
Qed.

Lemma exec_ends_with_group (n : nat) (e r : regex) (s : string) (m : rmatch_result) :
  ends_with_group n e r ->
  exec r s = Some m ->
  exists before v after,
    s = before +++ v +++ after /\ group_str n m = v /\ matches e v.
Proof.
  intros He H. unfold exec in H.
  destruct (exec_at_sound _ _ _ _ H) as (skipped & Hs & _ & _ & Hr).
  destruct (rmatch_ends_with_group n e r He _ _ _ Hr) as (pre & v & Hs1 & Hg & Hm).
  cbn [fst snd] in Hs1, Hg.
  exists (skipped +++ pre), v, (m_rest m).
  split; [now rewrite Hs, Hs1, append_assoc|].
  split; [|exact Hm]. unfold group_str, group. now rewrite Hg.
Qed.

Lemma first_pat_form (e : regex) (html : string) (ps : list regex) :
  Forall (ends_with_group 1 e) ps ->
  first_pat ps html = "" \/
  exists before d after,
    html = before +++ d +++ after /\
    first_pat ps html = "MC-" +++ d /\ matches e d.
Proof.
  induction 1 as [|p ps Hp _ IH]; [now left|]. cbn [first_pat].
  destruct (exec p html) as [m|] eqn:He; [|exact IH].
  destruct (truthy (group_str 1 m)); [|exact IH].
  destruct (exec_ends_with_group 1 e p html m Hp He) as (b & v & a & Hs & Hg & Hm).
  right. exists b, v, a. rewrite Hg. now repeat split.
Qed.

(** The registry number is empty or ["MC-"] followed by three to seven
    digits that stand together in the page. *)
Theorem extractMcNumber_form (html : string) :
  extractMcNumber html = "" \/
  exists before d after,
    html = before +++ d +++ after /\
    extractMcNumber html = "MC-" +++ d /\
    all_chars is_digit d = true /\
    3 <= String.length d <= 7.
Proof.
  assert (Hd : forall d, matches (times 3 7 digit) d ->
                 all_chars is_digit d = true /\ 3 <= String.length d <= 7).
  { intros d Hm. split.
    - exact (matches_rep_cls _ _ Hm _ _ _ _ eq_refl).
    - apply (matches_times_cls _ _ Hm true 3 7 is_digit eq_refl). lia. }
  assert (Hps : Forall (ends_with_group 1 (times 3 7 digit)) pats).
  { unfold pats, mcRe. repeat constructor. }
  unfold extractMcNumber.
  destruct (first_pat_form _ html pats Hps) as [E|(b & d & a & Hs & E & Hm)].
  - rewrite E. cbn [truthy].
    destruct (exec mcRe html) as [m|] eqn:He; [|now left].
    destruct (truthy (group_str 1 m)); [|now left].
    assert (Hmc : ends_with_group 1 (times 3 7 digit) mcRe)
      by (unfold mcRe; repeat constructor).
    destruct (exec_ends_with_group 1 _ mcRe html m Hmc He) as (b & v & a & Hs & Hg & Hm).
    right. exists b, v, a. rewrite Hg. destruct (Hd v Hm). now repeat split.
  - rewrite E. cbn [append truthy].
    right. exists b, d, a. destruct (Hd d Hm). now repeat split.
Qed.

Lemma count_chars_app (p : ascii -> bool) (a b : string) :
  count_chars p (a +++ b) = count_chars p a + count_chars p b.
Proof.
  induction a as [|c a IH]; [reflexivity|]. cbn [append count_chars].
  rewrite IH. lia.
Qed.

Lemma count_chars_all (p : ascii -> bool) (s : string) :
  all_chars p s = true -> count_chars p s = String.length s.
Proof.
  induction s as [|c s IH]; [reflexivity|]. cbn [all_chars count_chars String.length].
  intros H. apply andb_true_iff in H. destruct H as [Hc Hs].
  now rewrite Hc, IH.
Qed.

Lemma count_chars_none (p q : ascii -> bool) (s : string) :
  (forall c, q c = true -> p c = false) ->
  all_chars q s = true -> count_chars p s = 0.
Proof.
  intros Hpq. induction s as [|c s IH]; [reflexivity|]. cbn [all_chars count_chars].
  intros H. apply andb_true_iff in H. destruct H as [Hc Hs].
  now rewrite (Hpq c Hc), IH.
Qed.

Lemma all_chars_weaken (p q : ascii -> bool) (s : string) :
  (forall c, p c = true -> q c = true) ->
  all_chars p s = true -> all_chars q s = true.
Proof.
  intros Hpq. induction s as [|c s IH]; [reflexivity|]. cbn [all_chars].
  intros H. apply andb_true_iff in H. destruct H as [Hc Hs].
  now rewrite (Hpq c Hc), IH.
Qed.

Lemma phone_sep_facts (c : ascii) :
  (is_space c || one_of "-." c = true -> is_digit c = false) /\
  (is_space c || one_of "-." c = true -> phone_char c = true) /\
  (Ascii.eqb "(" c = true -> is_digit c = false) /\
  (Ascii.eqb "(" c = true -> phone_char c = true) /\
  (Ascii.eqb ")" c = true -> is_digit c = false) /\
  (Ascii.eqb ")" c = true -> phone_char c = true) /\
  (is_digit c = true -> phone_char c = true).
Proof.
  destruct c as [[] [] [] [] [] [] [] []]; cbv; repeat split; congruence.
Qed.

(** The coarse phone is empty or a piece of the page with exactly ten
    digits, written with digits, brackets, white space, dashes and dots
    only. *)
Theorem extractPhoneAnywhere_form (html : string) :
  extractPhoneAnywhere html = "" \/
  exists before after,
    html = before +++ extractPhoneAnywhere html +++ after /\
    count_chars is_digit (extractPhoneAnywhere html) = 10 /\
    all_chars phone_char (extractPhoneAnywhere html) = true.
Proof.
  unfold extractPhoneAnywhere, exec.
  destruct (exec_at phoneRe html 0) as [m|] eqn:He; [|now left].
  right. destruct (exec_at_sound _ _ _ _ He) as (skipped & Hs & _ & Hm & _).
  exists skipped, (m_rest m). split; [exact Hs|].
  unfold phoneRe in Hm. cbn [seq] in Hm.
  apply matches_cat_inv in Hm. destruct Hm as (t1 & u1 & -> & H1 & Hm).
  apply matches_cat_inv in Hm. destruct Hm as (t2 & u2 & -> & H2 & Hm).
  apply matches_cat_inv in Hm. destruct Hm as (t3 & u3 & -> & H3 & Hm).
  apply matches_cat_inv in Hm. destruct Hm as (t4 & u4 & -> & H4 & Hm).
  apply matches_cat_inv in Hm. destruct Hm as (t5 & u5 & -> & H5 & Hm).
  apply matches_cat_inv in Hm. destruct Hm as (t6 & t7 & -> & H6 & H7).
  pose proof (matches_rep_cls _ _ H1 _ _ _ _ eq_refl) as A1.
  pose proof (matches_rep_cls _ _ H2 _ _ _ _ eq_refl) as A2.
  pose proof (matches_rep_cls _ _ H3 _ _ _ _ eq_refl) as A3.
  pose proof (matches_rep_cls _ _ H4 _ _ _ _ eq_refl) as A4.
  pose proof (matches_rep_cls _ _ H5 _ _ _ _ eq_refl) as A5.
  pose proof (matches_rep_cls _ _ H6 _ _ _ _ eq_refl) as A6.
  pose proof (matches_rep_cls _ _ H7 _ _ _ _ eq_refl) as A7.
  pose proof (matches_times_cls _ _ H2 true 3 3 is_digit eq_refl (le_n 3)) as L2.
  pose proof (matches_times_cls _ _ H5 true 3 3 is_digit eq_refl (le_n 3)) as L5.
  pose proof (matches_times_cls _ _ H7 true 4 4 is_digit eq_refl (le_n 4)) as L7.
  split.
  - rewrite !count_chars_app.
    rewrite (count_chars_none is_digit _ t1 (fun c => proj1 (proj2 (proj2 (phone_sep_facts c)))) A1).
    rewrite (count_chars_none is_digit _ t3
               (fun c => proj1 (proj2 (proj2 (proj2 (proj2 (phone_sep_facts c)))))) A3).
    rewrite (count_chars_none is_digit _ t4 (fun c => proj1 (phone_sep_facts c)) A4).
    rewrite (count_chars_none is_digit _ t6 (fun c => proj1 (phone_sep_facts c)) A6).
    rewrite (count_chars_all _ _ A2), (count_chars_all _ _ A5), (count_chars_all _ _ A7).
    lia.
  - rewrite !all_chars_app.
    rewrite (all_chars_weaken _ phone_char t1
               (fun c => proj1 (proj2 (proj2 (proj2 (phone_sep_facts c))))) A1).
    rewrite (all_chars_weaken _ phone_char t3
               (fun c => proj1 (proj2 (proj2 (proj2 (proj2 (proj2 (phone_sep_facts c))))))) A3).
    rewrite (all_chars_weaken _ phone_char t4 (fun c => proj1 (proj2 (phone_sep_facts c))) A4).
    rewrite (all_chars_weaken _ phone_char t6 (fun c => proj1 (proj2 (phone_sep_facts c))) A6).
    rewrite (all_chars_weaken _ phone_char t2
               (fun c => proj2 (proj2 (proj2 (proj2 (proj2 (proj2 (phone_sep_facts c))))))) A2).
    rewrite (all_chars_weaken _ phone_char t5
               (fun c => proj2 (proj2 (proj2 (proj2 (proj2 (proj2 (phone_sep_facts c))))))) A5).
    rewrite (all_chars_weaken _ phone_char t7
               (fun c => proj2 (proj2 (proj2 (proj2 (proj2 (proj2 (phone_sep_facts c))))))) A7).
    reflexivity.
Qed.

(** ** When the power units count as zero (lines 148-151) *)

Lemma digit_zero (c : ascii) :
  is_digit c = true ->
  (N.of_nat (code c - 48) =? 0)%N = Ascii.eqb c "0" /\ Ascii.eqb c "," = false.
Proof.
  destruct c as [[] [] [] [] [] [] [] []]; cbv; intros H; split; congruence.
Qed.

Lemma figure_value_zero (fig : string) :
  all_chars (fun c => is_digit c || Ascii.eqb c ",") fig = true ->
  forall acc,
    figure_value_from acc fig = Some 0%N <->
    acc = 0%N /\ all_chars zero_or_comma fig = true.
Proof.
  induction fig as [|c fig IH]; intros Hall acc.
  - cbn. split; [intros H; inversion H; auto | intros [-> _]; reflexivity].
  - cbn [all_chars] in Hall. apply andb_true_iff in Hall. destruct Hall as [Hc Hall].
    cbn [figure_value_from all_chars]. unfold zero_or_comma at 1.
    destruct (Ascii.eqb c ",") eqn:Hcomma.
    + rewrite orb_true_r. cbn [andb]. now apply IH.
    + rewrite orb_false_r in Hc. rewrite Hc, orb_false_r.
      destruct (digit_zero c Hc) as [Hz _]. rewrite (IH Hall). rewrite <- Hz.
      split.
      * intros [H1 H2]. split; [lia|]. rewrite H2, andb_true_r.
        apply N.eqb_eq. lia.
      * intros [-> H]. apply andb_true_iff in H. destruct H as [H1 H2].
        apply N.eqb_eq in H1. split; [lia | exact H2].
Qed.

(** The power units count as zero exactly when the figure that the
    pattern locates is written with zeros and commas only. *)
Theorem puZero_iff_zeros (html : string) :
  puZero html = true <->
  exists fig,
    power_units_figure html = Some fig /\ all_chars zero_or_comma fig = true.
Proof.
  rewrite puZero_figure.
  destruct (power_units_figure html) as [fig|] eqn:Hf.
  - destruct (power_units_figure_shape _ _ Hf)
      as (_ & _ & _ & _ & _ & _ & _ & _ & _ & _ & _ & _ & Hall).
    pose proof (figure_value_zero fig Hall 0%N) as Hz. unfold figure_read.
    split.
    + intros H. exists fig. split; [reflexivity|].
      destruct (figure_value_from 0 fig) as [[|p]|]; try discriminate.
      now apply Hz.
    + intros (fig' & E & Hzc). inversion E; subst fig'.
      rewrite (proj2 Hz (conj eq_refl Hzc)). reflexivity.
  - split; [discriminate|]. intros (fig & E & _). discriminate.
Qed.

Lemma puZero_iff_zeros_witness : puZero "Power Units: 0,000 Drivers: 4" = true.
Proof.
  apply (proj2 (puZero_iff_zeros "Power Units: 0,000 Drivers: 4")).
  exists "0,000". split; reflexivity.
Defined.

(** ** What a pipeline asks of the network *)

Section PipelineBounds.

Variable net : nat -> string -> reply.
Variable URL_href : string -> string -> option string.

Lemma fetchRetry_loop_wait (url_ : string) (timeout : N) (label : string) :
  forall n i lastErr st,
  exists r st' evs,
    fetchRetry_loop net n i lastErr url_ timeout label st = (r, st') /\
    trace st' = trace st ++ evs /\
    (total_sleep evs <= sum_upto (fun j => backoff (i + j)) n)%N.
Proof.
  induction n as [|n IH]; intros i lastErr st.
  - do 2 eexists. exists []. split; [reflexivity|].
    split; [now rewrite app_nil_r | simpl; lia].
  - rewrite fetchRetry_loop_S, sum_upto_shift, Nat.add_0_r.
    rewrite (sum_upto_ext (fun j => backoff (i + S j)) (fun j => backoff (S i + j)))
      by (intros j _; f_equal; lia).
    destruct (round_cases net url_ timeout label st) as (r & st1 & H & Hf & Htr & Hc).
    rewrite H.
    assert (Hpos : (0 <= sum_upto (fun j => backoff (S i + j)) n)%N) by lia.
    destruct r as [t|e|].
    + exists (Val t), st1, [EvFetch url_]. repeat split; [exact Htr | simpl; lia].
    + destruct (sleep_cases (backoff i) st1) as (r2 & st2 & H2 & Hf2 & Htr2 & Hc2).
      rewrite H2.
      destruct (IH (S i) (Some e) st2) as (r3 & st3 & evs & H3 & Htr3 & Hw).
      destruct Hc2 as [[-> _]|[-> _]].
      * exists r3, st3, (EvFetch url_ :: EvSleep (backoff i) :: evs).
        split; [exact H3|]. split.
        -- rewrite Htr3, Htr2, Htr, <- !app_assoc. reflexivity.
        -- cbn [total_sleep]. lia.
      * exists Fatal, st2, [EvFetch url_; EvSleep (backoff i)].
        split; [reflexivity|]. split.
        -- rewrite Htr2, Htr, <- !app_assoc. reflexivity.
        -- cbn [total_sleep]. lia.
    + exists Fatal, st1, [EvFetch url_]. repeat split; [exact Htr | simpl; lia].
Qed.

(** Whatever the network does, the waits of one call of [fetchRetry] add
    up to at most [BACKOFF_BASE_MS * (2^tries - 1)]: 14 seconds for the
    three attempts the program uses. *)
Theorem fetchRetry_wait_bound (url_ : string) (tries : nat) (timeout : N)
    (label : string) (st : tstate) :
  exists r st' evs,
    fetchRetry net url_ tries timeout label st = (r, st') /\
    trace st' = trace st ++ evs /\
    (total_sleep evs <= BACKOFF_BASE_MS * (2 ^ N.of_nat tries - 1))%N /\
    (BACKOFF_BASE_MS * (2 ^ N.of_nat MAX_RETRIES - 1) = 14000)%N.
Proof.
  destruct (fetchRetry_loop_wait url_ timeout label tries 0 None st)
    as (r & st' & evs & H & Htr & Hw).
  exists r, st', evs. split; [exact H|]. split; [exact Htr|].
  split; [|reflexivity].
  rewrite <- sum_backoff_closed. exact Hw.
Qed.

Lemma deep_trace (smsLink phone0 : string) (st : tstate) :
  exists r st' evs,
    deep net URL_href smsLink phone0 st = (r, st') /\
    trace st' = trace st ++ evs /\
    count_fetches evs <= 2 * MAX_RETRIES /\
    (forall e, r <> Exn e).
Proof.
  unfold deep. destruct (truthy smsLink).
  2:{ do 2 eexists. exists []. split; [reflexivity|].
      split; [now rewrite app_nil_r|]. split; [unfold MAX_RETRIES in *; simpl; lia | discriminate]. }
  unfold bind at 1.
  destruct (sleep_cases 300 st) as (r1 & st1 & H1 & _ & Htr1 & Hc1). rewrite H1.
  destruct Hc1 as [[-> _]|[-> _]].
  2:{ do 2 eexists. exists [EvSleep 300]. split; [reflexivity|].
      split; [exact Htr1|]. split; [unfold MAX_RETRIES in *; simpl; lia | discriminate]. }
  unfold try_catch, bind.
  destruct (fetchRetry net smsLink MAX_RETRIES FETCH_TIMEOUT_MS "sms" st1)
    as [r2 st2] eqn:H2.
  destruct (fetchRetry_trace _ _ _ _ _ _ _ _ H2) as (ev2 & Htr2 & _ & Hn2 & _).
  assert (Hbase : forall (x : res (string * string)),
            (forall e, x <> Exn e) ->
            exists r st' evs,
              (x, st2) = (r, st') /\ trace st' = trace st ++ evs /\
              count_fetches evs <= 2 * MAX_RETRIES /\ (forall e, r <> Exn e)).
  { intros x Hx. exists x, st2, (EvSleep 300 :: ev2). split; [reflexivity|].
    split; [rewrite Htr2, Htr1, <- app_assoc; reflexivity|].
    split; [unfold MAX_RETRIES in *; simpl; lia | exact Hx]. }
  destruct r2 as [smsHtml|e|]; [|apply Hbase; discriminate | apply Hbase; discriminate].
  destruct (truthy (find_regLink URL_href smsLink smsHtml));
    [|apply Hbase; discriminate].
  destruct (sleep_cases 300 st2) as (r3 & st3 & H3 & _ & Htr3 & Hc3). rewrite H3.
  destruct Hc3 as [[-> _]|[-> _]].
  2:{ do 2 eexists. exists (EvSleep 300 :: ev2 ++ [EvSleep 300]).
      split; [reflexivity|].
      split; [rewrite Htr3, Htr2, Htr1, <- !app_assoc; reflexivity|].
      split; [|discriminate].
      cbn [count_fetches]. rewrite count_fetches_app. unfold MAX_RETRIES in *; simpl; unfold MAX_RETRIES in *; lia. }
  destruct (fetchRetry net (find_regLink URL_href smsLink smsHtml) MAX_RETRIES
              FETCH_TIMEOUT_MS "registration" st3) as [r4 st4] eqn:H4.
  destruct (fetchRetry_trace _ _ _ _ _ _ _ _ H4) as (ev4 & Htr4 & _ & Hn4 & _).
  assert (Hlast : forall (x : res (string * string)),
            (forall e, x <> Exn e) ->
            exists r st' evs,
              (x, st4) = (r, st') /\ trace st' = trace st ++ evs /\
              count_fetches evs <= 2 * MAX_RETRIES /\ (forall e, r <> Exn e)).
  { intros x Hx. exists x, st4, (EvSleep 300 :: ev2 ++ EvSleep 300 :: ev4).
    split; [reflexivity|].
    split; [rewrite Htr4, Htr3, Htr2, Htr1, <- !app_assoc; reflexivity|].
    split; [|exact Hx].
    cbn [count_fetches]. rewrite count_fetches_app. unfold MAX_RETRIES in *; simpl; unfold MAX_RETRIES in *; lia. }
  destruct r4 as [regHtml|e|]; [|apply Hlast; discriminate | apply Hlast; discriminate].
  destruct (extractContacts regHtml) as [foundEmail foundPhone].
  apply Hlast. discriminate.
Qed.

(** A pipeline never throws, so [Promise.all] never rejects because of
    it, and from its start it sends at most [4 * MAX_RETRIES] requests: the
    lookup page twice, the SMS page and the registration page, each with
    its retries. *)
Theorem handleMC_bounded (m : mode) (mc : string) :
  exists r st',
    handleMC net URL_href m mc tstate0 = (r, st') /\
    (forall e, r <> Exn e) /\
    count_fetches (trace st') <= 4 * MAX_RETRIES.
Proof.
  rewrite handleMC_unfold. cbn zeta.
  destruct (fetchRetry net (mcToSnapshotUrl mc) MAX_RETRIES FETCH_TIMEOUT_MS
              "snapshot" tstate0) as [r1 st1] eqn:H1.
  destruct (fetchRetry_trace _ _ _ _ _ _ _ _ H1) as (ev1 & Htr1 & _ & Hn1 & _).
  cbn [tstate0 trace app] in Htr1.
  assert (Hstop : forall (x : res outcome),
            (forall e, x <> Exn e) ->
            exists r st',
              (x, st1) = (r, st') /\ (forall e, r <> Exn e) /\
              count_fetches (trace st') <= 4 * MAX_RETRIES).
  { intros x Hx. exists x, st1. split; [reflexivity|]. split; [exact Hx|].
    rewrite Htr1. unfold MAX_RETRIES in *; lia. }
  destruct r1 as [html|e|]; [|apply Hstop; discriminate | apply Hstop; discriminate].
  destruct (validity html); [|apply Hstop; discriminate | apply Hstop; discriminate].
  destruct m; [|apply Hstop; discriminate].
  rewrite extractOne_unfold.
  destruct (fetchRetry net (mcToSnapshotUrl mc) MAX_RETRIES FETCH_TIMEOUT_MS
              "snapshot" (arm st1)) as [r2 st2] eqn:H2.
  destruct (fetchRetry_trace _ _ _ _ _ _ _ _ H2) as (ev2 & Htr2 & _ & Hn2 & _).
  cbn [arm trace] in Htr2.
  destruct r2 as [html2|e|].
  - destruct (deep_trace (find_smsLink URL_href (mcToSnapshotUrl mc) html2)
                (extractPhoneAnywhere html2) st2) as (r3 & st3 & ev3 & H3 & Htr3 & Hn3 & Hx3).
    rewrite H3.
    assert (Hc : count_fetches (trace st3) <= 4 * MAX_RETRIES).
    { rewrite Htr3, Htr2, Htr1, !count_fetches_app. unfold MAX_RETRIES in *; lia. }
    destruct r3 as [ep|e|]; [| now elim (Hx3 e) |];
      do 2 eexists; (split; [reflexivity|]); (split; [discriminate|]); exact Hc.
  - do 2 eexists. split; [reflexivity|]. split; [discriminate|].
    cbn [disarm trace]. rewrite Htr2, Htr1, count_fetches_app. unfold MAX_RETRIES in *; lia.
  - do 2 eexists. split; [reflexivity|]. split; [discriminate|].
    rewrite Htr2, Htr1, count_fetches_app. unfold MAX_RETRIES in *; lia.
Qed.

(** *** The record on each path of [extractOne] (lines 99-135) *)

(** No SMS link on the lookup page: nothing more is requested and the
    record is the one of the lookup page, with an empty email. *)
Theorem no_link_record (mc html html2 : string) (st1 st2 : tstate) :
  fetchRetry net (mcToSnapshotUrl mc) MAX_RETRIES FETCH_TIMEOUT_MS "snapshot" tstate0
    = (Val html, st1) ->
  validity html = Valid ->
  fetchRetry net (mcToSnapshotUrl mc) MAX_RETRIES FETCH_TIMEOUT_MS "snapshot" (arm st1)
    = (Val html2, st2) ->
  find_smsLink URL_href (mcToSnapshotUrl mc) html2 = "" ->
  handleMC net URL_href Both mc tstate0 =
  (Val (with_row (mcToSnapshotUrl mc) (coarse_row (mcToSnapshotUrl mc) html2)),
   disarm st2).
Proof.
  intros H1 Hv H2 Hl. rewrite handleMC_unfold. cbn zeta.
  rewrite H1, Hv, extractOne_unfold, H2, Hl. unfold deep. cbn [truthy ret].
  unfold row_of, coarse_row. cbn [fst snd]. now rewrite !or_else_empty.
Qed.

(** The SMS page cannot be fetched. When the request of that page throws
    after its last attempt, the error is swallowed and the record is the
    one of the lookup page, with an empty email. When instead the
    extraction timer fires during the attempts and their waits, the process
    ends, [EXTRACT_TIMEOUT_MS] after the extraction began. *)
Theorem sms_failure_record (mc html html2 : string) (st1 st2 st3 st4 : tstate)
    (r : res string) :
  fetchRetry net (mcToSnapshotUrl mc) MAX_RETRIES FETCH_TIMEOUT_MS "snapshot" tstate0
    = (Val html, st1) ->
  validity html = Valid ->
  fetchRetry net (mcToSnapshotUrl mc) MAX_RETRIES FETCH_TIMEOUT_MS "snapshot" (arm st1)
    = (Val html2, st2) ->
  truthy (find_smsLink URL_href (mcToSnapshotUrl mc) html2) = true ->
  sleep 300 st2 = (Val tt, st3) ->
  fetchRetry net (find_smsLink URL_href (mcToSnapshotUrl mc) html2) MAX_RETRIES
    FETCH_TIMEOUT_MS "sms" st3 = (r, st4) ->
  (forall smsHtml, r <> Val smsHtml) ->
  match r with
  | Fatal =>
      handleMC net URL_href Both mc tstate0 = (Fatal, st4) /\
      clock st4 = (clock st1 + EXTRACT_TIMEOUT_MS)%N
  | _ =>
      handleMC net URL_href Both mc tstate0 =
      (Val (with_row (mcToSnapshotUrl mc) (coarse_row (mcToSnapshotUrl mc) html2)),
       disarm st4)
  end.
Proof.
  intros H1 Hv H2 Hl Hs H4 Hr.
  destruct r as [smsHtml|e|]; [now elim (Hr smsHtml) | |];
    rewrite handleMC_unfold; cbn zeta;
    rewrite H1, Hv, extractOne_unfold, H2; unfold deep; rewrite Hl;
    unfold bind at 1; rewrite Hs; unfold try_catch, bind; rewrite H4.
  - cbn [ret]. unfold row_of, coarse_row. cbn [fst snd]. now rewrite !or_else_empty.
  - split; [reflexivity|].
    destruct (fetchRetry_loop_fatal _ _ _ _ _ _ _ _ _ H4) as (dl & Hd & Hc).
    destruct (sleep_clock _ _ _ _ Hs) as [(_ & _ & Ht3)|(Hf & _)]; [|discriminate].
    destruct (fetchRetry_loop_trace net (mcToSnapshotUrl mc) FETCH_TIMEOUT_MS
                "snapshot" MAX_RETRIES 0 None (arm st1))
      as (r0 & st0 & evs & H0 & _ & _ & _ & _ & Ht2 & _).
    unfold fetchRetry in H2. rewrite H2 in H0. inversion H0; subst r0 st0.
    specialize (Ht2 ltac:(discriminate)).
    rewrite Ht3, Ht2 in Hd. cbn [arm timer] in Hd. inversion Hd. now rewrite Hc.
Qed.

(** All three pages are fetched: the email is the one found on the
    registration page, and the phone found there replaces the coarse one
    when there is one. *)
Theorem full_path_record (mc html html2 smsHtml regHtml : string)
    (st1 st2 st3 st4 st5 st6 : tstate) :
  fetchRetry net (mcToSnapshotUrl mc) MAX_RETRIES FETCH_TIMEOUT_MS "snapshot" tstate0
    = (Val html, st1) ->
  validity html = Valid ->
  fetchRetry net (mcToSnapshotUrl mc) MAX_RETRIES FETCH_TIMEOUT_MS "snapshot" (arm st1)
    = (Val html2, st2) ->
  truthy (find_smsLink URL_href (mcToSnapshotUrl mc) html2) = true ->
  sleep 300 st2 = (Val tt, st3) ->
  fetchRetry net (find_smsLink URL_href (mcToSnapshotUrl mc) html2) MAX_RETRIES
    FETCH_TIMEOUT_MS "sms" st3 = (Val smsHtml, st4) ->
  truthy (find_regLink URL_href
            (find_smsLink URL_href (mcToSnapshotUrl mc) html2) smsHtml) = true ->
  sleep 300 st4 = (Val tt, st5) ->
  fetchRetry net
    (find_regLink URL_href (find_smsLink URL_href (mcToSnapshotUrl mc) html2) smsHtml)
    MAX_RETRIES FETCH_TIMEOUT_MS "registration" st5 = (Val regHtml, st6) ->
  handleMC net URL_href Both mc tstate0 =
  (Val (with_row (mcToSnapshotUrl mc)
          {| email := fst (extractContacts regHtml);
             mcNumber := extractMcNumber html2;
             phone := if truthy (snd (extractContacts regHtml))
                      then snd (extractContacts regHtml)
                      else extractPhoneAnywhere html2;
             url := mcToSnapshotUrl mc |}),
   disarm st6).
Proof.
  intros H1 Hv H2 Hl Hs H4 Hr Hs2 H6. rewrite handleMC_unfold. cbn zeta.
  rewrite H1, Hv, extractOne_unfold, H2. unfold deep. rewrite Hl.
  unfold bind at 1. rewrite Hs. unfold try_catch, bind. rewrite H4, Hr, Hs2, H6.
  destruct (extractContacts regHtml) as [foundEmail foundPhone].
  cbn [ret fst snd]. unfold row_of. cbn [fst snd]. rewrite !or_else_empty.
  destruct (truthy foundPhone) eqn:Hp; rewrite ?or_else_empty; reflexivity.
Qed.

End PipelineBounds.

Lemma no_link_record_witness :
  fst (handleMC steady_net plain_URL Both "000002" tstate0) =
  Val (with_row (mcToSnapshotUrl "000002")
         (coarse_row (mcToSnapshotUrl "000002") sample_page)).
Proof.
  rewrite (no_link_record steady_net plain_URL "000002" sample_page sample_page
             (snd (fetchRetry steady_net (mcToSnapshotUrl "000002") MAX_RETRIES
                     FETCH_TIMEOUT_MS "snapshot" tstate0))
             (snd (fetchRetry steady_net (mcToSnapshotUrl "000002") MAX_RETRIES
                     FETCH_TIMEOUT_MS "snapshot"
                     (arm (snd (fetchRetry steady_net (mcToSnapshotUrl "000002")
                                  MAX_RETRIES FETCH_TIMEOUT_MS "snapshot" tstate0))))));
    reflexivity.
Defined.

Lemma sms_failure_record_witness :
  fst (handleMC no_sms_net plain_URL Both "123456" tstate0) =
  Val (with_row (mcToSnapshotUrl "123456")
         (coarse_row (mcToSnapshotUrl "123456") linked_page)).
Proof.
  destruct (sample_states no_sms_net) as [[[[[st1 st2] st3] st4] st5] st6] eqn:E.
  vm_compute in E. inversion E as [[E1 E2 E3 E4 E5 E6]].
  pose proof (sms_failure_record no_sms_net plain_URL "123456" linked_page
                linked_page st1 st2 st3 st4 (Exn (NetworkError "ECONNRESET"))) as H.
  cbv iota in H. rewrite H.
  - reflexivity.
  - subst st1. vm_compute. reflexivity.
  - reflexivity.
  - subst st1 st2. vm_compute. reflexivity.
  - reflexivity.
  - subst st2 st3. vm_compute. reflexivity.
  - subst st3 st4. vm_compute. reflexivity.
  - intros smsHtml. discriminate.
Defined.

Lemma full_path_record_witness :
  fst (handleMC full_net plain_URL Both "123456" tstate0) =
  Val (with_row (mcToSnapshotUrl "123456")
         {| email := "OWNER@EXAMPLE.COM"; mcNumber := "MC-123456";
            phone := "(555) 987-6543"; url := mcToSnapshotUrl "123456" |}).
Proof.
  destruct (sample_states full_net) as [[[[[st1 st2] st3] st4] st5] st6] eqn:E.
  vm_compute in E. inversion E as [[E1 E2 E3 E4 E5 E6]].
  rewrite (full_path_record full_net plain_URL "123456" linked_page linked_page
             sms_page reg_page st1 st2 st3 st4 st5 st6).
  - vm_compute. reflexivity.
  - subst st1. vm_compute. reflexivity.
  - reflexivity.
  - subst st1 st2. vm_compute. reflexivity.
  - reflexivity.
  - subst st2 st3. vm_compute. reflexivity.
  - subst st3 st4. vm_compute. reflexivity.
  - vm_compute. reflexivity.
  - subst st4 st5. vm_compute. reflexivity.
  - subst st5 st6. vm_compute. reflexivity.
Defined.

(** ** The schedule of a run (lines 176-215) *)


Lemma written_app (a b : list run_event) :
  written (a ++ b) = written a ++ written b.
Proof.
  induction a as [|[i tr|ms|p c] a IH]; cbn [app written]; auto.
  now rewrite IH.
Qed.

Lemma handleMC_never_throws (net : nat -> string -> reply)
    (URL_href : string -> string -> option string) (m : mode) (mc : string)
    (st : tstate) (e : error) :
  fst (handleMC net URL_href m mc st) <> Exn e.
Proof.
  rewrite handleMC_unfold. cbn zeta.
  destruct (fetchRetry _ _ _ _ _ st) as [[html| |] st1]; try discriminate.
  destruct (validity html); try discriminate.
  destruct m; [|discriminate].
  destruct (extractOne _ _ _ st1) as [[r| |] st2]; discriminate.
Qed.

Section ScheduleFacts.

Variable w : world.
Variable cfg : config.
Variable mcList : list string.





Lemma ckpt_inv_step (st : rstate) :
  ckpt_inv w cfg mcList st -> ckpt_inv w cfg mcList (step w cfg mcList st).
Proof.
  unfold ckpt_inv, step.
  destruct (pc st) as [s|s e i| |code] eqn:Hp.
  - intros (k & Hs & Hk & Hw).
    destruct (s <? List.length mcList) eqn:Hlt; cbn [pc log set_pc];
      rewrite app_nil_r; exists k.
    + apply Nat.ltb_lt in Hlt. now repeat split.
    + apply Nat.ltb_ge in Hlt. repeat split; auto. lia.
  - intros (k & Hs & Hlt & Hw).
    destruct (i <? e).
    + destruct (all_results _); cbn [pc log set_pc]; [|exact I].
      exists k. rewrite written_app. cbn [written]. rewrite app_nil_r.
      now repeat split.
    + cbn [pc log set_pc]. exists (S k). rewrite written_app.
      replace (written (RWrite (outCsv w s) (to_csv (rows st)) :: _))
        with [checkpoint_path w cfg k]
        by (unfold checkpoint_path; rewrite <- Hs;
            destruct ((0 <? WAIT_SECONDS cfg)%N && (e <? Datatypes.length mcList));
            reflexivity).
      rewrite seq_S, map_app, Hw. cbn [map Nat.add].
      split; [simpl; lia|]. split; [right; simpl; rewrite Nat.sub_0_r; lia | reflexivity].
  - intros (k & Hl & Hk & Hw).
    destruct (MODE cfg); cbn [pc log set_pc]; exists k.
    + rewrite !app_nil_r. now repeat split.
    + rewrite written_app, Hw. cbn [written]. now repeat split.
  - rewrite Hp. auto.
Qed.

Lemma ckpt_inv_run (n : nat) : ckpt_inv w cfg mcList (run_for w cfg mcList n).
Proof.
  induction n as [|n IH].
  - exists 0. cbn. repeat split; auto.
  - rewrite run_for_S. now apply ckpt_inv_step.
Qed.

(** A run that has ended normally wrote one checkpoint per batch, in
    order: [k] files where [k] is the number of identifiers divided by the
    batch size, rounded up; the file of URLs comes after them in URL-only
    mode. For an empty list no checkpoint is written at all. *)
Theorem one_checkpoint_per_batch (n : nat) :
  0 < BATCH_SIZE cfg ->
  pc (run_for w cfg mcList n) = Exited 0 ->
  exists k,
    written (log (run_for w cfg mcList n)) =
      map (fun j => outCsv w (j * BATCH_SIZE cfg)) (List.seq 0 k)
      ++ match MODE cfg with Urls => [listPath w] | Both => [] end /\
    List.length mcList <= k * BATCH_SIZE cfg /\
    k * BATCH_SIZE cfg < List.length mcList + BATCH_SIZE cfg.
Proof.
  intros HB Hpc. pose proof (ckpt_inv_run n) as H. unfold ckpt_inv in H.
  rewrite Hpc in H. destruct H as (k & Hl & Hk & Hw).
  exists k. split; [exact Hw|]. split; [exact Hl|].
  destruct k as [|k]; [simpl; lia|].
  destruct Hk as [Hk|Hk]; [discriminate|]. simpl in *.
  rewrite Nat.sub_0_r in Hk. lia.
Qed.

Lemma all_results_None (l : list string) :
  forall j,
    all_results (dispatch w cfg j l) = None ->
    exists k mc st',
      nth_error l k = Some mc /\ pipeline w cfg (j + k) mc = (Fatal, st').
Proof.
  induction l as [|mc l IH]; intros j H; [discriminate|].
  cbn [dispatch all_results] in H.
  destruct (pipeline w cfg j mc) as [[o|e|] st1] eqn:Hp.
  - destruct (all_results (dispatch w cfg (S j) l)) eqn:Hr; [discriminate|].
    destruct (IH (S j) Hr) as (k & mc' & st' & Hk & Hpk).
    exists (S k), mc', st'. split; [exact Hk|].
    now replace (j + S k) with (S j + k) by lia.
  - exfalso. unfold pipeline in Hp.
    apply (handleMC_never_throws (w_net w j) (w_URL_href w) (MODE cfg) mc tstate0 e).
    now rewrite Hp.
  - exists 0, mc, st1. rewrite Nat.add_0_r. now split.
Qed.

Lemma exit_inv_step (st : rstate) :
  exit_inv w cfg mcList st -> exit_inv w cfg mcList (step w cfg mcList st).
Proof.
  unfold exit_inv, step. intros H code.
  destruct (pc st) as [s|s e i| |c] eqn:Hp.
  - destruct (s <? List.length mcList); discriminate.
  - destruct (i <? e); [|discriminate].
    destruct (all_results _) eqn:Hr; [discriminate|].
    cbn [pc set_pc]. intros E. inversion E; subst code. right. split; [reflexivity|].
    destruct (all_results_None _ _ Hr) as (k & mc & st' & Hk & Hpk).
    exists (i + k), mc, st'. split; [|exact Hpk].
    unfold slice_ in Hk. apply nth_error_firstn_Some in Hk.
    now rewrite nth_error_skipn in Hk.
  - destruct (MODE cfg); cbn [pc set_pc]; intros E; inversion E; now left.
  - rewrite Hp. apply H.
Qed.

Lemma exit_inv_run (n : nat) : exit_inv w cfg mcList (run_for w cfg mcList n).
Proof.
  induction n as [|n IH]; [intros code; discriminate|].
  rewrite run_for_S. now apply exit_inv_step.
Qed.

(** With positive batch and wave sizes the loops of [run] end after at
    most [2 + 3 * length] steps and stay in their final state: with exit
    code 0, unless the extraction timer of the pipeline of some identifier
    ended the process, in which case the code is 1. *)
Lemma run_for_ends :
  0 < BATCH_SIZE cfg -> 0 < CONCURRENCY cfg ->
  exists code,
    pc (run_for w cfg mcList (2 + 3 * List.length mcList)) = Exited code /\
    (forall m, 2 + 3 * List.length mcList <= m ->
       run_for w cfg mcList m = run_for w cfg mcList (2 + 3 * List.length mcList)) /\
    (code = 0 \/
     (code = 1 /\
      exists j mc st',
        nth_error mcList j = Some mc /\ pipeline w cfg j mc = (Fatal, st'))).
Proof.
  intros HB HC.
  destruct (run_terminates w cfg mcList HB HC) as (code & Hpc & Hstay).
  exists code. split; [exact Hpc|]. split; [exact Hstay|].
  exact (exit_inv_run _ code Hpc).
Qed.

End ScheduleFacts.

Lemma one_checkpoint_per_batch_witness :
  exists k,
    written (log (run_for mixed_world urls_config ["000001"; "000002"; "000003"] 11)) =
      map (fun j => outCsv mixed_world (j * 2)) (List.seq 0 k)
      ++ [listPath mixed_world] /\
    3 <= k * 2 /\ k * 2 < 3 + 2.
Proof.
  apply (one_checkpoint_per_batch mixed_world urls_config
           ["000001"; "000002"; "000003"] 11).
  - cbn. lia.
  - vm_compute. reflexivity.
Defined.

(** ** The two sequences of the accumulator agree *)

Section Agreement.

Variable w : world.
Variable cfg : config.
Variable mcList : list string.

Lemma both_outcome (net : nat -> string -> reply)
    (URL_href : string -> string -> option string) (mc : string) (o : outcome)
    (st' : tstate) :
  handleMC net URL_href Both mc tstate0 = (Val o, st') ->
  urls_of [o] = map url (records_of [o]).
Proof.
  rewrite handleMC_unfold. cbn zeta.
  destruct (fetchRetry _ _ _ _ _ tstate0) as [[html| |] st1];
    try (intros H; inversion H; reflexivity).
  destruct (validity html); try (intros H; inversion H; reflexivity).
  rewrite extractOne_unfold.
  destruct (fetchRetry _ _ _ _ _ (arm st1)) as [[html2| |] st2];
    try (intros H; inversion H; reflexivity).
  destruct (deep _ _ _ _ st2) as [[ep| |] st3];
    intros H; inversion H; reflexivity.
Qed.

Lemma both_dispatch (l : list string) :
  MODE cfg = Both ->
  forall j outs,
    all_results (dispatch w cfg j l) = Some outs ->
    urls_of outs = map url (records_of outs).
Proof.
  intros Hmode. induction l as [|mc l IH]; intros j outs H; cbn [dispatch all_results] in H.
  - inversion H. reflexivity.
  - destruct (pipeline w cfg j mc) as [[o| |] st1] eqn:Hp; try discriminate.
    destruct (all_results (dispatch w cfg (S j) l)) as [outs'|] eqn:Hr; [|discriminate].
    inversion H; subst outs.
    change (o :: outs') with ([o] ++ outs').
    rewrite urls_of_app, records_of_app, map_app, (IH _ _ Hr).
    unfold pipeline in Hp. rewrite Hmode in Hp.
    now rewrite (both_outcome _ _ _ _ _ Hp).
Qed.

(** In full-extraction mode the sequence of valid URLs is, at every
    moment, the sequence of the [url] fields of the records; in URL-only
    mode the sequence of records stays empty. *)
Theorem accumulators_agree (n : nat) :
  match MODE cfg with
  | Both =>
      validUrls (run_for w cfg mcList n) = map url (rows (run_for w cfg mcList n))
  | Urls => rows (run_for w cfg mcList n) = []
  end.
Proof.
  destruct (MODE cfg) eqn:Hmode.
  - destruct (inv_run w cfg mcList n) as (i & outs & _ & Ho & Hr & Hu & _).
    rewrite Hr, Hu. exact (both_dispatch _ Hmode _ _ Ho).
  - exact (proj1 (log_inv_run w cfg mcList Hmode n)).
Qed.

End Agreement.

(** ** Reading the list of identifiers (lines 169-170) *)

Lemma rep_loop_stop (m1 : string -> caps -> cont -> answer) (g : bool) (k : cont)
    (fuel lo : nat) (s : string) (c : caps) :
  rep_loop m1 g k (S fuel) lo (Some 0) s c = k s c.
Proof. reflexivity. Qed.

Lemma rep_loop_opt (m1 : string -> caps -> cont -> answer) (k : cont)
    (fuel : nat) (s : string) (c : caps) :
  rep_loop m1 true k (S fuel) 0 (Some 1) s c =
  match m1 s c (fun s' c' =>
                  if String.length s' =? String.length s then None
                  else rep_loop m1 true k fuel 0 (Some 0) s' c') with
  | Some x => Some x
  | None => k s c
  end.
Proof. reflexivity. Qed.

(** The separator at the head of a text: a line feed, or a carriage
    return and a line feed. *)
Lemma rmatch_lineSep (s : string) :
  rmatch lineSep s [] (fun s' c => Some (s', c)) =
  match s with
  | String a s' =>
      if Ascii.eqb a LF then Some (s', [])
      else if Ascii.eqb a CR then
        match s' with
        | String b s'' => if Ascii.eqb b LF then Some (s'', []) else None
        | EmptyString => None
        end
      else None
  | EmptyString => None
  end.
Proof.
  unfold lineSep, opt. rewrite rmatch_cat.
  change (rmatch (Rep true 0 (Some 1) (chr CR)) s [] ?k)
    with (rep_loop (rmatch (chr CR)) true k (0 + String.length s + 1) 0 (Some 1) s []).
  replace (0 + String.length s + 1) with (S (String.length s)) by lia.
  rewrite rep_loop_opt.
  destruct s as [|a s']; [reflexivity|].
  unfold chr. cbn [rmatch].
  rewrite (Ascii.eqb_sym CR a), (Ascii.eqb_sym LF a).
  destruct (Ascii.eqb a CR) eqn:Hcr.
  - apply Ascii.eqb_eq in Hcr. subst a.
    assert (Hl : (String.length s' =? String.length (String CR s')) = false)
      by (apply Nat.eqb_neq; simpl; lia).
    rewrite Hl. cbn [String.length]. rewrite rep_loop_stop.
    change (Ascii.eqb CR LF) with false. cbv iota.
    destruct s' as [|b s'']; [reflexivity|].
    rewrite (Ascii.eqb_sym LF b). destruct (Ascii.eqb b LF); reflexivity.
  - destruct (Ascii.eqb a LF); reflexivity.
Qed.

Lemma exec_at_lineSep_found (s : string) :
  forall idx m,
    exec_at lineSep s idx = Some m ->
    idx <= m_index m /\
    all_chars (fun c => negb (Ascii.eqb c LF)) (substring 0 (m_index m - idx) s) = true /\
    String.length (m_rest m) < String.length s.
Proof.
  induction s as [|a s IH]; intros idx m H; cbn [exec_at] in H;
    rewrite rmatch_lineSep in H; [discriminate|].
  destruct (Ascii.eqb a LF) eqn:Hlf.
  { inversion H; subst m. cbn. rewrite Nat.sub_diag. repeat split; simpl; lia. }
  assert (Hnext : exec_at lineSep s (S idx) = Some m ->
            idx <= m_index m /\
            all_chars (fun c => negb (Ascii.eqb c LF))
              (substring 0 (m_index m - idx) (String a s)) = true /\
            String.length (m_rest m) < String.length (String a s)).
  { intros H'. destruct (IH _ _ H') as (Hi & Ha & Hl).
    split; [lia|]. split; [|simpl; lia].
    destruct (m_index m - idx) as [|k] eqn:Hk; [lia|].
    replace (m_index m - S idx) with k in Ha by lia.
    cbn [substring all_chars]. now rewrite Hlf, Ha. }
  destruct (Ascii.eqb a CR); [|now apply Hnext].
  destruct s as [|b s']; [now apply Hnext|].
  destruct (Ascii.eqb b LF) eqn:Hb; [|now apply Hnext].
  inversion H; subst m. cbn. rewrite Nat.sub_diag. repeat split; simpl; lia.
Qed.

Lemma exec_at_lineSep_none (s : string) :
  forall idx,
    exec_at lineSep s idx = None ->
    all_chars (fun c => negb (Ascii.eqb c LF)) s = true.
Proof.
  induction s as [|a s IH]; intros idx H; [reflexivity|].
  cbn [exec_at] in H. rewrite rmatch_lineSep in H. cbn [all_chars].
  destruct (Ascii.eqb a LF); [discriminate|]. cbn [negb andb].
  destruct (Ascii.eqb a CR); [|now apply (IH (S idx))].
  destruct s as [|b s']; [reflexivity|].
  destruct (Ascii.eqb b LF); [discriminate|]. now apply (IH (S idx)).
Qed.

Lemma split_loop_no_lf :
  forall fuel s,
    String.length s < fuel ->
    Forall (fun piece => all_chars (fun c => negb (Ascii.eqb c LF)) piece = true)
           (split_loop fuel lineSep s).
Proof.
  induction fuel as [|fuel IH]; intros s Hl; [lia|]. cbn [split_loop]. unfold exec.
  destruct (exec_at lineSep s 0) as [m|] eqn:He.
  - destruct (exec_at_lineSep_found _ _ _ He) as (_ & Ha & Hr).
    rewrite Nat.sub_0_r in Ha. constructor; [exact Ha|]. apply IH. lia.
  - constructor; [|constructor]. eapply exec_at_lineSep_none; eassumption.
Qed.

(** Every identifier read from the file is non-empty, has no white space
    at either end and no line feed inside. *)
Theorem parse_list_clean (raw mc : string) :
  In mc (parse_list raw) ->
  mc <> "" /\
  starts_with_space mc = false /\
  starts_with_space (rev_string "" mc) = false /\
  all_chars (fun c => negb (Ascii.eqb c LF)) mc = true.
Proof.
  unfold parse_list, split. intros H.
  apply filter_In in H. destruct H as [H Ht].
  apply in_map_iff in H. destruct H as (piece & <- & Hp).
  split; [intros E; rewrite E in Ht; discriminate|].
  destruct (trim_split piece) as (a & z & Hs & _ & _ & Hb & He).
  split; [exact Hb|]. split; [exact He|].
  pose proof (split_loop_no_lf (S (String.length raw)) raw ltac:(lia)) as Hall.
  rewrite Forall_forall in Hall. specialize (Hall _ Hp).
  rewrite Hs, !all_chars_app in Hall.
  apply andb_true_iff in Hall. destruct Hall as [_ Hall].
  apply andb_true_iff in Hall. now destruct Hall.
Qed.

Lemma parse_list_clean_witness :
  "12345" <> "" /\ starts_with_space "12345" = false.
Proof.
  destruct (parse_list_clean
              ("  12345 " +++ String CR (String LF "") +++ String LF "678")
              "12345") as (H1 & H2 & _).
  - vm_compute. left. reflexivity.
  - split; [exact H1 | exact H2].
Defined.

(** *** Lines written one per line are read back in order *)

Lemma exec_at_lineSep_skip (x rest : string) :
  all_chars not_eol x = true ->
  forall idx,
    exec_at lineSep (x +++ String LF rest) idx =
    Some {| m_index := idx + String.length x; m_text := String LF "";
            m_caps := []; m_rest := rest |}.
Proof.
  induction x as [|a x IH]; intros Hx idx; cbn [append exec_at];
    rewrite rmatch_lineSep.
  - rewrite Ascii.eqb_refl. unfold consumed. cbn [String.length].
    replace (S (String.length rest) - String.length rest) with 1 by lia.
    cbn [substring]. rewrite substring_0_0, Nat.add_0_r. reflexivity.
  - cbn [all_chars] in Hx. apply andb_true_iff in Hx. destruct Hx as [Ha Hx].
    unfold not_eol in Ha. apply andb_true_iff in Ha. destruct Ha as [Ha1 Ha2].
    apply negb_true_iff in Ha1, Ha2. rewrite Ha1, Ha2, (IH Hx).
    cbn [String.length]. do 2 f_equal. lia.
Qed.

Lemma exec_at_lineSep_last (x : string) :
  all_chars not_eol x = true ->
  forall idx, exec_at lineSep x idx = None.
Proof.
  induction x as [|a x IH]; intros Hx idx; cbn [exec_at]; rewrite rmatch_lineSep;
    [reflexivity|].
  cbn [all_chars] in Hx. apply andb_true_iff in Hx. destruct Hx as [Ha Hx].
  unfold not_eol in Ha. apply andb_true_iff in Ha. destruct Ha as [Ha1 Ha2].
  apply negb_true_iff in Ha1, Ha2. rewrite Ha1, Ha2. now apply IH.
Qed.

Lemma split_loop_join (lines : list string) :
  Forall (fun x => all_chars not_eol x = true) lines ->
  forall x fuel,
    all_chars not_eol x = true ->
    List.length lines < fuel ->
    split_loop fuel lineSep (join newline (x :: lines)) = x :: lines.
Proof.
  induction 1 as [|y lines Hy _ IH]; intros x fuel Hx Hf;
    (destruct fuel as [|fuel]; [simpl in Hf; lia|]); cbn [split_loop]; unfold exec.
  - cbn [join]. now rewrite exec_at_lineSep_last.
  - change (join newline (x :: y :: lines))
      with (x +++ String LF (join newline (y :: lines))).
    rewrite (exec_at_lineSep_skip x _ Hx). cbn [m_index m_rest Nat.add].
    rewrite substring_prefix, IH by (auto; simpl in Hf; lia). reflexivity.
Qed.

(** A file that holds one identifier per line, lines separated by line
    feeds, is read as the identifiers of its non-blank lines, trimmed, in
    the order of the file. *)
Theorem parse_list_of_lines (x : string) (lines : list string) :
  Forall (fun l => all_chars not_eol l = true) (x :: lines) ->
  parse_list (join newline (x :: lines)) = filter truthy (map trim (x :: lines)).
Proof.
  intros H. inversion H as [|? ? Hx Hl]; subst.
  unfold parse_list, split.
  rewrite split_loop_join; auto.
  clear. assert (Hlen : forall (l : list string) y,
                   List.length l <= String.length (join newline (y :: l))).
  { induction l as [|z l IH]; intros y; [simpl; lia|].
    change (join newline (y :: z :: l))
      with (y +++ newline +++ join newline (z :: l)).
    rewrite !length_append. specialize (IH z). simpl in *. lia. }
  specialize (Hlen lines x). lia.
Qed.

Lemma parse_list_of_lines_witness :
  parse_list (join newline [" 000001 "; ""; "000002"]) = ["000001"; "000002"].
Proof.
  rewrite (parse_list_of_lines " 000001 " [""; "000002"]).
  - reflexivity.
  - repeat constructor.
Defined.

(** ** The links followed by [extractOne] (lines 99-106, 113-115) *)

Lemma rmatch_liti_none (t : string) :
  forall s c k, startsWith_ci t s = false -> rmatch (liti t) s c k = None.
Proof.
  induction t as [|a t IH]; intros s c k H; [discriminate|].
  destruct s as [|b s]; cbn [startsWith_ci] in H.
  - destruct t; reflexivity.
  - destruct t as [|a' t].
    + cbn [startsWith_ci] in H. rewrite andb_true_r in H.
      cbn [liti]. unfold chri. cbn [rmatch].
      now rewrite Ascii.eqb_sym, H.
    + change (liti (String a (String a' t)))
        with (Cat (chri a) (liti (String a' t))).
      rewrite rmatch_cat. unfold chri at 1. cbn [rmatch].
      rewrite (Ascii.eqb_sym (fold_char b)).
      destruct (Ascii.eqb (fold_char a) (fold_char b)); [|reflexivity].
      apply IH. exact H.
Qed.

Lemma rmatch_liti_some (t : string) :
  forall s c k,
    startsWith_ci t s = true -> exists rest, rmatch (liti t) s c k = k rest c.
Proof.
  induction t as [|a t IH]; intros s c k H; [now exists s|].
  destruct s as [|b s]; cbn [startsWith_ci] in H; [discriminate|].
  apply andb_true_iff in H. destruct H as [Hab H].
  destruct t as [|a' t].
  - exists s. cbn [liti]. unfold chri. cbn [rmatch].
    now rewrite Ascii.eqb_sym, Hab.
  - change (liti (String a (String a' t)))
      with (Cat (chri a) (liti (String a' t))).
    rewrite rmatch_cat. unfold chri at 1. cbn [rmatch].
    rewrite (Ascii.eqb_sym (fold_char b)), Hab.
    apply IH. exact H.
Qed.

(** Testing a literal pattern under the [i] flag is the search that
    ignores the case of ASCII letters. *)
Lemma test_liti (t s : string) : test (liti t) s = contains_ci s t.
Proof.
  unfold test, exec. generalize 0 as idx.
  induction s as [|b s IH]; intros idx; cbn [exec_at contains_ci].
  - destruct (startsWith_ci t "") eqn:Hs.
    + destruct (rmatch_liti_some t "" [] (fun s' c => Some (s', c)) Hs) as [rest E].
      rewrite E. reflexivity.
    + rewrite (rmatch_liti_none t _ _ _ Hs). reflexivity.
  - destruct (startsWith_ci t (String b s)) eqn:Hs.
    + destruct (rmatch_liti_some t (String b s) [] (fun s' c => Some (s', c)) Hs)
        as [rest E].
      rewrite E. reflexivity.
    + rewrite (rmatch_liti_none t _ _ _ Hs). cbn [orb]. apply IH.
Qed.

Lemma fold_string_app_inv (a b : string) :
  forall y,
    fold_string y = a +++ b ->
    exists y1 y2, y = y1 +++ y2 /\ fold_string y1 = a /\ fold_string y2 = b.
Proof.
  induction a as [|c a IH]; intros y H.
  - now exists "", y.
  - destruct y as [|d y]; [discriminate|]. cbn [fold_string append] in H.
    inversion H as [[Hc Hy]].
    destruct (IH _ Hy) as (y1 & y2 & -> & H1 & H2).
    exists (String d y1), y2. cbn [fold_string append]. now rewrite H1.
Qed.

Lemma fold_string_nonempty (y t : string) :
  fold_string y = fold_string t -> t <> "" -> y <> "".
Proof. intros H Ht ->. destruct t; [now apply Ht | discriminate]. Qed.

Lemma occurs_ci_inside (marker x y z : string) :
  occurs_ci marker y -> occurs_ci marker (x +++ y +++ z).
Proof.
  intros (pre & mid & post & -> & Hm).
  exists (x +++ pre), mid, (post +++ z). split; [|exact Hm].
  now rewrite !append_assoc.
Qed.

Lemma occurs_ci_piece (marker a b : string) (y : string) :
  fold_string y = a +++ fold_string marker +++ b -> occurs_ci marker y.
Proof.
  intros H.
  destruct (fold_string_app_inv _ _ _ H) as (y1 & y' & -> & _ & H').
  destruct (fold_string_app_inv _ _ _ H') as (y2 & y3 & -> & H2 & _).
  now exists y1, y2, y3.
Qed.

Lemma none_of_quotes_fold (c : ascii) :
  none_of quotes (fold_char c) = none_of quotes c.
Proof. destruct c as [[] [] [] [] [] [] [] []]; reflexivity. Qed.

Lemma no_quotes_fold (y : string) :
  all_chars (none_of quotes) (fold_string y) = all_chars (none_of quotes) y.
Proof.
  induction y as [|c y IH]; [reflexivity|]. cbn [fold_string all_chars].
  now rewrite none_of_quotes_fold, IH.
Qed.

Lemma matches_grp_inv (n : nat) (r : regex) (s : string) :
  matches (Grp n r) s -> matches r s.
Proof. intros H. now inversion H. Qed.

Lemma matches_alt_inv (r1 r2 : regex) (s : string) :
  matches (Alt r1 r2) s -> matches r1 s \/ matches r2 s.
Proof. intros H. inversion H; subst; auto. Qed.

(** A match of [href=["'](...)["']]: group 1 is a string of the pattern
    between the quotes, taken from the subject. *)
Lemma href_group (inner : regex) (s : string) (idx : nat) (m : rmatch_result) :
  exec_at (seq [ liti "href="; a_quote; Grp 1 inner; a_quote ]) s idx = Some m ->
  exists before after,
    s = before +++ group_str 1 m +++ after /\ matches inner (group_str 1 m).
Proof.
  intros He.
  destruct (exec_at_sound _ _ _ _ He) as (skipped & Hs & _ & _ & Hr).
  cbn [seq] in Hr. rewrite rmatch_cat in Hr.
  destruct (rmatch_sound _ _ _ _ _ Hr) as (p & s1 & c1 & Hs1 & _ & Hr1).
  rewrite rmatch_cat in Hr1.
  destruct (rmatch_sound _ _ _ _ _ Hr1) as (q & s2 & c2 & Hs2 & _ & Hr2).
  rewrite rmatch_cat, rmatch_grp in Hr2.
  destruct (rmatch_sound _ _ _ _ _ Hr2) as (v & s3 & c3 & Hs3 & Hv & Hr3).
  rewrite Hs3, consumed_app in Hr3.
  unfold a_quote in Hr3. cbn [rmatch] in Hr3.
  destruct s3 as [|q' s3]; [discriminate|].
  destruct (one_of quotes q'); [|discriminate].
  inversion Hr3 as [[Hrest Hcaps]].
  assert (Hg : group_str 1 m = v).
  { unfold group_str, group. now rewrite <- Hcaps. }
  rewrite Hg. exists (skipped +++ p +++ q), (String q' s3). split; [|exact Hv].
  rewrite Hs, Hs1, Hs2, Hs3, !append_assoc. reflexivity.
Qed.

(** What stands between the quotes of a match of [hrefRe]. *)
Lemma hrefRe_group (html : string) (idx : nat) (m : rmatch_result) :
  exec_at hrefRe html idx = Some m ->
  (exists before after, html = before +++ group_str 1 m +++ after) /\
  all_chars (none_of quotes) (group_str 1 m) = true /\
  (occurs_ci "safer_xfr.aspx" (group_str 1 m) \/
   occurs_ci "/SMS/Carrier/" (group_str 1 m)).
Proof.
  intros He. unfold hrefRe in He.
  destruct (href_group _ _ _ _ He) as (before & after & Hs & Hm).
  split; [now exists before, after|].
  cbn [seq] in Hm.
  apply matches_cat_inv in Hm. destruct Hm as (x & yz & E & Hx & Hm).
  apply matches_cat_inv in Hm. destruct Hm as (y & z & -> & Hy & Hz).
  rewrite E. clear E Hs.
  pose proof (matches_rep_cls _ _ Hx _ _ _ _ eq_refl) as Ax.
  pose proof (matches_rep_cls _ _ Hz _ _ _ _ eq_refl) as Az.
  apply matches_grp_inv in Hy.
  assert (Hq : forall t, fold_string y = fold_string t ->
                 all_chars (none_of quotes) t = true ->
                 all_chars (none_of quotes) (x +++ y +++ z) = true).
  { intros t Ht Hnq. rewrite !all_chars_app, Ax, Az, <- (no_quotes_fold y), Ht,
      no_quotes_fold, Hnq. reflexivity. }
  apply matches_alt_inv in Hy. destruct Hy as [Hy|Hy];
    [|apply matches_alt_inv in Hy; destruct Hy as [Hy|Hy]];
    apply matches_liti in Hy.
  - split; [now apply (Hq _ Hy)|]. left. apply occurs_ci_inside.
    now exists "", y, ""; rewrite append_nil_r.
  - split; [now apply (Hq _ Hy)|]. left. apply occurs_ci_inside.
    apply (occurs_ci_piece "safer_xfr.aspx" (fold_string "/SMS/") "").
    rewrite Hy. reflexivity.
  - split; [now apply (Hq _ Hy)|]. right. apply occurs_ci_inside.
    now exists "", y, ""; rewrite append_nil_r.
Qed.

Lemma occurs_ci_nonempty (marker s : string) :
  marker <> "" -> occurs_ci marker s -> truthy s = true.
Proof.
  intros Hm (pre & mid & post & -> & Hf).
  pose proof (fold_string_nonempty _ _ Hf Hm) as Hmid.
  destruct pre; [|reflexivity]. destruct mid; [contradiction | reflexivity].
Qed.

Lemma occurs_ci_weaken (a marker b s : string) :
  occurs_ci (a +++ marker +++ b) s -> occurs_ci marker s.
Proof.
  intros (pre & mid & post & -> & Hf).
  apply occurs_ci_inside.
  apply (occurs_ci_piece marker (fold_string a) (fold_string b)).
  rewrite Hf. clear. induction a as [|c a IH]; cbn [append fold_string].
  - induction marker as [|c marker IH]; cbn [append fold_string]; [reflexivity|].
    now rewrite IH.
  - now rewrite IH.
Qed.

Lemma exec_all_head (r : regex) (s : string) :
  exec_all r s =
  match exec r s with
  | None => []
  | Some m =>
      m :: exec_all_from (String.length s) r (m_rest m)
             (m_index m + String.length (m_text m))
  end.
Proof. reflexivity. Qed.

Section LinkFacts.

Variable URL_href : string -> string -> option string.

(** The SMS link is the absolute form of the reference of the first
    match of [hrefRe]: the test of line 105 never rejects a match. The
    reference holds no quote and holds [safer_xfr.aspx] or [/SMS/Carrier/],
    the case of letters ignored. *)
Theorem smsLink_is_first_href (url_ html : string) :
  match exec hrefRe html with
  | None => find_smsLink URL_href url_ html = ""
  | Some m =>
      find_smsLink URL_href url_ html = absoluteUrl URL_href url_ (group_str 1 m) /\
      (exists before after, html = before +++ group_str 1 m +++ after) /\
      all_chars (none_of quotes) (group_str 1 m) = true /\
      (occurs_ci "safer_xfr.aspx" (group_str 1 m) \/
       occurs_ci "/SMS/Carrier/" (group_str 1 m))
  end.
Proof.
  unfold find_smsLink. rewrite exec_all_head.
  destruct (exec hrefRe html) as [m|] eqn:He; [|reflexivity].
  destruct (hrefRe_group _ _ _ He) as (Hin & Hq & Ho).
  split; [|now repeat split].
  cbn [smsLink_loop]. rewrite !test_liti.
  assert (Ht : truthy (group_str 1 m) = true).
  { destruct Ho as [Ho|Ho]; eapply occurs_ci_nonempty; try exact Ho; discriminate. }
  rewrite Ht. cbn [andb].
  destruct Ho as [Ho|Ho].
  - apply contains_ci_occurs in Ho. rewrite Ho. reflexivity.
  - apply (occurs_ci_weaken "" "/SMS/" "Carrier/") in Ho.
    apply contains_ci_occurs in Ho. rewrite Ho, orb_true_r. reflexivity.
Qed.

(** What stands between the quotes of a match of [regRe]. *)
Lemma regRe_group (html : string) (idx : nat) (m : rmatch_result) :
  exec_at regRe html idx = Some m ->
  (exists before after, html = before +++ group_str 1 m +++ after) /\
  occurs_ci "CarrierRegistration.aspx" (group_str 1 m).
Proof.
  intros He. unfold regRe in He.
  destruct (href_group _ _ _ _ He) as (before & after & Hs & Hm).
  split; [now exists before, after|].
  cbn [seq] in Hm.
  apply matches_cat_inv in Hm. destruct Hm as (x & yz & E & Hx & Hm).
  apply matches_cat_inv in Hm. destruct Hm as (y & z & -> & Hy & Hz).
  rewrite E. clear E Hs. apply occurs_ci_inside.
  apply matches_grp_inv in Hy.
  apply matches_alt_inv in Hy. destruct Hy as [Hy|Hy].
  - apply matches_liti in Hy. now exists "", y, ""; rewrite append_nil_r.
  - apply matches_cat_inv in Hy. destruct Hy as (y1 & y' & -> & _ & Hy).
    apply matches_cat_inv in Hy. destruct Hy as (y2 & y3 & -> & _ & Hy).
    apply matches_liti in Hy.
    rewrite <- append_assoc, <- (append_nil_r y3). apply occurs_ci_inside.
    apply (occurs_ci_piece "CarrierRegistration.aspx" (fold_string "/") "").
    rewrite Hy. reflexivity.
Qed.

(** When the platform never yields an empty absolute URL, the
    registration link is the absolute form of the reference of the first
    match of [regRe], and that reference holds [CarrierRegistration.aspx],
    the case of letters ignored. *)
Theorem regLink_is_first_href (smsLink smsHtml : string) :
  (forall href base u, URL_href href base = Some u -> u <> "") ->
  match exec regRe smsHtml with
  | None => find_regLink URL_href smsLink smsHtml = ""
  | Some m =>
      find_regLink URL_href smsLink smsHtml =
        absoluteUrl URL_href smsLink (group_str 1 m) /\
      (exists before after, smsHtml = before +++ group_str 1 m +++ after) /\
      occurs_ci "CarrierRegistration.aspx" (group_str 1 m)
  end.
Proof.
  intros Hurl. unfold find_regLink. rewrite exec_all_head.
  destruct (exec regRe smsHtml) as [m|] eqn:He; [|reflexivity].
  destruct (regRe_group _ _ _ He) as (Hin & Ho).
  split; [|now split].
  cbn [regLink_loop].
  assert (Ht : truthy (absoluteUrl URL_href smsLink (group_str 1 m)) = true).
  { unfold absoluteUrl.
    destruct (URL_href (group_str 1 m) smsLink) as [u|] eqn:Hu.
    - apply Hurl in Hu. destruct u; [contradiction | reflexivity].
    - eapply occurs_ci_nonempty; try exact Ho. discriminate. }
  rewrite Ht. reflexivity.
Qed.

End LinkFacts.

Lemma regLink_is_first_href_witness :
  match exec regRe sms_page with
  | None => find_regLink strict_URL "https://ai.fmcsa.dot.gov/SMS/" sms_page = ""
  | Some m =>
      find_regLink strict_URL "https://ai.fmcsa.dot.gov/SMS/" sms_page =
        absoluteUrl strict_URL "https://ai.fmcsa.dot.gov/SMS/" (group_str 1 m) /\
      (exists before after, sms_page = before +++ group_str 1 m +++ after) /\
      occurs_ci "CarrierRegistration.aspx" (group_str 1 m)
  end.
Proof.
  apply (regLink_is_first_href strict_URL "https://ai.fmcsa.dot.gov/SMS/" sms_page).
  intros href base u. unfold strict_URL.
  destruct href; cbn [truthy]; intros E; inversion E; discriminate.
Defined.

(** ** The contact fields of the registration page (lines 119-130) *)

Lemma dash_or_space_facts (c : ascii) :
  Ascii.eqb c "-" || is_space c = true ->
  is_digit c = false /\ dashed_phone_char c = true.
Proof. destruct c as [[] [] [] [] [] [] [] []]; cbv; split; congruence. Qed.

Lemma dashed_phone_facts (c : ascii) :
  (Ascii.eqb "(" c = true -> dashed_phone_char c = true) /\
  (Ascii.eqb ")" c = true -> dashed_phone_char c = true) /\
  (is_digit c = true -> dashed_phone_char c = true).
Proof. destruct c as [[] [] [] [] [] [] [] []]; cbv; repeat split; congruence. Qed.

(** A match of the phone pattern of lines 125 and 128 holds exactly ten
    digits. *)
Lemma phoneRe2_shape (t : string) :
  matches phoneRe2 t ->
  count_chars is_digit t = 10 /\ all_chars dashed_phone_char t = true.
Proof.
  intros Hm. unfold phoneRe2 in Hm. cbn [seq] in Hm.
  apply matches_cat_inv in Hm. destruct Hm as (t1 & u1 & -> & H1 & Hm).
  apply matches_cat_inv in Hm. destruct Hm as (t2 & u2 & -> & H2 & Hm).
  apply matches_cat_inv in Hm. destruct Hm as (t3 & u3 & -> & H3 & Hm).
  apply matches_cat_inv in Hm. destruct Hm as (t4 & u4 & -> & H4 & Hm).
  apply matches_cat_inv in Hm. destruct Hm as (t5 & u5 & -> & H5 & Hm).
  apply matches_cat_inv in Hm. destruct Hm as (t6 & t7 & -> & H6 & H7).
  pose proof (matches_rep_cls _ _ H1 _ _ _ _ eq_refl) as A1.
  pose proof (matches_rep_cls _ _ H2 _ _ _ _ eq_refl) as A2.
  pose proof (matches_rep_cls _ _ H3 _ _ _ _ eq_refl) as A3.
  pose proof (matches_rep_cls _ _ H4 _ _ _ _ eq_refl) as A4.
  pose proof (matches_rep_cls _ _ H5 _ _ _ _ eq_refl) as A5.
  pose proof (matches_rep_cls _ _ H6 _ _ _ _ eq_refl) as A6.
  pose proof (matches_rep_cls _ _ H7 _ _ _ _ eq_refl) as A7.
  pose proof (matches_times_cls _ _ H2 true 3 3 is_digit eq_refl (le_n 3)) as L2.
  pose proof (matches_times_cls _ _ H5 true 3 3 is_digit eq_refl (le_n 3)) as L5.
  pose proof (matches_times_cls _ _ H7 true 4 4 is_digit eq_refl (le_n 4)) as L7.
  split.
  - rewrite !count_chars_app.
    rewrite (count_chars_none is_digit _ t1 (fun c => proj1 (proj2 (proj2 (phone_sep_facts c)))) A1).
    rewrite (count_chars_none is_digit _ t3
               (fun c => proj1 (proj2 (proj2 (proj2 (proj2 (phone_sep_facts c)))))) A3).
    rewrite (count_chars_none is_digit _ t4 (fun c H => proj1 (dash_or_space_facts c H)) A4).
    rewrite (count_chars_none is_digit _ t6 (fun c H => proj1 (dash_or_space_facts c H)) A6).
    rewrite (count_chars_all _ _ A2), (count_chars_all _ _ A5), (count_chars_all _ _ A7).
    lia.
  - rewrite !all_chars_app.
    rewrite (all_chars_weaken _ dashed_phone_char t1
               (fun c => proj1 (dashed_phone_facts c)) A1).
    rewrite (all_chars_weaken _ dashed_phone_char t3
               (fun c => proj1 (proj2 (dashed_phone_facts c))) A3).
    rewrite (all_chars_weaken _ dashed_phone_char t4
               (fun c H => proj2 (dash_or_space_facts c H)) A4).
    rewrite (all_chars_weaken _ dashed_phone_char t6
               (fun c H => proj2 (dash_or_space_facts c H)) A6).
    rewrite (all_chars_weaken _ dashed_phone_char t2
               (fun c => proj2 (proj2 (dashed_phone_facts c))) A2).
    rewrite (all_chars_weaken _ dashed_phone_char t5
               (fun c => proj2 (proj2 (dashed_phone_facts c))) A5).
    rewrite (all_chars_weaken _ dashed_phone_char t7
               (fun c => proj2 (proj2 (dashed_phone_facts c))) A7).
    reflexivity.
Qed.

Lemma exec_phoneRe2_shape (s : string) (m : rmatch_result) :
  exec phoneRe2 s = Some m ->
  (exists before after, s = before +++ m_text m +++ after) /\
  count_chars is_digit (m_text m) = 10 /\ all_chars dashed_phone_char (m_text m) = true.
Proof.
  unfold exec. intros He.
  destruct (exec_at_sound _ _ _ _ He) as (skipped & Hs & _ & Hm & _).
  split; [now exists skipped, (m_rest m)|]. now apply phoneRe2_shape.
Qed.

Lemma test_at_sign (txt : string) :
  test (chr "@") txt = true -> exists a b, txt = a +++ "@" +++ b.
Proof.
  unfold test, exec. destruct (exec_at (chr "@") txt 0) as [m|] eqn:He; [|discriminate].
  intros _. destruct (exec_at_sound _ _ _ _ He) as (skipped & Hs & _ & Hm & _).
  apply matches_cls_inv in Hm. destruct Hm as (c & Hc & Hat).
  apply Ascii.eqb_eq in Hat. subst c. rewrite Hc in Hs.
  now exists skipped, (m_rest m).
Qed.

(** Group 1 of a match of the address pattern of line 127: a piece of the
    page with an [@] between two non-empty parts. *)
Lemma exec_emailRe_shape (s : string) (m : rmatch_result) :
  exec emailRe s = Some m ->
  exists l d, group_str 1 m = l +++ "@" +++ d /\ l <> "" /\ d <> "" /\
    exists before after, s = before +++ group_str 1 m +++ after.
Proof.
  unfold exec. intros He.
  destruct (exec_at_sound _ _ _ _ He) as (skipped & Hs & _ & _ & Hr).
  unfold emailRe in Hr. rewrite rmatch_grp in Hr.
  destruct (rmatch_sound _ _ _ _ _ Hr) as (v & s1 & c1 & Hs1 & Hv & Hk).
  rewrite Hs1, consumed_app in Hk. inversion Hk as [[Hrest Hcaps]].
  assert (Hg : group_str 1 m = v).
  { unfold group_str, group. now rewrite <- Hcaps. }
  rewrite Hg. cbn [seq] in Hv.
  apply matches_cat_inv in Hv. destruct Hv as (l & u1 & E & Hl & Hv).
  apply matches_cat_inv in Hv. destruct Hv as (a & u2 & -> & Ha & Hv).
  apply matches_cat_inv in Hv. destruct Hv as (d & u3 & -> & Hd & _).
  apply matches_cls_inv in Ha. destruct Ha as (c & -> & Hat).
  apply Ascii.eqb_eq in Hat. subst c.
  exists l, (d +++ u3). split; [exact E|].
  split; [exact (matches_plus_nonempty _ _ _ _ Hl)|].
  split.
  - pose proof (matches_plus_nonempty _ _ _ _ Hd) as Hne.
    destruct d; [contradiction | discriminate].
  - exists skipped, (m_rest m). now rewrite Hs, Hs1, Hrest.
Qed.

Lemma span_loop_form (P : string -> Prop) (Q : string -> Prop) :
  (forall txt, test (chr "@") txt = true -> P txt) ->
  (forall txt ph, exec phoneRe2 txt = Some ph -> Q (m_text ph)) ->
  forall ms e p,
    (e = "" \/ P e) -> (p = "" \/ Q p) ->
    (fst (span_loop ms (e, p)) = "" \/ P (fst (span_loop ms (e, p)))) /\
    (snd (span_loop ms (e, p)) = "" \/ Q (snd (span_loop ms (e, p)))).
Proof.
  intros HP HQ. induction ms as [|s ms IH]; intros e p He Hp; [now split|].
  cbn [span_loop]. apply IH.
  - destruct (negb (truthy e) && test (chr "@") (htmlToText (group_str 1 s))) eqn:Hc;
      [|exact He].
    apply andb_true_iff in Hc. right. apply HP. now destruct Hc.
  - destruct (negb (truthy p)); [|exact Hp].
    destruct (exec phoneRe2 (htmlToText (group_str 1 s))) as [ph|] eqn:Hx; [|exact Hp].
    right. now apply (HQ _ _ Hx).
Qed.

(** The address found on a registration page is empty or holds an [@];
    the phone found there is empty or holds exactly ten digits and is
    written with digits, brackets, white space and dashes only. *)
Theorem extractContacts_form (regHtml : string) :
  (fst (extractContacts regHtml) = "" \/
   exists a b, fst (extractContacts regHtml) = a +++ "@" +++ b) /\
  (snd (extractContacts regHtml) = "" \/
   (count_chars is_digit (snd (extractContacts regHtml)) = 10 /\
    all_chars dashed_phone_char (snd (extractContacts regHtml)) = true)).
Proof.
  unfold extractContacts.
  pose proof (span_loop_form
                (fun e => exists a b, e = a +++ "@" +++ b)
                (fun p => count_chars is_digit p = 10 /\ all_chars dashed_phone_char p = true)
                test_at_sign
                (fun txt ph H => proj2 (exec_phoneRe2_shape txt ph H))
                (exec_all spanRe regHtml) "" "" (or_introl eq_refl) (or_introl eq_refl))
    as [He Hp].
  destruct (span_loop (exec_all spanRe regHtml) ("", "")) as [e p].
  cbn [fst snd] in *. split.
  - destruct (negb (truthy e)); [|exact He].
    destruct (exec emailRe regHtml) as [em|] eqn:Hx; [|exact He].
    right. destruct (exec_emailRe_shape _ _ Hx) as (l & d & E & _).
    now exists l, d.
  - destruct (negb (truthy p)); [|exact Hp].
    destruct (exec phoneRe2 regHtml) as [ph|] eqn:Hx; [|exact Hp].
    right. exact (proj2 (exec_phoneRe2_shape _ _ Hx)).
Qed.

(** ** The extraction timer (lines 80-81, 136) *)








Section TimerFacts.

Variable net : nat -> string -> reply.
Variable URL_href : string -> string -> option string.








End TimerFacts.

(** ** One request (lines 38-45) *)

Section RequestFacts.

Variable net : nat -> string -> reply.


End RequestFacts.


(** ** C1: the record of a valid identifier in the accumulator *)

Section RecordInRun.

Variable w : world.
Variable cfg : config.
Variable mcList : list string.

(** [handleMC] in full-extraction mode after a lookup page that passed
    the validity check, by the result of the second request of that
    page. *)
Lemma handleMC_after_gate (net : nat -> string -> reply)
    (URL_href : string -> string -> option string) (mc html : string)
    (st1 st2 : tstate) (r2 : res string) :
  fetchRetry net (mcToSnapshotUrl mc) MAX_RETRIES FETCH_TIMEOUT_MS "snapshot" tstate0
    = (Val html, st1) ->
  validity html = Valid ->
  fetchRetry net (mcToSnapshotUrl mc) MAX_RETRIES FETCH_TIMEOUT_MS "snapshot" (arm st1)
    = (r2, st2) ->
  match r2 with
  | Val html2 =>
      exists r st3,
        handleMC net URL_href Both mc tstate0 = (r, st3) /\
        (r = Fatal \/
         exists ep, r = Val (with_row (mcToSnapshotUrl mc)
                               (row_of (mcToSnapshotUrl mc) html2 ep)))
  | Exn _ => handleMC net URL_href Both mc tstate0 = (Val invalid, disarm st2)
  | Fatal => handleMC net URL_href Both mc tstate0 = (Fatal, st2)
  end.
Proof.
  intros Hlook Hv Hre. rewrite handleMC_unfold. cbn zeta.
  rewrite Hlook, Hv, extractOne_unfold, Hre.
  destruct r2 as [html2|e|]; [|reflexivity | reflexivity].
  destruct (deep_cases net URL_href
              (find_smsLink URL_href (mcToSnapshotUrl mc) html2)
              (extractPhoneAnywhere html2) st2) as (rd & st3 & Hd & Hc).
  rewrite Hd. destruct Hc as [->|(e & p & -> & _)].
  - do 2 eexists. split; [reflexivity | now left].
  - do 2 eexists. split; [reflexivity|]. right. now exists (e, p).
Qed.

Lemma all_results_nth (l : list string) :
  forall j outs k mc,
    all_results (dispatch w cfg j l) = Some outs ->
    nth_error l k = Some mc ->
    exists o st',
      pipeline w cfg (j + k) mc = (Val o, st') /\ nth_error outs k = Some o.
Proof.
  induction l as [|mc0 l IH]; intros j outs k mc Hall Hk.
  - destruct k; discriminate.
  - cbn [dispatch all_results] in Hall.
    destruct (pipeline w cfg j mc0) as [[o1|e|] st1] eqn:Hp; try discriminate.
    destruct (all_results (dispatch w cfg (S j) l)) as [outs'|] eqn:Hrest;
      [|discriminate].
    inversion Hall; subst outs; clear Hall.
    destruct k as [|k].
    + inversion Hk; subst mc0. exists o1, st1. rewrite Nat.add_0_r. now split.
    + destruct (IH (S j) outs' k mc Hrest Hk) as (o & st' & Hpk & Hn).
      exists o, st'. split; [|exact Hn].
      now replace (j + S k) with (S j + k) by lia.
Qed.

Lemma nth_error_parts (A : Type) (l : list A) :
  forall k x,
    nth_error l k = Some x -> l = firstn k l ++ [x] ++ skipn (S k) l.
Proof.
  induction l as [|y l IH]; intros k x H; [destruct k; discriminate|].
  destruct k as [|k]; [inversion H; reflexivity|].
  cbn [firstn skipn app]. f_equal. now apply IH.
Qed.

(** C1, as the code has it. In a run in full-extraction mode that has
    ended normally, take an identifier of the list whose lookup page passed
    the validity check. If the second request of the lookup page, made by
    [extractOne], returned a page, the accumulator holds at the
    identifier's position one record whose [url] is the lookup URL, which
    is not empty, and the sequence of URLs holds that URL there; nothing is
    assumed about the replies of the SMS and registration pages. If that
    second request threw, the identifier came out invalid and contributes
    neither a record nor a URL. It cannot have ended the process, since the
    run ended normally. *)
Theorem valid_lookup_yields_record (j n : nat) (mc html : string)
    (st1 st2 : tstate) (r2 : res string) :
  MODE cfg = Both ->
  nth_error mcList j = Some mc ->
  fetchRetry (w_net w j) (mcToSnapshotUrl mc) MAX_RETRIES FETCH_TIMEOUT_MS
    "snapshot" tstate0 = (Val html, st1) ->
  validity html = Valid ->
  fetchRetry (w_net w j) (mcToSnapshotUrl mc) MAX_RETRIES FETCH_TIMEOUT_MS
    "snapshot" (arm st1) = (r2, st2) ->
  pc (run_for w cfg mcList n) = Exited 0 ->
  exists outs,
    outcomes_upto w cfg mcList (List.length mcList) = Some outs /\
    match r2 with
    | Val _ =>
        exists row_,
          nth_error outs j = Some (with_row (mcToSnapshotUrl mc) row_) /\
          url row_ = mcToSnapshotUrl mc /\
          url row_ <> "" /\
          rows (run_for w cfg mcList n) =
            records_of (firstn j outs) ++ [row_] ++ records_of (skipn (S j) outs) /\
          validUrls (run_for w cfg mcList n) =
            urls_of (firstn j outs) ++ [mcToSnapshotUrl mc]
            ++ urls_of (skipn (S j) outs)
    | Exn _ =>
        nth_error outs j = Some invalid /\
        rows (run_for w cfg mcList n) =
          records_of (firstn j outs) ++ records_of (skipn (S j) outs) /\
        validUrls (run_for w cfg mcList n) =
          urls_of (firstn j outs) ++ urls_of (skipn (S j) outs)
    | Fatal => False
    end.
Proof.
  intros Hmode Hj Hlook Hv Hre Hend.
  destruct (inv_run w cfg mcList n) as (i & outs & _ & Ho & Hr & Hu & Hpc).
  rewrite Hend in Hpc. subst i.
  exists outs. split; [exact Ho|].
  unfold outcomes_upto in Ho. rewrite firstn_all in Ho.
  destruct (all_results_nth mcList 0 outs j mc Ho Hj) as (o & st' & Hp & Hn).
  cbn [Nat.add] in Hp. unfold pipeline in Hp. rewrite Hmode in Hp.
  pose proof (handleMC_after_gate (w_net w j) (w_URL_href w) mc html st1 st2 r2
                Hlook Hv Hre) as Hcase.
  pose proof (nth_error_parts _ outs j o Hn) as Hparts.
  assert (Hro : records_of outs =
                records_of (firstn j outs) ++ records_of [o]
                ++ records_of (skipn (S j) outs)).
  { rewrite Hparts at 1. now rewrite !records_of_app. }
  assert (Huo : urls_of outs =
                urls_of (firstn j outs) ++ urls_of [o] ++ urls_of (skipn (S j) outs)).
  { rewrite Hparts at 1. now rewrite !urls_of_app. }
  rewrite Hr, Hu, Hro, Huo. clear Hparts Hro Huo.
  destruct r2 as [html2|e|].
  - destruct Hcase as (r & st3 & Hh & Hc). rewrite Hh in Hp.
    destruct Hc as [->|(ep & ->)]; [discriminate|].
    inversion Hp; subst o st3; clear Hp.
    exists (row_of (mcToSnapshotUrl mc) html2 ep).
    split; [exact Hn|]. split; [reflexivity|].
    split; [apply mcToSnapshotUrl_nonempty|].
    split; reflexivity.
  - rewrite Hcase in Hp. inversion Hp; subst o; clear Hp.
    split; [exact Hn|]. split; reflexivity.
  - rewrite Hcase in Hp. discriminate.
Qed.

End RecordInRun.

(** The SMS page never answers: the run ends normally and the
    accumulator holds the record of the identifier, with no email. *)
Lemma valid_lookup_yields_record_witness :
  exists outs row_,
    outcomes_upto (sample_world no_sms_net) default_config ["123456"] 1 = Some outs /\
    nth_error outs 0 = Some (with_row (mcToSnapshotUrl "123456") row_) /\
    url row_ <> "" /\
    rows (run_for (sample_world no_sms_net) default_config ["123456"] 5) =
      records_of (firstn 0 outs) ++ [row_] ++ records_of (skipn 1 outs).
Proof.
  destruct (sample_states no_sms_net) as [[[[[st1 st2] st3] st4] st5] st6] eqn:E.
  vm_compute in E. inversion E as [[E1 E2 E3 E4 E5 E6]].
  destruct (valid_lookup_yields_record (sample_world no_sms_net) default_config
              ["123456"] 0 5 "123456" linked_page st1 st2 (Val linked_page))
    as (outs & Ho & row_ & Hn & _ & Hne & Hrows & _).
  - reflexivity.
  - reflexivity.
  - subst st1. vm_compute. reflexivity.
  - reflexivity.
  - subst st1 st2. vm_compute. reflexivity.
  - vm_compute. reflexivity.
  - exists outs, row_. split; [exact Ho|]. split; [exact Hn|].
    split; [exact Hne | exact Hrows].
Defined.

(** ** C7: a concurrency of zero *)

(** The claim as stated fails: with a concurrency of zero, which line 11
    accepts, every wave is empty and the loop of lines 181-193 never
    advances, so the run never ends and no file is ever written. *)
Lemma zero_concurrency_stalls :
  MODE stalled_config = Urls /\
  CONCURRENCY stalled_config = 0 /\
  (forall n,
      pc (run_for (sample_world steady_net) stalled_config ["000002"] (S n))
        = AtWave 0 1 0 /\
      written (log (run_for (sample_world steady_net) stalled_config ["000002"]
                      (S n))) = []).
Proof.
  split; [reflexivity|]. split; [reflexivity|].
  induction n as [|n [IHpc IHw]]; [split; reflexivity|].
  rewrite run_for_S. unfold step. rewrite IHpc.
  change (0 <? 1) with true. cbv iota.
  change (slice_ ["000002"] 0 (Nat.min 1 (0 + CONCURRENCY stalled_config)))
    with (@nil string).
  cbn [dispatch all_results map fold_left List.length Nat.add pc log fst snd].
  split; [reflexivity|].
  rewrite written_app, IHw. reflexivity.
Qed.

(** ** How [run] ends (lines 164-216) *)

(** Reading the list file, when it exists, and writing the files are
    taken to succeed. With positive batch and wave
    sizes [run] ends and stays ended: at once with exit code 1 when the
    list file does not exist; otherwise after at most [2 + 3 * length]
    steps of its loops over the identifiers read, with exit code 0, or with
    exit code 1 because the extraction timer of the pipeline of one of the
    identifiers fired. *)
Theorem run_ends (w : world) (cfg : config) (input : option string) :
  0 < BATCH_SIZE cfg -> 0 < CONCURRENCY cfg ->
  exists code,
    pc (run w cfg input (2 + 3 * List.length (identifiers input))) = Exited code /\
    (forall m, 2 + 3 * List.length (identifiers input) <= m ->
       run w cfg input m =
       run w cfg input (2 + 3 * List.length (identifiers input))) /\
    ((code = 0 /\ input <> None) \/
     (code = 1 /\
      (input = None \/
       exists j mc st',
         nth_error (identifiers input) j = Some mc /\
         pipeline w cfg j mc = (Fatal, st')))).
Proof.
  intros HB HC. destruct input as [raw|]; cbn [run identifiers].
  - destruct (run_for_ends w cfg (parse_list raw) HB HC) as (code & Hpc & Hstay & Hc).
    exists code. split; [exact Hpc|]. split; [exact Hstay|].
    destruct Hc as [->|(-> & Hf)].
    + left. split; [reflexivity | discriminate].
    + right. split; [reflexivity | now right].
  - exists 1. split; [reflexivity|]. split; [reflexivity|].
    right. split; [reflexivity | now left].
Qed.

(** A list of one identifier whose SMS page fails slowly: the timer
    fires and the run ends with code 1. *)
Lemma run_ends_witness :
  exists code,
    pc (run (sample_world slow_sms_net) default_config (Some "123456") 5)
      = Exited code /\
    (code = 0 \/ code = 1).
Proof.
  destruct (run_ends (sample_world slow_sms_net) default_config (Some "123456"))
    as (code & Hpc & _ & Hc).
  - cbn. lia.
  - cbn. lia.
  - exists code. split; [exact Hpc|]. destruct Hc as [[-> _]|[-> _]]; auto.
Defined.

(** ** The verdict of the code and the rule of the specification *)

(** *** The matcher on the pattern of line 149 *)

Lemma rmatch_liti_after (t : string) :
  forall s c k,
    rmatch (liti t) s c k =
    match after_ci t s with Some rest => k rest c | None => None end.
Proof.
  induction t as [|a t IH]; intros s c k; [reflexivity|].
  destruct t as [|a' t].
  - cbn [liti]. unfold chri. cbn [rmatch after_ci].
    destruct s as [|b s]; [reflexivity|].
    rewrite (Ascii.eqb_sym (fold_char b)).
    destruct (Ascii.eqb (fold_char a) (fold_char b)); reflexivity.
  - change (liti (String a (String a' t)))
      with (Cat (chri a) (liti (String a' t))).
    rewrite rmatch_cat. unfold chri at 1. cbn [rmatch].
    destruct s as [|b s]; [reflexivity|].
    change (after_ci (String a (String a' t)) (String b s))
      with (if Ascii.eqb (fold_char a) (fold_char b)
            then after_ci (String a' t) s else None).
    rewrite (Ascii.eqb_sym (fold_char b)).
    destruct (Ascii.eqb (fold_char a) (fold_char b)); [apply IH | reflexivity].
Qed.

Lemma rep_loop_cls_star (p : ascii -> bool) (k : cont) :
  forall s fuel c,
    String.length s < fuel ->
    rep_loop (rmatch (Cls p)) true k fuel 0 None s c = star_try p k s c.
Proof.
  induction s as [|a s IH]; intros fuel c Hf;
    (destruct fuel as [|fuel]; [simpl in Hf; lia|]); rewrite rep_loop_free.
  - reflexivity.
  - cbn [rmatch star_try].
    destruct (p a); [|reflexivity].
    assert (Hl : (String.length s =? String.length (String a s)) = false).
    { apply Nat.eqb_neq. simpl. lia. }
    rewrite Hl, IH by (simpl in Hf; lia). reflexivity.
Qed.

Lemma rmatch_star_cls (p : ascii -> bool) (s : string) (c : caps) (k : cont) :
  rmatch (star (Cls p)) s c k = star_try p k s c.
Proof.
  unfold star.
  change (rmatch (Rep true 0 None (Cls p)) s c k)
    with (rep_loop (rmatch (Cls p)) true k (0 + String.length s + 1) 0 None s c).
  apply rep_loop_cls_star. lia.
Qed.

(** A continuation that fails on every text that begins with a character
    of the class: nothing is given back. *)
Lemma star_try_commit (p : ascii -> bool) (k : cont) (c : caps) :
  (forall a s', p a = true -> k (String a s') c = None) ->
  forall s, star_try p k s c = k (drop_while p s) c.
Proof.
  intros Hk. induction s as [|a s IH]; [reflexivity|].
  cbn [star_try drop_while]. destruct (p a) eqn:Hp; [|reflexivity].
  rewrite IH. destruct (k (drop_while p s) c); [reflexivity|].
  now rewrite (Hk a s Hp).
Qed.

(** A continuation that always succeeds: the longest run is taken. *)
Lemma star_try_greedy (p : ascii -> bool) (k : cont) (c : caps) :
  (forall t, k t c <> None) ->
  forall s, star_try p k s c = k (drop_while p s) c.
Proof.
  intros Hk. induction s as [|a s IH]; [reflexivity|].
  cbn [star_try drop_while]. destruct (p a); [|reflexivity].
  rewrite IH. destruct (k (drop_while p s) c) eqn:E; [reflexivity|].
  now elim (Hk (drop_while p s)).
Qed.

Lemma take_drop_while (p : ascii -> bool) (s : string) :
  s = take_while p s +++ drop_while p s.
Proof.
  induction s as [|a s IH]; [reflexivity|]. cbn [take_while drop_while].
  destruct (p a); [|reflexivity]. cbn [append]. now rewrite <- IH.
Qed.

Lemma consumed_drop_while (p : ascii -> bool) (s : string) :
  consumed s (drop_while p s) = take_while p s.
Proof. rewrite (take_drop_while p s) at 1. apply consumed_app. Qed.

(** The group [([0-9,]+)] at the head of a text. *)
Lemma rmatch_figure_group (s : string) (c : caps) :
  rmatch (Grp 1 (plus (Cls digit_or_comma))) s c (fun s' c' => Some (s', c')) =
  match s with
  | String a s' =>
      if digit_or_comma a
      then Some (drop_while digit_or_comma s, (1, take_while digit_or_comma s) :: c)
      else None
  | EmptyString => None
  end.
Proof.
  rewrite rmatch_grp. unfold plus.
  change (rmatch (Rep true 1 None (Cls digit_or_comma)) s c ?k)
    with (rep_loop (rmatch (Cls digit_or_comma)) true k
            (1 + String.length s + 1) 1 None s c).
  replace (1 + String.length s + 1) with (S (S (String.length s))) by lia.
  rewrite rep_loop_due.
  destruct s as [|a s]; [reflexivity|].
  change (rmatch (Cls digit_or_comma) (String a s) c ?k)
    with (if digit_or_comma a then k s c else None).
  destruct (digit_or_comma a) eqn:Ha; [|reflexivity].
  rewrite rep_loop_cls_star by (simpl; lia).
  rewrite star_try_greedy by discriminate.
  pose proof (consumed_drop_while digit_or_comma (String a s)) as Hc.
  cbn [drop_while take_while] in Hc |- *. rewrite Ha in Hc |- *.
  now rewrite Hc.
Qed.

Lemma captured_after_group (s : string) (c : caps) :
  option_map (fun x => group_in 1 (snd x))
    (star_try (fun a => negb (is_digit a))
       (fun s' c' =>
          rmatch (Grp 1 (plus (Cls digit_or_comma))) s' c'
            (fun s'' c'' => Some (s'', c''))) s c)
  = option_map Some (captured_after s).
Proof.
  induction s as [|a s IH].
  - cbn [star_try captured_after]. now rewrite rmatch_figure_group.
  - cbn [star_try captured_after]. rewrite rmatch_figure_group.
    destruct (is_digit a) eqn:Hd; cbn [negb].
    + assert (Hdc : digit_or_comma a = true)
        by (unfold digit_or_comma; now rewrite Hd).
      rewrite Hdc. reflexivity.
    + assert (Hdc : digit_or_comma a = Ascii.eqb a ",")
        by (unfold digit_or_comma; now rewrite Hd).
      rewrite Hdc.
      destruct (star_try _ _ s c) as [x|] eqn:Hs.
      * cbn [option_map] in IH |- *.
        destruct (captured_after s) as [fig|]; [|discriminate].
        exact IH.
      * destruct (captured_after s) as [fig|]; [discriminate|].
        destruct (Ascii.eqb a ","); reflexivity.
Qed.

Lemma after_units_space (a : ascii) (s : string) :
  is_space a = true -> after_ci "Units" (String a s) = None.
Proof.
  intros Ha. cbn [after_ci].
  destruct a as [[] [] [] [] [] [] [] []]; try discriminate Ha; reflexivity.
Qed.

(** What the pattern captures at the head of a text. *)
Lemma rmatch_powerUnitsRe (s : string) :
  option_map (fun x => group_in 1 (snd x))
    (rmatch powerUnitsRe s [] (fun s' c => Some (s', c)))
  = option_map Some (captured_at s).
Proof.
  unfold powerUnitsRe, captured_at, after_power_units. cbn [seq].
  change (Cls (fun c => is_digit c || Ascii.eqb c ",")) with (Cls digit_or_comma).
  rewrite rmatch_cat, rmatch_liti_after.
  destruct (after_ci "Power" s) as [s1|]; [|reflexivity].
  change space with (Cls is_space).
  rewrite rmatch_cat, rmatch_star_cls.
  rewrite star_try_commit.
  2:{ intros a s' Ha. rewrite rmatch_cat, rmatch_liti_after.
      now rewrite (after_units_space a s' Ha). }
  rewrite rmatch_cat, rmatch_liti_after.
  destruct (after_ci "Units" (drop_while is_space s1)) as [rest|]; [|reflexivity].
  rewrite rmatch_cat, rmatch_star_cls.
  apply captured_after_group.
Qed.

Lemma exec_at_powerUnitsRe (html : string) :
  forall idx,
    match exec_at powerUnitsRe html idx with
    | Some m => Some (group_str 1 m)
    | None => None
    end = captured html.
Proof.
  induction html as [|a s IH]; intros idx; cbn [exec_at captured].
  - pose proof (rmatch_powerUnitsRe "") as H0.
    destruct (rmatch powerUnitsRe "" [] _) as [[s' c]|];
      destruct (captured_at "") as [fig|]; try discriminate; [|reflexivity].
    cbn [option_map snd] in H0. unfold group_str, group. cbn [m_caps].
    inversion H0 as [E]. now rewrite E.
  - pose proof (rmatch_powerUnitsRe (String a s)) as H1.
    destruct (rmatch powerUnitsRe (String a s) [] _) as [[s' c]|];
      destruct (captured_at (String a s)) as [fig|]; try discriminate; [|apply IH].
    cbn [option_map snd] in H1. unfold group_str, group. cbn [m_caps].
    inversion H1 as [E]. now rewrite E.
Qed.

(** What the pattern captures in a page. *)
Lemma power_units_figure_captured (html : string) :
  power_units_figure html = captured html.
Proof. unfold power_units_figure, exec. apply exec_at_powerUnitsRe. Qed.

(** *** The text captured and the figure located *)

Lemma drop_nondigit_none (s : string) :
  has_digit s = false -> drop_while (fun c => negb (is_digit c)) s = "".
Proof.
  induction s as [|a s IH]; [reflexivity|]. cbn [has_digit drop_while].
  destruct (is_digit a); [discriminate|]. exact IH.
Qed.

Lemma drop_nondigit_some (s : string) :
  has_digit s = true ->
  exists a r,
    drop_while (fun c => negb (is_digit c)) s = String a r /\ is_digit a = true.
Proof.
  induction s as [|a s IH]; [discriminate|]. cbn [has_digit drop_while].
  destruct (is_digit a) eqn:Hd; cbn [negb orb]; [intros _; now exists a, s | exact IH].
Qed.

Lemma captured_after_digit (s : string) :
  has_digit s = true ->
  captured_after s =
  Some (take_while digit_or_comma (drop_while (fun c => negb (is_digit c)) s)).
Proof.
  induction s as [|a s IH]; [discriminate|].
  cbn [has_digit captured_after drop_while].
  destruct (is_digit a); cbn [negb orb]; [reflexivity|].
  intros H. now rewrite (IH H).
Qed.

Lemma captured_after_nodigit (s : string) :
  has_digit s = false ->
  captured_after s = None \/ captured_after s = Some ",".
Proof.
  induction s as [|a s IH]; [now left|].
  cbn [has_digit captured_after].
  destruct (is_digit a); cbn [orb]; [discriminate|]. intros H.
  destruct (IH H) as [E|E]; rewrite E; [|now right].
  destruct (Ascii.eqb a ",") eqn:Ha; [|now left]. right.
  apply Ascii.eqb_eq in Ha. subst a. cbn [take_while]. do 2 f_equal.
  destruct s as [|b s]; [reflexivity|]. cbn [take_while].
  cbn [has_digit] in H. apply orb_false_iff in H. destruct H as [Hb H].
  cbn [captured_after] in E. rewrite Hb in E.
  unfold digit_or_comma. rewrite Hb. cbn [orb].
  destruct (captured_after s); [discriminate|].
  destruct (Ascii.eqb b ","); [discriminate | reflexivity].
Qed.

Lemma is_digit_fold (c : ascii) : is_digit (fold_char c) = is_digit c.
Proof. destruct c as [[] [] [] [] [] [] [] []]; reflexivity. Qed.

Lemma after_ci_digits (marker : string) :
  has_digit marker = false ->
  forall s rest, after_ci marker s = Some rest -> has_digit s = has_digit rest.
Proof.
  induction marker as [|a marker IH]; intros Hm s rest H.
  - inversion H. reflexivity.
  - cbn [has_digit] in Hm. apply orb_false_iff in Hm. destruct Hm as [Ha Hm].
    destruct s as [|b s]; [discriminate|]. cbn [after_ci] in H.
    destruct (Ascii.eqb (fold_char a) (fold_char b)) eqn:E; [|discriminate].
    apply Ascii.eqb_eq in E. cbn [has_digit].
    rewrite <- (is_digit_fold b), <- E, is_digit_fold, Ha. cbn [orb].
    now apply IH.
Qed.

Lemma space_not_digit (a : ascii) : is_space a = true -> is_digit a = false.
Proof. destruct a as [[] [] [] [] [] [] [] []]; cbv; congruence. Qed.

Lemma has_digit_drop_space (s : string) :
  has_digit (drop_while is_space s) = has_digit s.
Proof.
  induction s as [|a s IH]; [reflexivity|]. cbn [drop_while has_digit].
  destruct (is_space a) eqn:Ha; [|reflexivity].
  now rewrite IH, (space_not_digit a Ha).
Qed.

Lemma after_power_units_digits (s rest : string) :
  after_power_units s = Some rest -> has_digit s = has_digit rest.
Proof.
  unfold after_power_units.
  destruct (after_ci "Power" s) as [s1|] eqn:E1; [|discriminate]. intros E2.
  rewrite (after_ci_digits "Power" eq_refl _ _ E1), <- has_digit_drop_space.
  exact (after_ci_digits "Units" eq_refl _ _ E2).
Qed.

Lemma figure_at_digits (s fig : string) :
  figure_at s = Some fig -> has_digit s = true /\ has_digit fig = true.
Proof.
  unfold figure_at.
  destruct (after_power_units s) as [rest|] eqn:E; [|discriminate].
  rewrite (after_power_units_digits _ _ E).
  destruct (has_digit rest) eqn:Hd.
  - destruct (drop_nondigit_some rest Hd) as (a & r & -> & Ha).
    intros H. inversion H. split; [reflexivity|].
    cbn [take_while]. unfold digit_or_comma at 1. rewrite Ha. cbn [orb has_digit].
    now rewrite Ha.
  - now rewrite (drop_nondigit_none rest Hd).
Qed.

Lemma locate_figure_none (s : string) :
  has_digit s = false -> locate_figure s = None.
Proof.
  induction s as [|a s IH]; intros H; cbn [locate_figure].
  - reflexivity.
  - destruct (figure_at (String a s)) as [fig|] eqn:E.
    + apply figure_at_digits in E. destruct E as [E _]. congruence.
    + apply IH. cbn [has_digit] in H. apply orb_false_iff in H. now destruct H.
Qed.

Lemma locate_figure_digits (s fig : string) :
  locate_figure s = Some fig -> has_digit fig = true.
Proof.
  induction s as [|a s IH]; cbn [locate_figure].
  - destruct (figure_at "") as [f|] eqn:E; [|discriminate].
    intros H. inversion H; subst f. now apply figure_at_digits in E.
  - destruct (figure_at (String a s)) as [f|] eqn:E; [|exact IH].
    intros H. inversion H; subst f. now apply figure_at_digits in E.
Qed.

(** The pattern captures the figure that the rule locates; or, when no
    digit follows the words, it captures a lone comma where the rule
    locates no figure. *)
Lemma captured_or_located (s : string) :
  captured s = locate_figure s \/
  (captured s = Some "," /\ locate_figure s = None).
Proof.
  assert (Hat : forall t,
             captured_at t = figure_at t \/
             (captured_at t = Some "," /\ has_digit t = false)).
  { intros t. unfold captured_at, figure_at.
    destruct (after_power_units t) as [rest|] eqn:E; [|now left].
    rewrite (after_power_units_digits _ _ E).
    destruct (has_digit rest) eqn:Hd.
    - left. rewrite (captured_after_digit rest Hd).
      destruct (drop_nondigit_some rest Hd) as (a & r & -> & _). reflexivity.
    - rewrite (drop_nondigit_none rest Hd).
      destruct (captured_after_nodigit rest Hd) as [->| ->]; [now left | now right]. }
  induction s as [|a s IH]; cbn [captured locate_figure].
  - destruct (Hat "") as [->|[-> _]]; [left | now right].
    destruct (figure_at ""); reflexivity.
  - destruct (Hat (String a s)) as [->|[-> Hd]].
    + destruct (figure_at (String a s)); [now left | exact IH].
    + right. split; [reflexivity|].
      change (match figure_at (String a s) with
              | Some fig => Some fig
              | None => locate_figure s
              end) with (locate_figure (String a s)).
      now apply locate_figure_none.
Qed.

(** The verdict of lines 143-151 against the rule. On every page they
    agree, except where the words "Power Units" are followed by no digit
    but by a comma: the pattern then captures the comma, which reads as 0,
    and the page is rejected for zero power units, where the rule locates
    no figure and holds the page valid. *)
Theorem validity_against_rule (html : string) :
  validity html = verdict_rule html \/
  (validity html = InvalidPU /\
   verdict_rule html = Valid /\
   power_units_figure html = Some "," /\
   locate_figure html = None).
Proof.
  unfold validity, verdict_rule.
  rewrite has_marker_ci, puZero_figure, power_units_figure_captured.
  destruct (contains_ci html "record not found" || contains_ci html "record inactive");
    [now left|].
  destruct (captured_or_located html) as [->|[-> Hl]].
  - left. destruct (locate_figure html) as [fig|] eqn:E; [|reflexivity].
    unfold figure_value, figure_read. rewrite (locate_figure_digits _ _ E).
    destruct (figure_value_from 0 fig) as [[|p]|]; reflexivity.
  - right. rewrite Hl. repeat split.
Qed.

(** C2, where the code departs from it. A page where the words "Power
    Units" are followed by a comma and no digit holds no marker and no
    digit at all, so no figure of it parses to zero and the rule holds it
    valid; lines 143-151 capture the comma, read it as 0 and reject the
    page for zero power units. *)
Theorem commas_only_figure_rejected :
  validity "Power Units, none" = InvalidPU /\
  contains_ci "Power Units, none" "record not found" = false /\
  contains_ci "Power Units, none" "record inactive" = false /\
  has_digit "Power Units, none" = false /\
  locate_figure "Power Units, none" = None /\
  verdict_rule "Power Units, none" = Valid /\
  power_units_figure "Power Units, none" = Some "," /\
  figure_value "," = None /\
  figure_read "," = Some 0%N.
Proof. repeat split. Qed.
